(** * scene_maker: a shallow embedding of the rug-mockup tools

    The development follows the five Python sources:

    - [make_white_floor.py]  ([WhiteFloor]): the retry loop around the remote
      image-editing call;
    - [remove_background.py] ([RemoveBackground]): the directory batch of the
      background-removal client;
    - [overlay_images.py]    ([Overlay], [OverlayFlow], [PyPath]): the
      aspect-ratio gate, the reconciling of sizes and the output path;
    - [render.py]            ([Render], [Seam]): the edge mask, the seams and
      the texture masks of the rug renderer;
    - [composite.py]         ([Composite], [Pixel], [Arrays]): visible edges,
      edge thickness, parameter defaults and the compositing pipeline, as an
      interface and on arrays.

    Conventions.  Python [int] is [Z]; Python [float] in [overlay_images.py]
    is the kernel's binary64 [float]; the float32/float64 geometry of
    [composite.py] and [render.py] is carried out over the real numbers [R]
    (square roots are needed), so rounding is idealised there.  A Python
    function that can raise returns a sum or an option; state that the code
    threads through calls (remote call counter, sleeps, files on disk, the
    random generator) is passed explicitly. *)

From Stdlib Require Import ZArith List String Ascii Bool Lia.
From Stdlib Require Import Reals Lra Floats.
From stdpp Require Import base option list.

(** ** Python strings (ASCII fragment) *)

Module PyStr.

(** [str.lower] on the ASCII letters. *)
Definition ascii_lower (c : ascii) : ascii :=
  let n := nat_of_ascii c in
  if ((65 <=? n) && (n <=? 90))%nat then ascii_of_nat (n + 32) else c.

Fixpoint lower (s : string) : string :=
  match s with
  | EmptyString => EmptyString
  | String c s' => String (ascii_lower c) (lower s')
  end.

(** [needle in hay]. *)
Fixpoint contains (needle hay : string) : bool :=
  String.prefix needle hay ||
  match hay with
  | EmptyString => false
  | String _ hay' => contains needle hay'
  end.

(** [s.endswith(suffix)]. *)
Definition endswith (s suffix : string) : bool :=
  let n := String.length s in
  let k := String.length suffix in
  ((k <=? n)%nat && String.eqb (String.substring (n - k) k s) suffix).

(** [s.rfind(".")]: the index of the last dot, if any. *)
Fixpoint rfind_dot (s : string) : option nat :=
  match s with
  | EmptyString => None
  | String c s' =>
      match rfind_dot s' with
      | Some i => Some (S i)
      | None => if Ascii.eqb c "."%char then Some 0%nat else None
      end
  end.

End PyStr.

(** ** Python floats, idealised as real numbers *)

Module PyReal.

Definition Rltb (a b : R) : bool := if Rlt_dec a b then true else false.
Definition Rleb (a b : R) : bool := if Rle_dec a b then true else false.
Definition Reqb (a b : R) : bool := if Req_dec_T a b then true else false.

(** [round(r)] of Python 3: to the nearest integer, ties to the even one. *)
Definition py_round (r : R) : Z :=
  let f := Int_part r in
  if Rltb (frac_part r) (1 / 2)%R then f
  else if Rltb (1 / 2)%R (frac_part r) then (f + 1)%Z
  else if Z.even f then f else (f + 1)%Z.

(** [int(r)]: truncation towards zero. *)
Definition py_int (r : R) : Z :=
  if Rltb r 0 then (- Int_part (- r))%Z else Int_part r.

End PyReal.

(** ** make_white_floor.py *)

Module WhiteFloor.
Import PyStr.

Definition image_data := list Byte.byte.

(** A part of a candidate: [part.inline_data and part.inline_data.data] is
    truthy exactly when there are inline bytes and they are not empty. *)
Record part := { inline_data : option image_data }.

(** [candidate.content] may be [None]; reading [.parts] of it raises. *)
Record candidate := { content : option (list part) }.

(** What one call of [client.models.generate_content] does: it answers with
    the candidates of a response, or raises an exception [e] of which the
    code only reads [str(e)]. *)
Inductive remote_outcome :=
| Responds (candidates : list candidate)
| Fails (error_msg : string).

(** The remote service, as the outcome of its n-th call (from 0). *)
Definition service := nat -> remote_outcome.

(** The dictionary the function returns. *)
Inductive result :=
| Success (image_bytes : image_data)
| Failure (error : string).

(** A call either returns a value or lets an exception escape. *)
Inductive completion :=
| Returns (r : result)
| Raised (exn : string).

(** The effects around the loop: remote calls made, and the arguments of
    [time.sleep] in order. *)
Record state := { calls : nat; sleeps : list Z }.

Definition initial : state := {| calls := 0; sleeps := [] |}.

Definition is_timeout (error_msg : string) : bool :=
  contains "timed out" (lower error_msg) || contains "timeout" (lower error_msg).

Definition truthy_data (p : part) : option image_data :=
  match inline_data p with
  | Some (b :: bs) => Some (b :: bs)
  | _ => None
  end.

(** The [for part in ...parts] loop: the first part with image bytes. *)
Fixpoint first_image (parts : list part) : option image_data :=
  match parts with
  | [] => None
  | p :: ps =>
      match truthy_data p with
      | Some d => Some d
      | None => first_image ps
      end
  end.

(** Lines 76-84, run on a response: [inl] is a [return], [inr] the message
    of an exception raised inside the [try] block. *)
Definition read_response (candidates : list candidate) : result + string :=
  match candidates with
  | [] => inl (Failure "No image data in response")
  | c :: _ =>
      match content c with
      | None => inr "'NoneType' object has no attribute 'parts'"%string
      | Some parts =>
          match first_image parts with
          | Some d => inl (Success d)
          | None => inl (Failure "No image data in response")
          end
      end
  end.

(** The [try] block of one attempt: the remote call, then the reading. *)
Definition try_block (svc : service) (st : state) : (result + string) * state :=
  let st' := {| calls := S (calls st); sleeps := sleeps st |} in
  match svc (calls st) with
  | Responds cs => (read_response cs, st')
  | Fails msg => (inr msg, st')
  end.

(** [for attempt in range(max_retries)], over the attempts still to run.
    [Some r] is a [return r] inside the loop; [None] means the loop ran to
    its end and control falls through to the statement after it. *)
Fixpoint retry_loop (svc : service) (max_retries : Z) (attempts : list Z)
    (st : state) : option result * state :=
  match attempts with
  | [] => (None, st)
  | attempt :: rest =>
      match try_block svc st with
      | (inl r, st1) => (Some r, st1)
      | (inr error_msg, st1) =>
          if is_timeout error_msg && (attempt <? max_retries - 1)%Z then
            let wait_time := (2 ^ attempt)%Z in
            retry_loop svc max_retries rest
              {| calls := calls st1; sleeps := sleeps st1 ++ [wait_time] |}
          else (Some (Failure error_msg), st1)
      end
  end.

(** [range(n)]. *)
Definition range (n : Z) : list Z := map Z.of_nat (seq 0 (Z.to_nat n)).

(** [get_client]: the key read from the environment; a missing or empty key
    raises [ValueError]. *)
Definition get_client (api_key : option string) : string + string :=
  match api_key with
  | None | Some EmptyString => inr "GOOGLE_API_KEY not found in .env file"%string
  | Some k => inl k
  end.

Definition make_white_floor (api_key : option string) (svc : service)
    (max_retries : Z) : completion * state :=
  match get_client api_key with
  | inr exn => (Raised exn, initial)
  | inl _ =>
      match retry_loop svc max_retries (range max_retries) initial with
      | (Some r, st) => (Returns r, st)
      | (None, st) => (Returns (Failure "Max retries exceeded"), st)
      end
  end.

(** The default of the [max_retries] parameter. *)
Definition max_retries_default : Z := 3.

(** Services whose [k] calls from call number [from] on all raise an error
    that reads as a timeout. *)
Definition timeouts (svc : service) (from k : nat) : Prop :=
  forall j, (j < k)%nat ->
    exists msg, svc (from + j)%nat = Fails msg /\ is_timeout msg = true.

(** The waits [2 ** attempt] of the attempts [a], ..., [a + k - 1]. *)
Definition backoff (a k : nat) : list Z :=
  map (fun j => (2 ^ Z.of_nat j)%Z) (seq a k).

End WhiteFloor.

(** ** remove_background.py *)

Module RemoveBackground.
Import PyStr.

(** [pathlib]'s [suffix] and [stem] of a file name: the name is cut at its
    last dot when that dot is neither the first nor the last character. *)
Definition cut_point (name : string) : option nat :=
  match rfind_dot name with
  | Some i =>
      if ((0 <? i) && (i <? String.length name - 1))%nat then Some i else None
  | None => None
  end.

Definition suffix (name : string) : string :=
  match cut_point name with
  | Some i => String.substring i (String.length name - i) name
  | None => EmptyString
  end.

Definition stem (name : string) : string :=
  match cut_point name with
  | Some i => String.substring 0 i name
  | None => name
  end.

(** The entries of the input directory in the order [iterdir] yields them,
    each with its [is_file] flag.  A path exists when it is listed. *)
Definition directory := list (string * bool).

Definition path_exists (d : directory) (name : string) : bool :=
  existsb (String.eqb name) (map fst d).

Definition write_bytes (d : directory) (name : string) : directory :=
  if path_exists d name then d else d ++ [(name, true)].

(** An exception, read through [str(e) or e.__class__.__name__]. *)
Record exn := { exn_class : string; exn_text : string }.

Definition error_text (e : exn) : string :=
  match exn_text e with
  | EmptyString => exn_class e
  | msg => msg
  end.

(** The segmentation service: what its n-th call does for the file sent;
    either the processed bytes are read back, or something raises. *)
Definition image_data := list Byte.byte.
Definition remote := nat -> string -> image_data + exn.

(** Files on disk and the files sent to the service, in order. *)
Record state := { disk : directory; sent : list string }.

Definition extensions : list string := [".png"; ".jpg"; ".jpeg"; ".webp"]%string.

Definition is_candidate (entry : string * bool) : bool :=
  snd entry
  && existsb (String.eqb (lower (suffix (fst entry)))) extensions
  && negb (endswith (stem (fst entry)) "_fg" || endswith (stem (fst entry)) "_wf").

Definition image_files (d : directory) : list string :=
  map fst (List.filter is_candidate d).

Definition out_file (target_format file : string) : string :=
  (stem file ++ "_fg." ++ target_format)%string.

(** [remove_background] for a local path with an explicit output path:
    existence check, one remote call, then the write.  (The message of the
    missing-file error also quotes the working directory, left out here.) *)
Definition remove_background (svc : remote) (file output_path : string)
    (st : state) : (image_data + exn) * state :=
  if negb (path_exists (disk st) file) then
    (inr {| exn_class := "FileNotFoundError";
            exn_text := ("image does not exist: " ++ file)%string |}, st)
  else
    let st1 := {| disk := disk st; sent := sent st ++ [file] |} in
    match svc (List.length (sent st)) file with
    | inr e => (inr e, st1)
    | inl image_bytes =>
        (inl image_bytes,
         {| disk := write_bytes (disk st1) output_path; sent := sent st1 |})
    end.

Inductive status :=
| Skipped
| Succeeded (output : string)
| Errored (error : string).

Record record := { file : string; outcome : status }.

(** The body of [for i, file_path in enumerate(image_files, 1)]. *)
Fixpoint batch (svc : remote) (target_format : string) (files : list string)
    (st : state) (results : list record) : list record * state :=
  match files with
  | [] => (results, st)
  | file_path :: rest =>
      let out := out_file target_format file_path in
      if path_exists (disk st) out then
        batch svc target_format rest st
          (results ++ [{| file := file_path; outcome := Skipped |}])
      else
        match remove_background svc file_path out st with
        | (inl _, st1) =>
            batch svc target_format rest st1
              (results ++ [{| file := file_path; outcome := Succeeded out |}])
        | (inr e, st1) =>
            batch svc target_format rest st1
              (results ++ [{| file := file_path; outcome := Errored (error_text e) |}])
        end
  end.

(** [process_directory]: [None] for [input_dir] stands for a path that is
    not a directory; [format] is the keyword argument of that name, if any.
    The Python function prints its records and returns nothing; here the
    records are returned with the final state. *)
Definition process_directory (svc : remote) (input_dir : option directory)
    (format : option string) : (list record * state) + exn :=
  match input_dir with
  | None => inr {| exn_class := "NotADirectoryError";
                   exn_text := "path is not a directory" |}
  | Some d =>
      let target_format := default "png"%string format in
      inl (batch svc target_format (image_files d)
             {| disk := d; sent := [] |} [])
  end.

(** Records that stand for a call of the remote service. *)
Definition called (r : record) : bool :=
  match outcome r with
  | Skipped => false
  | _ => true
  end.

(** What a run of the loop over [files] from state [st] adds to the records
    ([new]) and does to the state ([st']). *)
Record batch_post (svc : remote) (target_format : string)
    (files : list string) (st st' : state) (new : list record) : Prop := {
  post_files : map file new = files;
  post_sent : sent st' = sent st ++ map file (List.filter called new);
  post_disk : forall p, path_exists (disk st) p = true ->
                        path_exists (disk st') p = true;
  post_unchanged : Forall (fun r => outcome r = Skipped) new -> st' = st;
  post_skip : forall r, In r new ->
                path_exists (disk st) (out_file target_format (file r)) = true ->
                outcome r = Skipped;
  post_error : forall r msg, In r new -> outcome r = Errored msg ->
                exists n e, svc n (file r) = inr e /\ msg = error_text e
}.

End RemoveBackground.

(** ** overlay_images.py *)

Module Overlay.

(** An image, as far as [check_aspect_ratio] reads it. *)
Record image := { width : Z; height : Z }.

(** Python's [int / int] for the sizes of an image (non-negative and far
    below 2^53): both operands are exact binary64 values and the quotient
    is rounded once. *)
Definition float_of_int (n : Z) : float :=
  PrimFloat.of_uint63 (Uint63.of_Z n).

(** [a / b] on ints: [None] is [ZeroDivisionError]. *)
Definition true_div (a b : Z) : option float :=
  if (b =? 0)%Z then None
  else Some (PrimFloat.div (float_of_int a) (float_of_int b)).

(** [x / y] on floats: [None] is [ZeroDivisionError]. *)
Definition float_div (x y : float) : option float :=
  if PrimFloat.eqb y PrimFloat.zero then None else Some (PrimFloat.div x y).

(** [img.width / img.height] once it is known not to raise. *)
Definition ratio (img : image) : float :=
  PrimFloat.div (float_of_int (width img)) (float_of_int (height img)).

Definition check_aspect_ratio (img1 img2 : image) (tolerance : float)
    : option bool :=
  ratio1 ← true_div (width img1) (height img1);
  ratio2 ← true_div (width img2) (height img2);
  diff ← float_div (PrimFloat.abs (PrimFloat.sub ratio1 ratio2)) ratio1;
  Some (PrimFloat.leb diff tolerance).

(** The literal [0.01]: the binary64 value nearest to one hundredth. *)
Definition tolerance_default : float := 0x1.47ae147ae147bp-7%float.

End Overlay.

(** ** render.py *)

Module Render.
Import PyReal.

(** A mode-L image: its rows of pixel values, top row first. *)
Abbreviation image := (list (list Z)).

(** [Image.new("L", (width, height), color)]. *)
Definition Image_new (width height color : Z) : image :=
  replicate (Z.to_nat height) (replicate (Z.to_nat width) color).

(** The pixel access object: [px[x, y]] and [px[x, y] = v]. *)
Definition getpixel (m : image) (x y : nat) : option Z :=
  row ← m !! y; row !! x.

Definition putpixel (m : image) (x y : nat) (v : Z) : image :=
  alter (fun row => <[x := v]> row) y m.

(** Pillow's [ImageDraw.rounded_rectangle((0, 0, width - 1, height - 1),
    radius, fill)] is a library routine: which pixels of the canvas the
    shape covers is a parameter of the development.  Drawing writes [fill]
    to the covered pixels and leaves the others as they were. *)
Class Rasteriser := rounded_rectangle_covers : Z -> Z -> Z -> nat -> nat -> bool.

Definition rounded_rectangle `{Rasteriser} (width height radius fill : Z)
    (m : image) : image :=
  imap (fun y row =>
          imap (fun x v =>
                  if rounded_rectangle_covers width height radius x y
                  then fill else v) row) m.

(** Lines 115-129: the distance of pixel [(x, y)] to the silhouette. *)
Definition edge_distance (width height corner_radius : Z) (x y : nat) : R :=
  let xi := Z.of_nat x in
  let yi := Z.of_nat y in
  let dist_x := Z.min xi (width - 1 - xi) in
  let dist_y := Z.min yi (height - 1 - yi) in
  let dist := IZR (Z.min dist_x dist_y) in
  let half_w := (IZR width / 2)%R in
  let half_h := (IZR height / 2)%R in
  if (0 <? corner_radius)%Z then
    let px := (IZR xi + 0.5)%R in
    let py := (IZR yi + 0.5)%R in
    let px_sym := if Rleb px half_w then px else (IZR width - px)%R in
    let py_sym := if Rleb py half_h then py else (IZR height - py)%R in
    if Rleb px_sym (IZR corner_radius) && Rleb py_sym (IZR corner_radius) then
      let dx := (IZR corner_radius - px_sym)%R in
      let dy := (IZR corner_radius - py_sym)%R in
      let radial := (IZR corner_radius - R_sqrt.sqrt (dx * dx + dy * dy))%R in
      if Rltb radial dist then Rmax radial 0 else dist
    else dist
  else dist.

(** Lines 131-140: whether an opaque pixel at distance [dist], with noise
    value [noise], is set to 0. *)
Definition erodes (max_jitter : Z) (jitter_density dist : R) (noise : Z) : bool :=
  if Rleb (IZR max_jitter) dist || Rltb dist 0 then false
  else
    let rnd := (IZR noise / 255)%R in
    if Rleb jitter_density rnd then false
    else
      let depth := Z.max 1 (py_round (IZR max_jitter * (1 - rnd))) in
      Rltb dist (IZR depth).

(** The body of the two nested loops at pixel [(x, y)].  The loops stay
    inside the image, where [getpixel] answers; outside it Pillow raises. *)
Definition jitter_pixel (width height corner_radius max_jitter : Z)
    (jitter_density : R) (noise : nat -> nat -> Z) (y : nat) (mask : image)
    (x : nat) : image :=
  match getpixel mask x y with
  | Some v =>
      if (v =? 0)%Z then mask
      else if erodes max_jitter jitter_density
                (edge_distance width height corner_radius x y) (noise x y)
           then putpixel mask x y 0
           else mask
  | None => mask
  end.

Definition jitter_row (width height corner_radius max_jitter : Z)
    (jitter_density : R) (noise : nat -> nat -> Z) (mask : image) (y : nat)
    : image :=
  foldl (jitter_pixel width height corner_radius max_jitter jitter_density noise y)
    mask (seq 0 (Z.to_nat width)).

Definition jitter_pass (width height corner_radius max_jitter : Z)
    (jitter_density : R) (noise : nat -> nat -> Z) (mask : image) : image :=
  foldl (jitter_row width height corner_radius max_jitter jitter_density noise)
    mask (seq 0 (Z.to_nat height)).

(** Lines 82 and 106: the radius, cut to half the shorter side. *)
Definition clamp_radius (width height radius : Z) : Z :=
  Z.max 0 (Z.min radius (Z.min width height / 2)).

(** [v] is the pixel [c] of the clean mask, possibly eroded to 0. *)
Definition eroded (v c : Z) : Prop := v = c \/ v = 0%Z.

(** A pixel that is fully transparent or fully opaque. *)
Definition binary (v : Z) : Prop := v = 0%Z \/ v = 255%Z.

(** A pixel [v] of a jittered mask against the pixel [c] of the clean mask
    at the same place. *)
Definition below_clean (v c : Z) : Prop :=
  (v <= c)%Z /\ binary v /\ eroded v c.

(** [create_edge_mask(size, radius, jitter, jitter_density)].  [noise] is
    the field [Image.effect_noise(size, 255)] draws when the jitter pass
    runs.  [None]: Pillow refuses a negative width or height. *)
Definition create_edge_mask `{Rasteriser} (size : Z * Z) (radius jitter : Z)
    (jitter_density : R) (noise : nat -> nat -> Z) : option image :=
  let '(width, height) := size in
  if ((width <? 0) || (height <? 0))%Z then None
  else
    let radius := clamp_radius width height radius in
    if (radius =? 0)%Z then Some (Image_new width height 255)
    else
      let mask :=
        rounded_rectangle width height radius 255 (Image_new width height 0) in
      let jitter := Z.max 0 jitter in
      if (jitter =? 0)%Z then Some mask
      else
        let jitter_density := Rmax 0 (Rmin 1 jitter_density) in
        if Reqb jitter_density 0 then Some mask
        else
          let max_jitter := Z.min jitter (Z.min width height / 2) in
          if (max_jitter <=? 0)%Z then Some mask
          else
            let corner_radius := clamp_radius width height radius in
            Some (jitter_pass width height corner_radius max_jitter
                    jitter_density noise mask).

(** A rasteriser to run the model on: a pixel in a corner square of side
    [radius] is covered when its corner-side vertex lies within [radius] of
    the corner circle's centre. *)
Definition disc_rasteriser : Rasteriser :=
  fun width height radius x y =>
    let xi := Z.of_nat x in
    let yi := Z.of_nat y in
    let xs := Z.min xi (width - 1 - xi) in
    let ys := Z.min yi (height - 1 - yi) in
    if ((xs <? radius) && (ys <? radius))%Z
    then ((radius - xs) * (radius - xs) + (radius - ys) * (radius - ys)
          <=? radius * radius)%Z
    else true.

(** What Pillow's rounded rectangle does at the five pixels the mask is
    read at: drawn with a radius of at least 1 (and at most half the
    shorter side) into a box at least 3 wide and 3 high, the shape leaves
    the four corner pixels of the box out and covers the pixel at its
    centre, [(width // 2, height // 2)]. *)
Definition rounds_corners `{Rasteriser} : Prop :=
  forall width height radius,
    (3 <= width)%Z -> (3 <= height)%Z ->
    (1 <= radius)%Z -> (2 * radius <= Z.min width height)%Z ->
    let right := Z.to_nat (width - 1) in
    let bottom := Z.to_nat (height - 1) in
    rounded_rectangle_covers width height radius 0 0 = false
    /\ rounded_rectangle_covers width height radius right 0 = false
    /\ rounded_rectangle_covers width height radius right bottom = false
    /\ rounded_rectangle_covers width height radius 0 bottom = false
    /\ rounded_rectangle_covers width height radius
         (Z.to_nat (width / 2)) (Z.to_nat (height / 2)) = true.

End Render.

(** ** composite.py *)

Module Composite.
Import PyReal.

(** *** Plane vectors ([numpy] arrays of two floats) *)

Definition vec := (R * R)%type.

Definition vadd (a b : vec) : vec := (fst a + fst b, snd a + snd b)%R.
Definition vsub (a b : vec) : vec := (fst a - fst b, snd a - snd b)%R.
Definition vscale (k : R) (a : vec) : vec := (k * fst a, k * snd a)%R.
Definition vdiv (a : vec) (k : R) : vec := (fst a / k, snd a / k)%R.
Definition dot (a b : vec) : R := (fst a * fst b + snd a * snd b)%R.
(** [np.linalg.norm]. *)
Definition norm (a : vec) : R := R_sqrt.sqrt (fst a * fst a + snd a * snd a).

(** [np.array(points, dtype=np.float32)]. *)
Definition to_array (points : list (Z * Z)) : list vec :=
  map (fun p => (IZR (fst p), IZR (snd p))) points.

(** [np.mean(pts, axis=0)]. *)
Definition mean (pts : list vec) : vec :=
  vdiv (fold_right vadd (0%R, 0%R) pts) (INR (List.length pts)).

(** *** get_visible_edges *)

Inductive side := top | right | bottom | left.

Record edge := {
  name : side;
  start : vec;
  end_ : vec;
  outward : vec;
  visibility : R
}.

(** The loop body up to the visibility score; [None] is the [continue] of
    a zero-length edge. *)
Definition describe_edge (centroid : vec) (nm : side) (start end_ : vec)
    : option edge :=
  let v := vsub end_ start in
  let length := norm v in
  if Rleb length 0 then None
  else
    let n1 := (snd v, (- fst v)%R) in
    let n2 := ((- snd v)%R, fst v) in
    let mid := vdiv (vadd start end_) 2 in
    let to_center := vsub centroid mid in
    let outward := if Rltb (dot n1 to_center) 0 then n1 else n2 in
    let outward := vdiv outward (norm outward) in
    let visibility := Rmax 0 (snd outward) in
    Some {| name := nm; start := start; end_ := end_;
            outward := outward; visibility := visibility |}.

(** The four sides, as the successive corner pairs.  [None]: fewer than four
    points ([IndexError]). *)
Definition sides (pts : list vec) : option (list (side * vec * vec)) :=
  p0 ← pts !! 0%nat; p1 ← pts !! 1%nat; p2 ← pts !! 2%nat; p3 ← pts !! 3%nat;
  Some [(top, p0, p1); (right, p1, p2); (bottom, p2, p3); (left, p3, p0)].

Definition keep_visible (e : edge) : bool := Rltb 0 (visibility e).

Definition visible_of (centroid : vec) (s : side * vec * vec) : option edge :=
  let '(nm, a, b) := s in
  e ← describe_edge centroid nm a b;
  if keep_visible e then Some e else None.

Definition get_visible_edges (points : list (Z * Z)) : option (list edge) :=
  let pts := to_array points in
  let centroid := mean pts in
  match sides pts with
  | Some edges => Some (omap (visible_of centroid) edges)
  | None => None
  end.

(** *** add_thickness_to_visible_edges *)

Definition min_thickness : R := 4%R.

(** Lines 110-111. *)
Definition local_thickness (max_thickness : Z) (depth_ratio : R) : R :=
  (min_thickness + (IZR max_thickness - min_thickness) * depth_ratio)%R.

Record sample := {
  point : vec;
  depth_ratio : R;
  thickness_here : R;
  offset : vec;
  poly : list (Z * Z)
}.

(** [np.array([...], dtype=np.int32)] of a point. *)
Definition to_int32 (p : vec) : Z * Z := (py_int (fst p), py_int (snd p)).

(** The point, its depth ratio and its strip at parameter [t]. *)
Definition along (e : edge) (t : R) : vec :=
  vadd (start e) (vscale t (vsub (end_ e) (start e))).

(** Lines 108-122 for sample [i] of [num_samples] on edge [e]. *)
Definition sample_at (img_bottom max_thickness : Z) (e : edge)
    (num_samples : Z) (i : nat) : sample :=
  let denom := IZR (Z.max 1 (num_samples - 1)) in
  let t := (INR i / denom)%R in
  let pt := along e t in
  let ratio := (snd pt / IZR img_bottom)%R in
  let here := local_thickness max_thickness ratio in
  let off := vscale here (0%R, 1%R) in
  let strip :=
    if (Z.of_nat i <? num_samples - 1)%Z then
      let next_t := (INR (i + 1) / denom)%R in
      let next_point := along e next_t in
      let next_ratio := (snd next_point / IZR img_bottom)%R in
      let next_thickness := local_thickness max_thickness next_ratio in
      let next_offset := vscale next_thickness (0%R, 1%R) in
      [pt; next_point; vadd next_point next_offset; vadd pt off]
    else [pt; pt; vadd pt off; vadd pt off] in
  {| point := pt; depth_ratio := ratio; thickness_here := here;
     offset := off; poly := map to_int32 strip |}.

(** The samples of one edge: [for i in range(num_samples)]. *)
Definition edge_samples (img_bottom max_thickness : Z) (e : edge) : list sample :=
  let edge_len := norm (vsub (end_ e) (start e)) in
  let num_samples := (py_int edge_len + 1)%Z in
  map (sample_at img_bottom max_thickness e num_samples)
    (seq 0 (Z.to_nat num_samples)).

(** *** The imaging libraries

    Arrays and the numpy, OpenCV and Pillow routines the pipeline calls are
    parameters: each is a function of its arguments.  The renderer of
    [render.py] is the one step that draws random numbers; it takes and
    returns the generator state.  The steps of the pipeline are an
    interface: [Arrays.numpy] further down implements it with the code of
    [composite.py] on arrays, over the routines of OpenCV and Pillow. *)
Class Imaging := {
  ndarray : Type;
  file : Type;
  rng : Type;
  (** [np.array(Image.open(f).convert("RGB"))] and the same for RGBA. *)
  open_rgb : file -> ndarray;
  open_rgba : file -> ndarray;
  (** [a.shape[:2]], as (height, width). *)
  shape : ndarray -> Z * Z;
  (** [cv2.resize(a, (w, h), interpolation=cv2.INTER_LINEAR)]. *)
  resize : ndarray -> Z -> Z -> ndarray;
  (** [Image.new("RGBA", (1000, 1000), (255, 0, 0, 255))]. *)
  red_placeholder : ndarray;
  (** [rgba_to_numpy(render_rug_image(rug, target_w, target_h, texture_strength))]. *)
  render_rug_image : ndarray -> Z -> Z -> R -> rng -> ndarray * rng;
  (** Lines 272-278: the projective transform and the two warps. *)
  warp_perspective : ndarray -> list (Z * Z) -> Z -> Z -> ndarray;
  (** Lines 124-163: rasterise one strip and blend its gradient in. *)
  paint_strip : ndarray -> sample -> ndarray;
  (** The body of [apply_lighting]. *)
  relight : ndarray -> ndarray -> R -> ndarray;
  (** Lines 187-196 of [gaussian_blur_edges]. *)
  blur_alpha : ndarray -> Z -> bool -> ndarray;
  (** The per-channel blend of a layer over a base with the layer's alpha. *)
  blend_over : ndarray -> ndarray -> ndarray;
  (** [Image.fromarray(a.astype(np.uint8)).save(output_path)]: the bytes
      written at [output_path], or [None] when Pillow raises (an extension
      that names no format, a directory that is not there). *)
  save_image : ndarray -> string -> option file
}.

(** Default of the [thickness] parameter (line 79). *)
Definition thickness_default : Z := 6.

Definition add_thickness_to_visible_edges `{Imaging} (rug_rgba : ndarray)
    (dst_points : list (Z * Z)) (thickness : option Z) : option ndarray :=
  let thickness := default thickness_default thickness in
  let result := rug_rgba in
  let '(h, w) := shape result in
  match get_visible_edges dst_points with
  | None => None
  | Some [] => Some result
  | Some visible_edges =>
      let max_thickness := thickness in
      let img_bottom := h in
      Some (foldl (fun img e =>
                     foldl paint_strip img (edge_samples img_bottom max_thickness e))
              result visible_edges)
  end.

Definition apply_lighting `{Imaging} (rug_rgba shadow_ref_rgb : ndarray)
    (intensity : R) : ndarray :=
  relight rug_rgba shadow_ref_rgb intensity.

Definition gaussian_blur_edges `{Imaging} (rgba : ndarray) (radius : Z)
    (erode : bool) : ndarray :=
  if (radius <=? 0)%Z then rgba else blur_alpha rgba radius erode.

(** *** load_scene_config *)

(** A parsed scene template with its required keys. *)
Record scene_yaml := {
  original : string;
  top_left : Z * Z;
  top_right : Z * Z;
  bottom_right : Z * Z;
  bottom_left : Z * Z;
  yaml_rug_size : option string
}.

Record scene_config := {
  image_path : string;
  wf_path : string;
  fg_path : option string;
  corners : list (Z * Z);
  suitable_rug_size : option string
}.

(** The template store: the parsed templates by scene name and the files
    by name. *)
Record store `{Imaging} := {
  templates : string -> option scene_yaml;
  files : string -> option file
}.

Definition file_exists `{Imaging} (d : store) (path : string) : bool :=
  match files d path with Some _ => true | None => false end.

(** [None]: the template is missing ([FileNotFoundError]). *)
Definition load_scene_config `{Imaging} (d : store) (scene_name : string)
    : option scene_config :=
  config ← templates d scene_name;
  let wf := (scene_name ++ "_wf.png")%string in
  let fg := (scene_name ++ "_fg.png")%string in
  Some {| image_path := original config;
          wf_path := if file_exists d wf then wf else original config;
          fg_path := if file_exists d fg then Some fg else None;
          corners := [top_left config; top_right config;
                      bottom_right config; bottom_left config];
          suitable_rug_size := yaml_rug_size config |}.

(** [SIZE_CONFIGS] of the renderer: target width and height by size class. *)
Definition SIZE_CONFIGS (size : string) : option (Z * Z) :=
  if String.eqb size "2x3" then Some (640, 960)%Z
  else if String.eqb size "3x5" then Some (600, 1000)%Z
  else if String.eqb size "4x6" then Some (640, 960)%Z
  else if String.eqb size "5x7" then Some (714, 1000)%Z
  else if String.eqb size "6x9" then Some (640, 960)%Z
  else if String.eqb size "8x10" then Some (800, 1000)%Z
  else None.

(** *** composite_scene *)

(** Defaults of the signature (lines 198-200). *)
Definition output_path_default : string := "output.png".
Definition shadow_intensity_default : R := 1%R.
Definition rug_thickness_default : Z := 6.
Definition texture_strength_default : R := 0.55%R.

Definition fit `{Imaging} (a : ndarray) (h w : Z) : ndarray :=
  let '(a_h, a_w) := shape a in
  if (negb (a_h =? h) || negb (a_w =? w))%Z then resize a w h else a.

Definition truthy (s : option string) : option string :=
  match s with
  | Some EmptyString | None => None
  | Some p => Some p
  end.

(** The rug that goes into the warp (lines 233-270). *)
Definition prepare_rug `{Imaging} (d : store) (config : scene_config)
    (design_path : option string) (skip_render : bool) (texture_strength : R)
    (g : rng) : option ndarray * rng :=
  let rug_pil :=
    match truthy design_path with
    | Some p => open_rgba <$> files d p
    | None => Some red_placeholder
    end in
  match rug_pil with
  | None => (None, g)
  | Some rug_pil =>
      if negb skip_render then
        let '(rug_h, rug_w) := shape rug_pil in
        let '(target_w, target_h) :=
          match truthy (suitable_rug_size config) ≫= SIZE_CONFIGS with
          | Some size_config => size_config
          | None => (rug_w, rug_h)
          end in
        let '(rendered, g') :=
          render_rug_image rug_pil target_w target_h texture_strength g in
        (Some rendered, g')
      else (Some rug_pil, g)
  end.

(** [composite_scene]: the file written at [output_path], or [None] when a
    template or an image is missing or the file cannot be saved; the
    generator state goes in and out. *)
Definition composite_scene `{Imaging} (d : store) (scene_name : string)
    (design_path output_path : option string) (shadow_intensity : option R)
    (rug_thickness : option Z) (debug skip_render : option bool)
    (texture_strength : option R) (g : rng)
    : option (string * file) * rng :=
  let output_path := default output_path_default output_path in
  let shadow_intensity := default shadow_intensity_default shadow_intensity in
  let rug_thickness := default rug_thickness_default rug_thickness in
  let skip_render := default false skip_render in
  let texture_strength := default texture_strength_default texture_strength in
  match load_scene_config d scene_name with
  | None => (None, g)
  | Some config =>
      match open_rgb <$> files d (image_path config),
            open_rgb <$> files d (wf_path config) with
      | Some scene_rgb, Some shadow_ref_rgb =>
          let '(h, w) := shape scene_rgb in
          let shadow_ref_rgb := fit shadow_ref_rgb h w in
          match prepare_rug d config design_path skip_render texture_strength g with
          | (None, g') => (None, g')
          | (Some rug_rgba, g') =>
              let warped_rug := warp_perspective rug_rgba (corners config) w h in
              match add_thickness_to_visible_edges warped_rug (corners config)
                      (Some rug_thickness) with
              | None => (None, g')
              | Some warped_rug =>
                  let warped_rug :=
                    apply_lighting warped_rug shadow_ref_rgb shadow_intensity in
                  let warped_rug := gaussian_blur_edges warped_rug 1 true in
                  let result := blend_over scene_rgb warped_rug in
                  let with_fg :=
                    match fg_path config with
                    | Some p =>
                        fg ← open_rgba <$> files d p;
                        let fg := fit fg h w in
                        let fg := gaussian_blur_edges fg 2 false in
                        Some (blend_over result fg)
                    | None => Some result
                    end in
                  match with_fg with
                  | Some result =>
                      match save_image result output_path with
                      | Some written => (Some (output_path, written), g')
                      | None => (None, g')
                      end
                  | None => (None, g')
                  end
              end
          end
      | _, _ => (None, g)
      end
  end.

(** *** The command line (lines 310-322) *)

Record arguments := {
  scene : string;
  design : option string;
  output : option string;
  arg_shadow_intensity : option R;
  arg_thickness : option Z;
  arg_debug : bool;
  arg_skip_render : bool;
  arg_texture_strength : option R
}.

(** Defaults of the [argparse] options. *)
Definition cli_thickness_default : Z := 7.
Definition cli_texture_strength_default : R := 0.7%R.

Definition main `{Imaging} (d : store) (args : arguments) (g : rng)
    : option (string * file) * rng :=
  composite_scene d (scene args) (design args)
    (Some (default "output.png"%string (output args)))
    (Some (default 1%R (arg_shadow_intensity args)))
    (Some (default cli_thickness_default (arg_thickness args)))
    (Some (arg_debug args)) (Some (arg_skip_render args))
    (Some (default cli_texture_strength_default (arg_texture_strength args)))
    g.

(** *** A run to look at

    An instance on which the pipeline can be followed: an array is the list
    of the local thicknesses of the strips painted on it, last strip first,
    of an image 480 high and 640 wide; every other routine hands its array
    on unchanged.  The scene [room] has the whole image as its floor. *)
Definition recording : Imaging := {|
  ndarray := list R;
  file := list R;
  rng := unit;
  open_rgb := fun f => f;
  open_rgba := fun f => f;
  shape := fun _ => (480, 640)%Z;
  resize := fun a _ _ => a;
  red_placeholder := [];
  render_rug_image := fun a _ _ _ g => (a, g);
  warp_perspective := fun a _ _ _ => a;
  paint_strip := fun img s => thickness_here s :: img;
  relight := fun a _ _ => a;
  blur_alpha := fun a _ _ => a;
  blend_over := fun _ layer => layer;
  save_image := fun a _ => Some a
|}.

Definition room : @store recording := {|
  templates := fun scene_name =>
    if String.eqb scene_name "room" then
      Some {| original := "room.png";
              top_left := (0, 0)%Z; top_right := (640, 0)%Z;
              bottom_right := (640, 480)%Z; bottom_left := (0, 480)%Z;
              yaml_rug_size := None |}
    else None;
  files := fun path =>
    if String.eqb path "room.png" then Some (@nil R : @file recording) else None
|}.

Definition room_bottom_edge : edge :=
  {| name := bottom; start := (640%R, 480%R); end_ := (0%R, 480%R);
     outward := (0%R, 1%R); visibility := 1%R |}.

End Composite.

(** ** make_white_floor.py: the directory batch and the command line *)

Module WhiteFloorBatch.
Import PyStr.

Definition image_extensions : list string := [".png"; ".jpg"; ".jpeg"]%string.

Definition is_candidate (entry : string * bool) : bool :=
  snd entry
  && existsb (String.eqb (lower (RemoveBackground.suffix (fst entry))))
       image_extensions
  && negb (endswith (RemoveBackground.stem (fst entry)) "_fg"
           || endswith (RemoveBackground.stem (fst entry)) "_wf").

Definition image_files (d : RemoveBackground.directory) : list string :=
  map fst (List.filter is_candidate d).

(** [f"{stem}_wf{suffix}"]: the output keeps the extension of the input. *)
Definition output_path (file : string) : string :=
  (RemoveBackground.stem file ++ "_wf" ++ RemoveBackground.suffix file)%string.

(** Files on disk, remote calls made so far and the sleeps so far. *)
Record state := {
  disk : RemoveBackground.directory;
  calls : nat;
  sleeps : list Z
}.

Record tally := { processed : nat; skipped : nat; errors : nat }.

(** What the loop reads from outside: the API key of the environment, the
    remote service by the number of the call (over the whole run), and
    which files [read_bytes] can read. *)
Record world := {
  api_key : option string;
  svc : WhiteFloor.service;
  readable : string -> bool
}.

(** One call of [make_white_floor] with its default [max_retries], started
    when [calls st] remote calls have been made. *)
Definition white_floor (w : world) (st : state) : WhiteFloor.completion * state :=
  let '(c, used) :=
    WhiteFloor.make_white_floor (api_key w)
      (fun n => svc w (calls st + n)%nat) WhiteFloor.max_retries_default in
  (c, {| disk := disk st;
         calls := (calls st + WhiteFloor.calls used)%nat;
         sleeps := sleeps st ++ WhiteFloor.sleeps used |}).

(** The loop of [process_directory] (lines 136-167).  Writing the output
    of a file that was processed is taken to succeed. *)
Fixpoint batch (w : world) (files : list string) (st : state) (t : tally)
    : state * tally :=
  match files with
  | [] => (st, t)
  | image_file :: rest =>
      let out := output_path image_file in
      if RemoveBackground.path_exists (disk st) out then
        batch w rest st
          {| processed := processed t; skipped := S (skipped t);
             errors := errors t |}
      else if negb (readable w image_file) then
        batch w rest st
          {| processed := processed t; skipped := skipped t;
             errors := S (errors t) |}
      else
        match white_floor w st with
        | (WhiteFloor.Returns (WhiteFloor.Success _), st1) =>
            batch w rest
              {| disk := RemoveBackground.write_bytes (disk st1) out;
                 calls := calls st1; sleeps := sleeps st1 |}
              {| processed := S (processed t); skipped := skipped t;
                 errors := errors t |}
        | (_, st1) =>
            batch w rest st1
              {| processed := processed t; skipped := skipped t;
                 errors := S (errors t) |}
        end
  end.

Definition no_tally : tally := {| processed := 0; skipped := 0; errors := 0 |}.

(** [process_directory]: the value returned, with the final state and
    counters.  [None] for [input_dir] is a path that is not a directory. *)
Definition process_directory (w : world) (input_dir : option RemoveBackground.directory)
    : Z * state * tally :=
  match input_dir with
  | None => (1%Z, {| disk := []; calls := 0; sleeps := [] |}, no_tally)
  | Some d =>
      let st0 := {| disk := d; calls := 0; sleeps := [] |} in
      match image_files d with
      | [] => (0%Z, st0, no_tally)
      | files =>
          let '(st, t) := batch w files st0 no_tally in
          (Z.of_nat (errors t), st, t)
      end
  end.

(** What [args.input] names: nothing, a directory, or a file [name] of a
    directory [d]. *)
Inductive target :=
| Missing
| Folder (d : RemoveBackground.directory)
| Image (d : RemoveBackground.directory) (name : string).

(** How [main] ends: a returned exit code, or an exception no handler
    catches. *)
Inductive ending :=
| Exit (code : Z)
| Uncaught (exn : string).

(** [main] (lines 173-229); an explicit [--output] is looked up in the
    directory of the input. *)
Definition main (w : world) (input : target) (output : option string)
    : ending * state :=
  match input with
  | Missing => (Exit 1, {| disk := []; calls := 0; sleeps := [] |})
  | Folder d =>
      let '(code, st, _) := process_directory w (Some d) in (Exit code, st)
  | Image d name =>
      let st0 := {| disk := d; calls := 0; sleeps := [] |} in
      if negb (readable w name) then (Uncaught "read_bytes", st0)
      else
        let out :=
          match output with
          | Some (String c s) => String c s
          | _ => output_path name
          end in
        if RemoveBackground.path_exists d out then (Exit 0, st0)
        else
          match white_floor w st0 with
          | (WhiteFloor.Raised exn, st1) => (Uncaught exn, st1)
          | (WhiteFloor.Returns (WhiteFloor.Success _), st1) =>
              (Exit 0,
               {| disk := RemoveBackground.write_bytes (disk st1) out;
                  calls := calls st1; sleeps := sleeps st1 |})
          | (WhiteFloor.Returns (WhiteFloor.Failure _), st1) => (Exit 1, st1)
          end
  end.

End WhiteFloorBatch.

(** ** [pathlib] paths (POSIX flavour) *)

Module PyPath.

(** [s.split("/")]. *)
Fixpoint split_slash (s : string) : list string :=
  match s with
  | EmptyString => [EmptyString]
  | String c s' =>
      if Ascii.eqb c "/" then EmptyString :: split_slash s'
      else
        match split_slash s' with
        | [] => [String c EmptyString]
        | part :: rest => String c part :: rest
        end
  end.

(** A parsed path: the root (empty, one slash, or two for a path that
    starts with exactly two) and the components, where empty components
    and [.] are dropped and [..] is kept. *)
Record path := { root : string; parts : list string }.

Definition kept (part : string) : bool :=
  negb (String.eqb part "" || String.eqb part ".").

(** [Path(s)]. *)
Definition Path (s : string) : path :=
  {| root :=
       if String.prefix "//" s && negb (String.prefix "///" s) then "//"%string
       else if String.prefix "/" s then "/"%string
       else EmptyString;
     parts := List.filter kept (split_slash s) |}.

(** ["/".join(parts)]. *)
Fixpoint join (ps : list string) : string :=
  match ps with
  | [] => EmptyString
  | [part] => part
  | part :: rest => (part ++ "/" ++ join rest)%string
  end.

(** [str(p)]: the empty relative path reads [.]. *)
Definition str (p : path) : string :=
  match root p, parts p with
  | EmptyString, [] => "."%string
  | r, ps => (r ++ join ps)%string
  end.

(** [p.name]: the last component, empty when there is none. *)
Definition name (p : path) : string := List.last (parts p) EmptyString.

(** [p.parent]. *)
Definition parent (p : path) : path :=
  {| root := root p; parts := List.removelast (parts p) |}.

(** [p / segment] for a segment that is one file name. *)
Definition joinpath (p : path) (segment : string) : path :=
  {| root := root p; parts := parts p ++ [segment] |}.

(** [p.stem]. *)
Definition stem (p : path) : string := RemoveBackground.stem (name p).

End PyPath.

(** ** overlay_images.py: reconciling sizes and compositing *)

Module OverlayFlow.

(** Pixel data and the two Pillow routines that work on it are parameters:
    resampling to a new size (LANCZOS) and the "over" operator on data of
    one size. *)
Class Pixels := {
  content : Type;
  resample : content -> Overlay.image -> Overlay.image -> content;
  over : content -> content -> content
}.

Record picture `{Pixels} := { dims : Overlay.image; data : content }.

(** [img.resize(size, LANCZOS)]. *)
Definition resize `{Pixels} (img : picture) (size : Overlay.image) : picture :=
  {| dims := size; data := resample (data img) (dims img) size |}.

Definition area (size : Overlay.image) : Z :=
  (Overlay.width size * Overlay.height size)%Z.

Definition same_size (a b : Overlay.image) : bool :=
  ((Overlay.width a =? Overlay.width b) && (Overlay.height a =? Overlay.height b))%Z.

Definition resize_to_match `{Pixels} (img1 img2 : picture) : picture * picture :=
  let size1 := area (dims img1) in
  let size2 := area (dims img2) in
  if (size1 =? size2)%Z then (img1, img2)
  else if (size2 <? size1)%Z then (resize img1 (dims img2), img2)
  else (img1, resize img2 (dims img1)).

(** [Image.alpha_composite]: Pillow refuses images of different sizes. *)
Definition alpha_composite `{Pixels} (img1 img2 : picture) : option picture :=
  if same_size (dims img1) (dims img2)
  then Some {| dims := dims img1; data := over (data img1) (data img2) |}
  else None.

Inductive failure :=
| FileNotFound (path : string)
| ZeroDivision
| RatioMismatch
| SizeMismatch.

(** [image1_path.parent / f"{image1_path.stem}_overlay.png"] (line 118). *)
Definition default_output (image1_path : string) : string :=
  let image1_path := PyPath.Path image1_path in
  PyPath.str
    (PyPath.joinpath (PyPath.parent image1_path)
       (PyPath.stem image1_path ++ "_overlay.png")).

(** [overlay_images]: the file written and the image returned, or how the
    call fails.  [files] gives the images on disk, as converted to RGBA. *)
Definition overlay_images `{Pixels} (files : string -> option picture)
    (image1_path image2_path : string) (output_path : option string)
    (tolerance : float) : failure + string * picture :=
  match files image1_path with
  | None => inl (FileNotFound image1_path)
  | Some img1 =>
      match files image2_path with
      | None => inl (FileNotFound image2_path)
      | Some img2 =>
          match Overlay.check_aspect_ratio (dims img1) (dims img2) tolerance with
          | None => inl ZeroDivision
          | Some false => inl RatioMismatch
          | Some true =>
              let '(a, b) := resize_to_match img1 img2 in
              match alpha_composite a b with
              | None => inl SizeMismatch
              | Some result =>
                  let out :=
                    match output_path with
                    | Some (String c s) => PyPath.str (PyPath.Path (String c s))
                    | _ => default_output image1_path
                    end in
                  inr (out, result)
              end
          end
      end
  end.

(** Pixel data reduced to nothing, to run the flow on the sizes alone. *)
Definition sizes_only : Pixels :=
  {| content := unit; resample := fun _ _ _ => tt; over := fun _ _ => tt |}.

Definition sized (width height : Z) : @picture sizes_only :=
  @Build_picture sizes_only
    {| Overlay.width := width; Overlay.height := height |} tt.

End OverlayFlow.

(** ** render.py: seams, texture masks and the default texture *)

Module Seam.
Import PyReal Render.

(** Pillow's [ImageDraw.rectangle((x0, y0, x1, y1), fill)]: the pixels of
    the box, ends included, take [fill].  A box with [x1 < x0] or
    [y1 < y0] is refused, as Pillow does from 9.5 on ([None]). *)
Definition rectangle (x0 y0 x1 y1 fill : Z) (m : image) : option image :=
  if ((x1 <? x0) || (y1 <? y0))%Z then None
  else
    Some (imap (fun y row =>
                  imap (fun x v =>
                          if ((x0 <=? Z.of_nat x) && (Z.of_nat x <=? x1)
                              && (y0 <=? Z.of_nat y) && (Z.of_nat y <=? y1))%Z
                          then fill else v) row) m).

(** [if cond: draw.rectangle(box, fill=255)]. *)
Definition rectangle_if (cond : bool) (x0 y0 x1 y1 : Z) (m : image)
    : option image :=
  if cond then rectangle x0 y0 x1 y1 255 m else Some m.

(** [create_rectangular_seam_mask(size, inset, thickness)].  [None]: a
    negative size, or a box Pillow refuses. *)
Definition create_rectangular_seam_mask (size : Z * Z) (inset thickness : Z)
    : option image :=
  let '(width, height) := size in
  if ((width <? 0) || (height <? 0))%Z then None
  else
    let inset := Z.max 0 inset in
    let thickness := Z.max 1 thickness in
    if ((width <=? inset) || (height <=? inset))%Z
    then Some (Image_new width height 0)
    else
      let mask := Image_new width height 0 in
      let top_y0 := inset in
      let top_y1 := Z.min (height - 1) (inset + thickness - 1) in
      mask ← rectangle_if (top_y0 <=? top_y1)%Z
                inset top_y0 (width - inset - 1) top_y1 mask;
      let bottom_y1 := (height - inset - 1)%Z in
      let bottom_y0 := Z.max 0 (bottom_y1 - thickness + 1) in
      mask ← rectangle_if (bottom_y0 <=? bottom_y1)%Z
                inset bottom_y0 (width - inset - 1) bottom_y1 mask;
      let left_x0 := inset in
      let left_x1 := Z.min (width - 1) (inset + thickness - 1) in
      let vertical_top := (top_y1 + 1)%Z in
      let vertical_bottom := (bottom_y0 - 1)%Z in
      mask ← rectangle_if
                ((left_x0 <=? left_x1) && (vertical_top <=? vertical_bottom))%Z
                left_x0 vertical_top left_x1 vertical_bottom mask;
      let right_x1 := (width - inset - 1)%Z in
      let right_x0 := Z.max 0 (right_x1 - thickness + 1) in
      rectangle_if
        ((right_x0 <=? right_x1) && (vertical_top <=? vertical_bottom))%Z
        right_x0 vertical_top right_x1 vertical_bottom mask.

(** The seam band of an image: the pixels of the rectangle [inset] away
    from every side that lie within [thickness] of its border. *)
Definition on_seam (width height inset thickness : Z) (x y : nat) : bool :=
  let xi := Z.of_nat x in
  let yi := Z.of_nat y in
  ((inset <=? xi) && (xi <=? width - inset - 1)
   && (inset <=? yi) && (yi <=? height - inset - 1)
   && ((xi <? inset + thickness) || (width - inset - thickness <=? xi)
       || (yi <? inset + thickness) || (height - inset - thickness <=? yi)))%Z.

(** Lines 325-335 of [prepare_design_layers]: the seam geometry that is
    used, from the one that is asked for. *)
Record seam := {
  seam_inset : Z;
  seam_thickness : Z;
  seam_strength : Z;
  seam_blur : Z
}.

Definition seam_geometry (target_w target_h : Z) (asked : seam) : seam :=
  let seam_inset := Z.max 0 (seam_inset asked) in
  let seam_thickness := Z.max 1 (seam_thickness asked) in
  let max_inset := Z.max 0 (Z.min target_w target_h / 2) in
  let seam_inset := Z.min seam_inset max_inset in
  let available := (Z.min target_w target_h - seam_inset * 2)%Z in
  let seam_thickness :=
    if (available <=? 0)%Z then 0%Z else Z.min seam_thickness available in
  {| seam_inset := seam_inset;
     seam_thickness := seam_thickness;
     seam_strength := Z.max 0 (Z.min (seam_strength asked) 255);
     seam_blur := Z.max 0 (seam_blur asked) |}.

(** The seam mask [prepare_design_layers] asks for (lines 338-341): none
    when the thickness or the strength left is 0. *)
Definition seam_mask_of (target_w target_h : Z) (asked : seam)
    : option (option image) :=
  let used := seam_geometry target_w target_h asked in
  if ((0 <? seam_thickness used) && (0 <? seam_strength used))%Z
  then Some (create_rectangular_seam_mask (target_w, target_h)
               (seam_inset used) (seam_thickness used))
  else None.

(** The point functions of the seam layer (lines 353-370), on a gray value
    [px] in 0..255; [//] is [Z.div]. *)
Definition midpoint : Z := 128.

Definition highlight_map (px : Z) : Z :=
  if (px <? midpoint)%Z then (255 * Z.max 0 (midpoint - px) / midpoint)%Z
  else 0%Z.

Definition shadow_map (px : Z) : Z :=
  if (midpoint <? px)%Z
  then (255 * Z.max 0 (px - midpoint) / (255 - midpoint))%Z
  else 0%Z.

Definition effective_strength (seam_strength : Z) : Z :=
  Z.max 0 (Z.min 255 (seam_strength * 1)).

Definition scale_alpha (seam_strength px : Z) : Z :=
  (px * effective_strength seam_strength / 255)%Z.

(** [mask.size] of a rectangular image. *)
Definition image_size (m : image) : Z * Z :=
  (Z.of_nat (List.length (default [] (head m))), Z.of_nat (List.length m)).

(** [distort_seam_mask]: the random generator is the sequence [random] of
    the values [random.random()] returns, with the number drawn so far. *)
Definition distort_pixel (frequency : R) (random : nat -> R) (mask : image)
    (y : nat) (acc : image * nat) (x : nat) : image * nat :=
  let '(distorted, drawn) := acc in
  match getpixel mask x y with
  | Some v =>
      if (0 <? v)%Z then
        if Rltb (random drawn) frequency then (distorted, S drawn)
        else (putpixel distorted x y v, S drawn)
      else (distorted, drawn)
  | None => (distorted, drawn)
  end.

Definition distort_row (frequency : R) (random : nat -> R) (mask : image)
    (width : Z) (acc : image * nat) (y : nat) : image * nat :=
  foldl (distort_pixel frequency random mask y) acc (seq 0 (Z.to_nat width)).

Definition distort_seam_mask (mask : image) (amount : Z) (frequency : R)
    (random : nat -> R) (drawn : nat) : image * nat :=
  if (amount <=? 0)%Z || Rleb frequency 0 then (mask, drawn)
  else
    let '(width, height) := image_size mask in
    foldl (distort_row frequency random mask width)
      (Image_new width height 0, drawn) (seq 0 (Z.to_nat height)).

(** The number of pixels of a mask that are not 0. *)
Definition opaque_count (m : image) : nat :=
  List.length (List.filter (fun v => (0 <? v)%Z) (concat m)).

(** The two masks of [apply_texture] (lines 253-272) at a texture value
    [p] in 0..255, the float products taken over the reals. *)
Definition amplification : R := 2.8%R.

Definition clamp_strength (strength : R) : R := Rmax 0 (Rmin strength 1).

Definition shadow_mask (strength : R) (p : Z) : Z :=
  py_int (Rmax 0 (Rmin 255
            (IZR (midpoint - p) * amplification * clamp_strength strength))).

Definition highlight_mask (strength : R) (p : Z) : Z :=
  py_int (Rmax 0 (Rmin 255
            (IZR (p - midpoint) * amplification * clamp_strength strength))).

(** Lines 58-71: the default texture is the first of the size classes, in
    this order, whose file is there and opens.  [probe path] is [None] for
    a missing file, [Some None] for one that does not open. *)
Definition texture_order : list string :=
  ["8x10"; "6x9"; "5x7"; "4x6"; "3x5"; "2x3"]%string.

Fixpoint first_texture {T : Type} (probe : string -> option (option T))
    (sizes : list string) : option T :=
  match sizes with
  | [] => None
  | size :: rest =>
      match probe (size ++ ".jpg")%string with
      | Some (Some img) => Some img
      | _ => first_texture probe rest
      end
  end.

Definition DEFAULT_TEXTURE {T : Type} (probe : string -> option (option T))
    : option T :=
  first_texture probe texture_order.

End Seam.

(** ** composite.py: the arithmetic on one pixel *)

Module Pixel.
Import PyReal.

(** The float32 arithmetic of these lines is carried out over the reals;
    [astype(np.uint8)] of a value in range is [py_int]. *)

(** [np.clip(x, 0, 255)]. *)
Definition clip (x : R) : R := Rmin (Rmax x 0) 255.

(** [apply_lighting] on one colour value [v] of a pixel with alpha
    [alpha], where the gray value of the shadow reference is [gray]. *)
Definition apply_lighting (v alpha gray : Z) (intensity : R) : Z :=
  if (0 <? alpha)%Z then
    let factor := (IZR gray / 255 * intensity + (1 - intensity))%R in
    py_int (clip (IZR v * factor))
  else v.

(** Lines 285-288 and 303-305: a layer value blended over a float value
    with the layer's alpha. *)
Definition blend (below : R) (layer alpha : Z) : R :=
  let a := (IZR alpha / 255)%R in
  (below * (1 - a) + IZR layer * a)%R.

(** One colour value of the file written: the rug over the scene, then the
    foreground, if any, over that, then [astype(np.uint8)]. *)
Definition composite (scene rug rug_alpha : Z) (fg : option (Z * Z)) : Z :=
  let result := blend (IZR scene) rug rug_alpha in
  let result :=
    match fg with
    | Some (fg_value, fg_alpha) => blend result fg_value fg_alpha
    | None => result
    end in
  py_int result.

End Pixel.

(** ** composite.py on arrays *)

Module Arrays.
Import PyReal.

(** numpy arrays as nested lists, rows first: a plane is [H x W], an image
    [H x W x C].  The entries of a uint8 array are integers, those of a
    float32 array reals (rounding is idealised, as everywhere in the
    geometry). *)
Abbreviation plane := (list (list Z)).
Abbreviation pixels := (list (list (list Z))).
Abbreviation fpixels := (list (list (list R))).

Inductive ndarray :=
| U8 (a : pixels)
| F32 (a : fpixels).

(** [a.astype(np.float32)]. *)
Definition astype_float32 (a : ndarray) : fpixels :=
  match a with
  | U8 a => map (map (map IZR)) a
  | F32 a => a
  end.

(** [a.astype(np.uint8)], on values within 0..255: the fraction is cut. *)
Definition astype_uint8 (a : ndarray) : pixels :=
  match a with
  | U8 a => a
  | F32 a => map (map (map py_int)) a
  end.

(** [a.shape[:2]]. *)
Definition shape_of {A : Type} (a : list (list A)) : Z * Z :=
  (Z.of_nat (List.length a), Z.of_nat (List.length (default [] (head a)))).

Definition shape (a : ndarray) : Z * Z :=
  match a with
  | U8 a => shape_of a
  | F32 a => shape_of a
  end.

(** [a[:, :, c]] and [np.dstack([rgb, alpha])]. *)
Definition channel (c : nat) (a : pixels) : plane :=
  map (map (fun px => default 0%Z (px !! c))) a.

Definition dstack (rgb : pixels) (alpha : plane) : pixels :=
  zip_with (zip_with (fun px a => px ++ [a])) rgb alpha.

(** [np.min] and [np.max] of a column of [poly]. *)
Definition amin (l : list Z) : Z :=
  match l with
  | [] => 0%Z
  | x :: rest => fold_left Z.min rest x
  end.

Definition amax (l : list Z) : Z :=
  match l with
  | [] => 0%Z
  | x :: rest => fold_left Z.max rest x
  end.

(** The routines of Pillow and OpenCV the pipeline calls, and the renderer
    of [render.py], which [skip_render] leaves out: each is a function of
    its arguments; the renderer alone takes and returns the state of the
    random generator. *)
Class Library := {
  file : Type;
  rng : Type;
  matrix : Type;
  (** [np.array(Image.open(f).convert("RGB"))] and the same for RGBA. *)
  read_rgb : file -> pixels;
  read_rgba : file -> pixels;
  (** [cv2.resize(a, (w, h), interpolation=cv2.INTER_LINEAR)]. *)
  cv_resize : pixels -> Z -> Z -> pixels;
  (** [rgba_to_numpy(render_rug_image(rug, target_w, target_h, texture_strength))]. *)
  renderer : pixels -> Z -> Z -> R -> rng -> pixels * rng;
  (** [cv2.getPerspectiveTransform(src_pts, dst_pts)]. *)
  get_perspective_transform : list (Z * Z) -> list (Z * Z) -> matrix;
  (** [cv2.warpPerspective(a, M, (w, h), flags=cv2.INTER_LINEAR, ...)] with
      [borderMode=cv2.BORDER_REPLICATE] on the colours and
      [cv2.BORDER_CONSTANT] with [borderValue=0] on the alpha plane. *)
  warp_replicate : pixels -> matrix -> Z -> Z -> pixels;
  warp_constant : plane -> matrix -> Z -> Z -> plane;
  (** [cv2.fillConvexPoly(np.zeros((rows, cols), np.uint8), poly, 255)]. *)
  fill_convex_poly : Z -> Z -> list (Z * Z) -> plane;
  (** [cv2.GaussianBlur(a, (ksize, ksize), 0)]. *)
  gaussian_blur : plane -> Z -> plane;
  (** [cv2.erode(a, cv2.getStructuringElement(cv2.MORPH_ELLIPSE, (3, 3)),
      iterations=1)]. *)
  erode : plane -> plane;
  (** [cv2.cvtColor(a, cv2.COLOR_RGB2GRAY)]. *)
  cvt_gray : pixels -> plane;
  (** [Image.fromarray(a).save(output_path)]: [None] when Pillow raises. *)
  write : pixels -> string -> option file
}.

(** Lines 272-278. *)
Definition warp_perspective `{Library} (rug_rgba : pixels)
    (corners : list (Z * Z)) (w h : Z) : pixels :=
  let '(rug_h, rug_w) := shape_of rug_rgba in
  let src_pts := [(0, 0); (rug_w, 0); (rug_w, rug_h); (0, rug_h)]%Z in
  let M := get_perspective_transform src_pts corners in
  let warped_rgb := warp_replicate (map (map (take 3)) rug_rgba) M w h in
  let warped_alpha := warp_constant (channel 3 rug_rgba) M w h in
  dstack warped_rgb warped_alpha.

(** Lines 98-99. *)
Definition top_color : list R := [255; 250; 230]%R.
Definition bottom_color : list R := [20; 20; 20]%R.

(** Lines 139-149: channel [c] of the gradient on the image row
    [global_y]. *)
Definition gradient (s : Composite.sample) (global_y : Z) (c : nat) : R :=
  let point_y := snd (Composite.point s) in
  let offset_y := snd (Composite.offset s) in
  let edge_progress :=
    if Rltb 0 offset_y
    then ((IZR global_y - point_y) / Rmax 0.1 offset_y)%R
    else 0%R in
  let lerp_factor := Rmin (Rmax edge_progress 0) 1 in
  (default 0 (top_color !! c) * (1 - lerp_factor)
   + default 0 (bottom_color !! c) * lerp_factor)%R.

(** Lines 151-163 on one pixel of the region, where the mask is [m]. *)
Definition paint_pixel (s : Composite.sample) (global_y m : Z) (px : list Z)
    : list Z :=
  let soft_mask := (IZR m / 255)%R in
  let rug_alpha_f := (IZR (default 0%Z (px !! 3%nat)) / 255)%R in
  let thickness_weight := (soft_mask * (1 - rug_alpha_f))%R in
  imap (fun c v =>
          if (c <? 3)%nat
          then py_int (IZR v * (1 - thickness_weight)
                       + gradient s global_y c * thickness_weight)
          else if (c =? 3)%nat
          then py_int (Rmax rug_alpha_f soft_mask * 255)
          else v) px.

(** Lines 124-163: the strip of one sample painted on the image. *)
Definition paint_strip `{Library} (result : pixels) (s : Composite.sample)
    : pixels :=
  let '(h, w) := shape_of result in
  let xs := map fst (Composite.poly s) in
  let ys := map snd (Composite.poly s) in
  let x_min := Z.max 0 (amin xs) in
  let x_max := Z.min (w - 1) (amax xs) in
  let y_min := Z.max 0 (amin ys) in
  let y_max := Z.min (h - 1) (amax ys) in
  if ((x_max <? x_min) || (y_max <? y_min))%Z then result
  else
    let mask_roi :=
      gaussian_blur
        (fill_convex_poly (y_max - y_min + 1) (x_max - x_min + 1)
           (map (fun p => (fst p - x_min, snd p - y_min)%Z) (Composite.poly s)))
        1 in
    imap (fun y row =>
            imap (fun x px =>
                    let xi := Z.of_nat x in
                    let yi := Z.of_nat y in
                    if ((x_min <=? xi) && (xi <=? x_max)
                        && (y_min <=? yi) && (yi <=? y_max))%Z
                    then
                      match Render.getpixel mask_roi (Z.to_nat (xi - x_min))
                              (Z.to_nat (yi - y_min)) with
                      | Some m => paint_pixel s yi m px
                      | None => px
                      end
                    else px) row) result.

(** [apply_lighting] (lines 168-176), on arrays of one shape. *)
Definition light_pixel (intensity : R) (px : list Z) (gray : Z) : list Z :=
  let alpha := default 0%Z (px !! 3%nat) in
  imap (fun c v =>
          if (c <? 3)%nat then Pixel.apply_lighting v alpha gray intensity
          else v) px.

Definition apply_lighting `{Library} (rug_rgba shadow_ref_rgb : pixels)
    (intensity : R) : pixels :=
  zip_with (zip_with (light_pixel intensity)) rug_rgba
    (cvt_gray shadow_ref_rgb).

(** Lines 187-196 of [gaussian_blur_edges]. *)
Definition blur_alpha `{Library} (rgba : pixels) (radius : Z) (erode_first : bool)
    : pixels :=
  let alpha := channel 3 rgba in
  let alpha := if erode_first then erode alpha else alpha in
  let alpha_f := gaussian_blur alpha (radius * 2 + 1) in
  zip_with (zip_with (fun px a => <[3%nat := a]> px)) rgba alpha_f.

(** Lines 285-288 and 303-305: the three colours of a layer blended over
    the float result with the layer's alpha. *)
Definition blend_pixel (below : list R) (layer : list Z) : list R :=
  let alpha := default 0%Z (layer !! 3%nat) in
  imap (fun c b =>
          if (c <? 3)%nat then Pixel.blend b (default 0%Z (layer !! c)) alpha
          else b) below.

Definition blend_over (result : fpixels) (layer : pixels) : fpixels :=
  zip_with (zip_with blend_pixel) result layer.

(** The steps of [composite.py] on arrays. *)
Definition numpy `{Library} : Composite.Imaging := {|
  Composite.ndarray := ndarray;
  Composite.file := file;
  Composite.rng := rng;
  Composite.open_rgb := fun f => U8 (read_rgb f);
  Composite.open_rgba := fun f => U8 (read_rgba f);
  Composite.shape := shape;
  Composite.resize := fun a w h => U8 (cv_resize (astype_uint8 a) w h);
  Composite.red_placeholder :=
    U8 (replicate 1000 (replicate 1000 [255; 0; 0; 255]%Z));
  Composite.render_rug_image := fun a w h texture_strength g =>
    let '(rendered, g') := renderer (astype_uint8 a) w h texture_strength g in
    (U8 rendered, g');
  Composite.warp_perspective := fun a corners w h =>
    U8 (warp_perspective (astype_uint8 a) corners w h);
  Composite.paint_strip := fun a s => U8 (paint_strip (astype_uint8 a) s);
  Composite.relight := fun a ref intensity =>
    U8 (apply_lighting (astype_uint8 a) (astype_uint8 ref) intensity);
  Composite.blur_alpha := fun a radius erode_first =>
    U8 (blur_alpha (astype_uint8 a) radius erode_first);
  Composite.blend_over := fun base layer =>
    F32 (blend_over (astype_float32 base) (astype_uint8 layer));
  Composite.save_image := fun a output_path =>
    write (astype_uint8 a) output_path
|}.

(** The steps a run with [skip_render] goes through, in order:
    perspective warp, edge-thickness synthesis, relighting, edge blur and
    alpha compositing, of the rug over the scene and of the foreground, if
    there is one, over both.  No generator goes in. *)
Definition skip_render_pipeline `{Library} (scene_rgb shadow_ref_rgb rug_rgba : pixels)
    (fg : option pixels) (corners : list (Z * Z)) (shadow_intensity : R)
    (rug_thickness : Z) : option fpixels :=
  let '(h, w) := shape_of scene_rgb in
  let fitted (a : pixels) : pixels :=
    let '(a_h, a_w) := shape_of a in
    if (negb (a_h =? h) || negb (a_w =? w))%Z then cv_resize a w h else a in
  let warped_rug := warp_perspective rug_rgba corners w h in
  match Composite.get_visible_edges corners with
  | None => None
  | Some visible_edges =>
      let thick :=
        foldl (fun img e =>
                 foldl paint_strip img
                   (Composite.edge_samples
                      (fst (shape_of warped_rug)) rug_thickness e))
          warped_rug visible_edges in
      let lit := apply_lighting thick (fitted shadow_ref_rgb) shadow_intensity in
      let rug := blur_alpha lit 1 true in
      let result := blend_over (map (map (map IZR)) scene_rgb) rug in
      Some match fg with
           | Some fg => blend_over result (blur_alpha (fitted fg) 2 false)
           | None => result
           end
  end.

End Arrays.

(** * Properties *)

(** ** make_white_floor: retries *)

Section WhiteFloorFacts.
Import WhiteFloor.

Variable svc : service.

Lemma timeouts_tail from k :
  timeouts svc from (S k) -> timeouts svc (S from) k.
Proof.
  intros H j Hj. destruct (H (S j)) as [msg Hmsg]; [lia|].
  exists msg. now replace (S from + j)%nat with (from + S j)%nat by lia.
Qed.

(** A run of [k] timeouts that are not on the last attempt: [k] calls, [k]
    sleeps of 1, 2, 4, ... seconds, and the loop goes on. *)
Lemma retry_loop_timeouts max_retries k : forall a rest st,
  timeouts svc (calls st) k ->
  (Z.of_nat (a + k) <= max_retries - 1)%Z ->
  retry_loop svc max_retries (map Z.of_nat (seq a k) ++ rest) st
  = retry_loop svc max_retries rest
      {| calls := calls st + k; sleeps := sleeps st ++ backoff a k |}.
Proof.
  induction k as [|k IH]; intros a rest st Ht Hle.
  - cbn. rewrite Nat.add_0_r, app_nil_r. now destruct st.
  - destruct (Ht 0%nat) as [msg [Hsvc Hto]]; [lia|].
    rewrite Nat.add_0_r in Hsvc.
    cbn [seq map app retry_loop]. unfold try_block. rewrite Hsvc, Hto.
    replace (Z.of_nat a <? max_retries - 1)%Z with true
      by (symmetry; apply Z.ltb_lt; lia).
    cbn [andb calls sleeps]. rewrite IH.
    + cbn [calls sleeps]. unfold backoff. cbn [seq map].
      rewrite <- app_assoc. cbn [app].
      now replace (S (calls st) + k)%nat with (calls st + S k)%nat by lia.
    + cbn [calls]. now apply timeouts_tail.
    + lia.
Qed.

(** From the last attempt on, whatever the service does, the loop returns;
    and it returns the marker text only if the service raised it. *)
Lemma retry_loop_returns max_retries k : forall a st,
  (1 <= k)%nat ->
  Z.of_nat (a + k) = max_retries ->
  exists r st',
    retry_loop svc max_retries (map Z.of_nat (seq a k)) st = (Some r, st')
    /\ (calls st < calls st')%nat
    /\ (r = Failure "Max retries exceeded" ->
        svc (calls st' - 1)%nat = Fails "Max retries exceeded").
Proof.
  induction k as [|k IH]; intros a st Hk Hmax; [lia|].
  cbn [seq map retry_loop]. unfold try_block.
  destruct (svc (calls st)) as [cs|msg] eqn:Hsvc.
  - destruct (read_response cs) as [r|e] eqn:Hread.
    + eexists _, _. split; [reflexivity|]. cbn [calls]. split; [lia|].
      intros ->. unfold read_response in Hread.
      destruct cs as [|c cs']; [discriminate|].
      destruct (content c); [|discriminate].
      destruct (first_image l); discriminate.
    + assert (He : e = "'NoneType' object has no attribute 'parts'"%string).
      { unfold read_response in Hread. destruct cs as [|c cs']; [discriminate|].
        destruct (content c); [destruct (first_image l); discriminate|].
        now inversion Hread. }
      subst e. cbn [is_timeout andb]. 
      replace (is_timeout "'NoneType' object has no attribute 'parts'") with false
        by reflexivity.
      cbn [andb]. eexists _, _. split; [reflexivity|]. cbn [calls].
      split; [lia|]. discriminate.
  - destruct (is_timeout msg && (Z.of_nat a <? max_retries - 1)%Z) eqn:Hretry.
    + apply andb_prop in Hretry as [_ Hlt]. apply Z.ltb_lt in Hlt.
      destruct (IH (S a) {| calls := S (calls st);
                            sleeps := sleeps st ++ [(2 ^ Z.of_nat a)%Z] |})
        as (r & st' & Hrun & Hcalls & Hmark); [lia|lia|].
      exists r, st'. cbn [calls sleeps] in *. split; [exact Hrun|].
      split; [lia|exact Hmark].
    + eexists _, _. split; [reflexivity|]. cbn [calls]. split; [lia|].
      intros Heq. inversion Heq; subst msg.
      now replace (S (calls st) - 1)%nat with (calls st) by lia.
Qed.

Lemma range_seq n : range n = map Z.of_nat (seq 0 (Z.to_nat n)).
Proof. reflexivity. Qed.

Lemma range_nonpos n : (n <= 0)%Z -> range n = [].
Proof. intros H. unfold range. now replace (Z.to_nat n) with 0%nat by lia. Qed.

End WhiteFloorFacts.

(** C4. With [max_retries = 3] and a service whose every call raises an
    error that reads as a timeout, [make_white_floor] calls the service
    exactly three times, sleeps 1 s and then 2 s, and returns the failure
    carrying the last message.  An error that does not read as a timeout,
    on whichever attempt it comes after timeouts only, is returned at once:
    no further call, no further sleep. *)
Theorem retry_ceiling (api_key : option string) (key : string)
    (svc : WhiteFloor.service) :
  WhiteFloor.get_client api_key = inl key ->
  (forall m0 m1 m2,
      svc 0%nat = WhiteFloor.Fails m0 -> WhiteFloor.is_timeout m0 = true ->
      svc 1%nat = WhiteFloor.Fails m1 -> WhiteFloor.is_timeout m1 = true ->
      svc 2%nat = WhiteFloor.Fails m2 -> WhiteFloor.is_timeout m2 = true ->
      WhiteFloor.make_white_floor api_key svc 3
      = (WhiteFloor.Returns (WhiteFloor.Failure m2),
         {| WhiteFloor.calls := 3; WhiteFloor.sleeps := [1; 2]%Z |}))
  /\ (forall max_retries k msg,
      (Z.of_nat k < max_retries)%Z ->
      WhiteFloor.timeouts svc 0 k ->
      svc k = WhiteFloor.Fails msg -> WhiteFloor.is_timeout msg = false ->
      WhiteFloor.make_white_floor api_key svc max_retries
      = (WhiteFloor.Returns (WhiteFloor.Failure msg),
         {| WhiteFloor.calls := S k;
            WhiteFloor.sleeps := WhiteFloor.backoff 0 k |})).
Proof.
  intros Hkey. unfold WhiteFloor.make_white_floor. rewrite Hkey. split.
  - intros m0 m1 m2 H0 T0 H1 T1 H2 T2.
    change (WhiteFloor.range 3) with ([0; 1; 2]%Z).
    cbn [WhiteFloor.retry_loop]. unfold WhiteFloor.try_block.
    cbn [WhiteFloor.calls WhiteFloor.sleeps WhiteFloor.initial].
    rewrite H0, T0. cbn [andb Z.ltb Z.sub Z.compare Z.add Z.opp Z.pos_sub
      Pos.pred_double WhiteFloor.calls WhiteFloor.sleeps].
    rewrite H1, T1. cbn [andb Z.ltb Z.sub Z.compare Z.add Z.opp Z.pos_sub
      Pos.pred_double Pos.compare Pos.compare_cont WhiteFloor.calls WhiteFloor.sleeps].
    rewrite H2, T2. reflexivity.
  - intros max_retries k msg Hk Ht Hsvc Hno.
    rewrite range_seq.
    replace (Z.to_nat max_retries) with (k + S (Z.to_nat max_retries - S k))%nat
      by lia.
    rewrite seq_app, map_app.
    rewrite retry_loop_timeouts; [|exact Ht|lia].
    cbn [seq map WhiteFloor.retry_loop WhiteFloor.initial Nat.add app
      WhiteFloor.calls WhiteFloor.sleeps].
    unfold WhiteFloor.try_block. cbn [WhiteFloor.calls WhiteFloor.sleeps].
    rewrite Hsvc, Hno. reflexivity.
Qed.

Lemma retry_ceiling_witness :
  WhiteFloor.make_white_floor (Some "key"%string)
    (fun _ => WhiteFloor.Fails "The read operation timed out") 3
  = (WhiteFloor.Returns (WhiteFloor.Failure "The read operation timed out"),
     {| WhiteFloor.calls := 3; WhiteFloor.sleeps := [1; 2]%Z |})
  /\ WhiteFloor.make_white_floor (Some "key"%string)
       (fun n => match n with
                 | 0%nat => WhiteFloor.Fails "Deadline exceeded: Timeout"
                 | _ => WhiteFloor.Fails "429 quota exhausted"
                 end) 3
     = (WhiteFloor.Returns (WhiteFloor.Failure "429 quota exhausted"),
        {| WhiteFloor.calls := 2; WhiteFloor.sleeps := [1]%Z |}).
Proof.
  split.
  - apply (proj1 (retry_ceiling (Some "key"%string) "key"
                    (fun _ => WhiteFloor.Fails "The read operation timed out")
                    eq_refl) _ _ _ eq_refl eq_refl eq_refl eq_refl eq_refl eq_refl).
  - apply (proj2 (retry_ceiling (Some "key"%string) "key" _ eq_refl)
             3%Z 1%nat "429 quota exhausted"%string).
    + lia.
    + intros j Hj. exists "Deadline exceeded: Timeout"%string.
      destruct j; [split; reflexivity|lia].
    + reflexivity.
    + reflexivity.
Defined.

(** C9, as the code has it.  With [max_retries >= 1] the loop always
    returns from inside: the statement after it is never reached, at least
    one call was made, and the result carries the text
    ["Max retries exceeded"] only when the last call made raised an error
    with exactly that text.  With [max_retries <= 0] the loop body never
    runs: no call, no sleep, and the statement after the loop returns the
    marker. *)
Theorem fall_through_only_without_attempts (api_key : option string)
    (key : string) (svc : WhiteFloor.service) (max_retries : Z) :
  WhiteFloor.get_client api_key = inl key ->
  ((1 <= max_retries)%Z ->
     exists r st,
       WhiteFloor.retry_loop svc max_retries (WhiteFloor.range max_retries)
         WhiteFloor.initial = (Some r, st)
       /\ WhiteFloor.make_white_floor api_key svc max_retries
          = (WhiteFloor.Returns r, st)
       /\ (1 <= WhiteFloor.calls st)%nat
       /\ (r = WhiteFloor.Failure "Max retries exceeded" ->
           svc (WhiteFloor.calls st - 1)%nat
           = WhiteFloor.Fails "Max retries exceeded"))
  /\ ((max_retries <= 0)%Z ->
       WhiteFloor.retry_loop svc max_retries (WhiteFloor.range max_retries)
         WhiteFloor.initial = (None, WhiteFloor.initial)
       /\ WhiteFloor.make_white_floor api_key svc max_retries
          = (WhiteFloor.Returns (WhiteFloor.Failure "Max retries exceeded"),
             WhiteFloor.initial)).
Proof.
  intros Hkey. unfold WhiteFloor.make_white_floor. rewrite Hkey. split.
  - intros Hpos.
    destruct (retry_loop_returns svc max_retries (Z.to_nat max_retries) 0%nat
                WhiteFloor.initial) as (r & st & Hrun & Hcalls & Hmark);
      [lia|lia|].
    exists r, st. rewrite range_seq, Hrun. repeat split; [lia|exact Hmark].
  - intros Hle. rewrite range_nonpos by exact Hle. split; reflexivity.
Qed.

Lemma fall_through_only_without_attempts_witness :
  (exists r st,
      WhiteFloor.make_white_floor (Some "key"%string)
        (fun _ => WhiteFloor.Fails "Connection timed out") 2
      = (WhiteFloor.Returns r, st) /\ (1 <= WhiteFloor.calls st)%nat)
  /\ WhiteFloor.make_white_floor (Some "key"%string)
       (fun _ => WhiteFloor.Fails "Connection timed out") 0
     = (WhiteFloor.Returns (WhiteFloor.Failure "Max retries exceeded"),
        WhiteFloor.initial).
Proof.
  split.
  - destruct (proj1 (fall_through_only_without_attempts (Some "key"%string) "key"
               (fun _ => WhiteFloor.Fails "Connection timed out") 2 eq_refl))
      as (r & st & _ & Hrun & Hcalls & _); [lia|].
    exists r, st. split; [exact Hrun|exact Hcalls].
  - apply (proj2 (fall_through_only_without_attempts (Some "key"%string) "key"
               (fun _ => WhiteFloor.Fails "Connection timed out") 0 eq_refl)).
    lia.
Defined.

(** C9 as stated fails: with [max_retries = 1], a service whose call raises
    an error whose text is ["Max retries exceeded"] (not a timeout) makes
    the function return exactly that failure. *)
Lemma marker_text_from_service :
  (1 <= 1)%Z
  /\ WhiteFloor.make_white_floor (Some "key"%string)
       (fun _ => WhiteFloor.Fails "Max retries exceeded") 1
     = (WhiteFloor.Returns (WhiteFloor.Failure "Max retries exceeded"),
        {| WhiteFloor.calls := 1; WhiteFloor.sleeps := [] |}).
Proof. split; [lia|reflexivity]. Qed.

(** ** remove_background: the directory batch *)

Section RemoveBackgroundFacts.
Import RemoveBackground.

Variable svc : remote.
Variable target_format : string.

Lemma path_exists_In d p : path_exists d p = true <-> In p (map fst d).
Proof.
  unfold path_exists. rewrite existsb_exists. split.
  - intros (q & Hq & Heq). apply String.eqb_eq in Heq. now subst.
  - intros Hin. exists p. split; [exact Hin|apply String.eqb_refl].
Qed.

Lemma write_bytes_keeps d name p :
  path_exists d p = true -> path_exists (write_bytes d name) p = true.
Proof.
  unfold write_bytes. destruct (path_exists d name); [auto|].
  rewrite !path_exists_In, map_app, in_app_iff. auto.
Qed.

Lemma image_files_exist d f : In f (image_files d) -> path_exists d f = true.
Proof.
  unfold image_files. rewrite in_map_iff. intros (e & <- & He).
  apply filter_In in He as [He _]. apply path_exists_In.
  now apply in_map.
Qed.

Lemma batch_spec files : forall st acc,
  (forall f, In f files -> path_exists (disk st) f = true) ->
  exists new,
    fst (batch svc target_format files st acc) = acc ++ new
    /\ batch_post svc target_format files st
         (snd (batch svc target_format files st acc)) new.
Proof.
  induction files as [|f rest IH]; intros st acc Hex.
  - exists []. cbn. rewrite app_nil_r. split; [reflexivity|].
    constructor; cbn; auto; try contradiction. now rewrite app_nil_r.
  - cbn [batch].
    destruct (path_exists (disk st) (out_file target_format f)) eqn:Hout.
    + destruct (IH st (acc ++ [{| file := f; outcome := Skipped |}]))
        as (new & Hres & Hpost); [intros; apply Hex; now right|].
      exists ({| file := f; outcome := Skipped |} :: new).
      rewrite Hres, <- app_assoc. split; [reflexivity|].
      destruct Hpost as [Hf Hs Hd Hu Hk He]. constructor; cbn.
      * now rewrite Hf.
      * exact Hs.
      * exact Hd.
      * intros Hall. apply Hu. now inversion Hall.
      * intros r [<-|Hr] Hp; [reflexivity|now apply Hk].
      * intros r msg [<-|Hr] Hm; [discriminate|now apply (He r)].
    + unfold remove_background. rewrite (Hex f (or_introl eq_refl)).
      cbn [negb]. 
      destruct (svc (List.length (sent st)) f) as [bytes|e] eqn:Hsvc.
      * set (st1 := {| disk := write_bytes (disk st) (out_file target_format f);
                       sent := sent st ++ [f] |}).
        destruct (IH st1 (acc ++ [{| file := f;
                    outcome := Succeeded (out_file target_format f) |}]))
          as (new & Hres & Hpost).
        { intros g Hg. cbn. apply write_bytes_keeps, Hex. now right. }
        exists ({| file := f; outcome := Succeeded (out_file target_format f) |}
                  :: new).
        cbn [disk sent] in *. fold st1. rewrite Hres, <- app_assoc.
        split; [reflexivity|].
        destruct Hpost as [Hf Hs Hd Hu Hk He]. constructor; cbn.
        -- now rewrite Hf.
        -- rewrite Hs. cbn. now rewrite <- app_assoc.
        -- intros p Hp. apply Hd. cbn. now apply write_bytes_keeps.
        -- intros Hall. inversion Hall; discriminate.
        -- intros r [<-|Hr] Hp; [cbn in Hp; congruence|].
           apply Hk; [exact Hr|]. cbn. now apply write_bytes_keeps.
        -- intros r msg [<-|Hr] Hm; [discriminate|now apply (He r)].
      * set (st1 := {| disk := disk st; sent := sent st ++ [f] |}).
        destruct (IH st1 (acc ++ [{| file := f;
                    outcome := Errored (error_text e) |}]))
          as (new & Hres & Hpost).
        { intros g Hg. cbn. apply Hex. now right. }
        exists ({| file := f; outcome := Errored (error_text e) |} :: new).
        fold st1. rewrite Hres, <- app_assoc. split; [reflexivity|].
        destruct Hpost as [Hf Hs Hd Hu Hk He]. constructor; cbn.
        -- now rewrite Hf.
        -- rewrite Hs. cbn. now rewrite <- app_assoc.
        -- intros p Hp. apply Hd. exact Hp.
        -- intros Hall. inversion Hall; discriminate.
        -- intros r [<-|Hr] Hp; [cbn in Hp; congruence|].
           apply Hk; [exact Hr|exact Hp].
        -- intros r msg [<-|Hr] Hm; [|now apply (He r)].
           cbn in Hm. injection Hm as <-. now exists (List.length (sent st)), e.
Qed.

Lemma path_exists_write d name p :
  path_exists (write_bytes d name) p = path_exists d p || String.eqb p name.
Proof.
  unfold write_bytes. destruct (path_exists d name) eqn:Hn.
  - destruct (String.eqb_spec p name) as [->|_];
      [now rewrite Hn|now rewrite orb_false_r].
  - unfold path_exists. rewrite map_app, existsb_app. cbn.
    now rewrite orb_false_r.
Qed.

(** What decides each record.  A file is skipped exactly when its output is
    on disk when its turn comes: it was there before the run, or an earlier
    file of the run wrote it.  Otherwise the file is sent, as the call whose
    number is the number of files sent before it, and the record is what
    that call did: [Succeeded] when it returns, [Errored] with the text of
    the exception when it raises. *)
Lemma batch_records files : forall st acc,
  (forall f, In f files -> path_exists (disk st) f = true) ->
  exists new,
    fst (batch svc target_format files st acc) = acc ++ new
    /\ forall i r, new !! i = Some r ->
         (outcome r = Skipped
          <-> path_exists (disk st) (out_file target_format (file r)) = true
              \/ exists j r', (j < i)%nat /\ new !! j = Some r'
                   /\ outcome r' = Succeeded (out_file target_format (file r)))
         /\ (outcome r <> Skipped ->
             match svc (List.length (sent st)
                        + List.length (List.filter called (take i new)))%nat
                     (file r) with
             | inl _ => outcome r = Succeeded (out_file target_format (file r))
             | inr e => outcome r = Errored (error_text e)
             end).
Proof.
  induction files as [|f rest IH]; intros st acc Hex.
  - exists []. cbn. rewrite app_nil_r. split; [reflexivity|].
    intros i r Hi. now destruct i.
  - cbn [batch].
    destruct (path_exists (disk st) (out_file target_format f)) eqn:Hout.
    + destruct (IH st (acc ++ [{| file := f; outcome := Skipped |}]))
        as (new & Hres & Hrec); [intros; apply Hex; now right|].
      exists ({| file := f; outcome := Skipped |} :: new).
      rewrite Hres, <- app_assoc. split; [reflexivity|].
      intros [|i] r Hi; cbn in Hi.
      * injection Hi as <-. cbn [file outcome]. split; [|congruence].
        split; [intros _; now left|reflexivity].
      * destruct (Hrec i r Hi) as [Hskip Hcall]. split.
        -- rewrite Hskip. split; (intros [Hp|(j & r' & Hj & Hr' & Ho)];
             [now left|right]).
           ++ exists (S j), r'. split; [lia|]. now split.
           ++ destruct j as [|j]; cbn in Hr'.
              ** injection Hr' as <-. discriminate.
              ** exists j, r'. split; [lia|]. now split.
        -- intros Hne. specialize (Hcall Hne). cbn [take List.filter called outcome].
           exact Hcall.
    + unfold remove_background. rewrite (Hex f (or_introl eq_refl)).
      cbn [negb].
      destruct (svc (List.length (sent st)) f) as [bytes|e] eqn:Hsvc.
      * set (st1 := {| disk := write_bytes (disk st) (out_file target_format f);
                       sent := sent st ++ [f] |}).
        destruct (IH st1 (acc ++ [{| file := f;
                    outcome := Succeeded (out_file target_format f) |}]))
          as (new & Hres & Hrec).
        { intros g Hg. cbn. apply write_bytes_keeps, Hex. now right. }
        exists ({| file := f; outcome := Succeeded (out_file target_format f) |}
                  :: new).
        cbn [disk sent] in *. fold st1. rewrite Hres, <- app_assoc.
        split; [reflexivity|].
        intros [|i] r Hi; cbn in Hi.
        -- injection Hi as <-. cbn [file outcome take List.filter List.length].
           rewrite Nat.add_0_r, Hsvc. split; [|reflexivity].
           split; [discriminate|].
           intros [Hp|(j & _ & Hj & _)]; [congruence|lia].
        -- destruct (Hrec i r Hi) as [Hskip Hcall]. split.
           ++ rewrite Hskip. cbn [st1 disk]. rewrite path_exists_write.
              split.
              ** intros [Hp|(j & r' & Hj & Hr' & Ho)].
                 --- apply orb_prop in Hp as [Hp|Hp]; [now left|right].
                     apply String.eqb_eq in Hp.
                     exists 0%nat, {| file := f;
                       outcome := Succeeded (out_file target_format f) |}.
                     split; [lia|]. split; [reflexivity|].
                     cbn [outcome]. now rewrite Hp.
                 --- right. exists (S j), r'. split; [lia|]. now split.
              ** intros [Hp|(j & r' & Hj & Hr' & Ho)].
                 --- left. now rewrite Hp.
                 --- destruct j as [|j]; cbn in Hr'.
                     +++ injection Hr' as <-. cbn [outcome] in Ho.
                         injection Ho as Ho. left. rewrite Ho.
                         rewrite String.eqb_refl. apply orb_true_r.
                     +++ right. exists j, r'. split; [lia|]. now split.
           ++ intros Hne. specialize (Hcall Hne).
              cbn [st1 sent] in Hcall. rewrite length_app in Hcall.
              cbn [List.length] in Hcall.
              cbn [take List.filter called outcome List.length].
              now replace (List.length (sent st)
                           + S (List.length (List.filter called (take i new))))%nat
                with (List.length (sent st) + 1
                      + List.length (List.filter called (take i new)))%nat by lia.
      * set (st1 := {| disk := disk st; sent := sent st ++ [f] |}).
        destruct (IH st1 (acc ++ [{| file := f;
                    outcome := Errored (error_text e) |}]))
          as (new & Hres & Hrec).
        { intros g Hg. cbn. apply Hex. now right. }
        exists ({| file := f; outcome := Errored (error_text e) |} :: new).
        fold st1. rewrite Hres, <- app_assoc. split; [reflexivity|].
        intros [|i] r Hi; cbn in Hi.
        -- injection Hi as <-. cbn [file outcome take List.filter List.length].
           rewrite Nat.add_0_r, Hsvc. split; [|reflexivity].
           split; [discriminate|].
           intros [Hp|(j & _ & Hj & _)]; [congruence|lia].
        -- destruct (Hrec i r Hi) as [Hskip Hcall]. split.
           ++ rewrite Hskip. cbn [st1 disk].
              split; (intros [Hp|(j & r' & Hj & Hr' & Ho)]; [now left|right]).
              ** exists (S j), r'. split; [lia|]. now split.
              ** destruct j as [|j]; cbn in Hr'.
                 --- injection Hr' as <-. discriminate.
                 --- exists j, r'. split; [lia|]. now split.
           ++ intros Hne. specialize (Hcall Hne).
              cbn [st1 sent] in Hcall. rewrite length_app in Hcall.
              cbn [List.length] in Hcall.
              cbn [take List.filter called outcome List.length].
              now replace (List.length (sent st)
                           + S (List.length (List.filter called (take i new))))%nat
                with (List.length (sent st) + 1
                      + List.length (List.filter called (take i new)))%nat by lia.
Qed.

End RemoveBackgroundFacts.

(** C5. [process_directory] gives every candidate file one record, in
    order, whatever the service does: an exception of one file becomes an
    error record with the text of that exception and the loop goes on.  The
    service is called once for each record that is not [Skipped] and for no
    other file.  A file whose derived output [<stem>_fg.<format>] is there
    is skipped and never sent; when that holds for every candidate, no call
    is made, every record is [Skipped] and the directory is as before.
    Each record is decided by what happens at its turn: it is [Skipped]
    exactly when the output was in the directory or an earlier file of the
    run has written it; otherwise the file is sent, as the call numbered
    by the files sent before it, and the record is [Succeeded] with the
    output name when that call returns and [Errored] with the text of the
    exception when it raises. *)
Theorem directory_batch (svc : RemoveBackground.remote)
    (d : RemoveBackground.directory) (format : option string) :
  let target_format := default "png"%string format in
  exists results st,
    RemoveBackground.process_directory svc (Some d) format = inl (results, st)
    /\ map RemoveBackground.file results = RemoveBackground.image_files d
    /\ RemoveBackground.sent st
       = map RemoveBackground.file
           (List.filter RemoveBackground.called results)
    /\ (forall r, In r results ->
          RemoveBackground.path_exists d
            (RemoveBackground.out_file target_format (RemoveBackground.file r))
          = true ->
          RemoveBackground.outcome r = RemoveBackground.Skipped
          /\ ~ In (RemoveBackground.file r) (RemoveBackground.sent st))
    /\ ((forall f, In f (RemoveBackground.image_files d) ->
           RemoveBackground.path_exists d
             (RemoveBackground.out_file target_format f) = true) ->
        RemoveBackground.sent st = []
        /\ Forall (fun r => RemoveBackground.outcome r = RemoveBackground.Skipped)
             results
        /\ RemoveBackground.disk st = d)
    /\ (forall r msg, In r results ->
          RemoveBackground.outcome r = RemoveBackground.Errored msg ->
          exists n e, svc n (RemoveBackground.file r) = inr e
                      /\ msg = RemoveBackground.error_text e)
    /\ (forall i r, results !! i = Some r ->
          let out :=
            RemoveBackground.out_file target_format (RemoveBackground.file r) in
          let call :=
            List.length (List.filter RemoveBackground.called (take i results)) in
          (RemoveBackground.outcome r = RemoveBackground.Skipped
           <-> RemoveBackground.path_exists d out = true
               \/ exists j r', (j < i)%nat /\ results !! j = Some r'
                    /\ RemoveBackground.outcome r'
                       = RemoveBackground.Succeeded out)
          /\ (RemoveBackground.outcome r <> RemoveBackground.Skipped ->
              match svc call (RemoveBackground.file r) with
              | inl _ =>
                  RemoveBackground.outcome r = RemoveBackground.Succeeded out
              | inr e =>
                  RemoveBackground.outcome r
                  = RemoveBackground.Errored (RemoveBackground.error_text e)
              end)).
Proof.
  intros target_format. unfold RemoveBackground.process_directory.
  fold target_format.
  set (st0 := {| RemoveBackground.disk := d; RemoveBackground.sent := [] |}).
  destruct (batch_spec svc target_format (RemoveBackground.image_files d) st0 [])
    as (new & Hres & [Hf Hs Hd Hu Hk He]).
  { intros f Hf. now apply image_files_exist. }
  destruct (batch_records svc target_format (RemoveBackground.image_files d)
              st0 []) as (new' & Hres' & Hrec).
  { intros f Hf'. now apply image_files_exist. }
  destruct (RemoveBackground.batch svc target_format
              (RemoveBackground.image_files d) st0 []) as [results st].
  cbn [fst snd app] in *. subst results. subst new'.
  cbn [RemoveBackground.sent st0] in Hs.
  rewrite app_nil_l in Hs.
  assert (Hskip : forall r, In r new ->
            RemoveBackground.path_exists d
              (RemoveBackground.out_file target_format (RemoveBackground.file r))
            = true ->
            RemoveBackground.outcome r = RemoveBackground.Skipped)
    by (intros r Hr Hp; now apply Hk).
  assert (Hcalled : (forall f, In f (RemoveBackground.image_files d) ->
            RemoveBackground.path_exists d
              (RemoveBackground.out_file target_format f) = true) ->
            Forall (fun r => RemoveBackground.outcome r = RemoveBackground.Skipped)
              new).
  { intros Hall. apply List.Forall_forall. intros r Hr.
    apply Hskip; [exact Hr|]. apply Hall. rewrite <- Hf. now apply in_map. }
  exists new, st.
  split; [reflexivity|]. split; [exact Hf|]. split; [exact Hs|].
  split; [|split; [|split]].
  - intros r Hr Hp. split; [now apply Hskip|].
    rewrite Hs, in_map_iff. intros (r' & Hfile & Hin').
    apply filter_In in Hin' as [Hin' Hc].
    unfold RemoveBackground.called in Hc.
    rewrite (Hskip r') in Hc; [discriminate|exact Hin'|now rewrite Hfile].
  - intros Hall. specialize (Hcalled Hall). split; [|split].
    + rewrite Hs. clear -Hcalled.
      induction Hcalled as [|r new Hr _ IH]; [reflexivity|].
      cbn. unfold RemoveBackground.called at 1. now rewrite Hr.
    + exact Hcalled.
    + now rewrite (Hu Hcalled).
  - exact He.
  - intros i r Hi. cbv zeta. exact (Hrec i r Hi).
Qed.

(** ** overlay_images: the aspect-ratio gate *)

(** C8. When no division raises, [check_aspect_ratio] answers whether
    [abs(ratio1 - ratio2) / ratio1 <= tolerance] in binary64 arithmetic,
    with [ratio = width / height]; for sizes 100x100 and 100x101 with
    tolerance 0.01 the answer is true, for 100x100 and 100x110 false. *)
Theorem aspect_ratio_gate (img1 img2 : Overlay.image) (tolerance : float) :
  Overlay.height img1 <> 0%Z ->
  Overlay.height img2 <> 0%Z ->
  PrimFloat.eqb (Overlay.ratio img1) PrimFloat.zero = false ->
  Overlay.check_aspect_ratio img1 img2 tolerance
  = Some (PrimFloat.leb
            (PrimFloat.div
               (PrimFloat.abs (PrimFloat.sub (Overlay.ratio img1) (Overlay.ratio img2)))
               (Overlay.ratio img1))
            tolerance)
  /\ Overlay.check_aspect_ratio
       {| Overlay.width := 100; Overlay.height := 100 |}
       {| Overlay.width := 100; Overlay.height := 101 |}
       Overlay.tolerance_default = Some true
  /\ Overlay.check_aspect_ratio
       {| Overlay.width := 100; Overlay.height := 100 |}
       {| Overlay.width := 100; Overlay.height := 110 |}
       Overlay.tolerance_default = Some false.
Proof.
  intros H1 H2 Hr. split; [|split; vm_compute; reflexivity].
  unfold Overlay.check_aspect_ratio, Overlay.true_div, Overlay.float_div.
  apply Z.eqb_neq in H1, H2. rewrite H1, H2. cbn [mbind option_bind].
  fold (Overlay.ratio img1). fold (Overlay.ratio img2). now rewrite Hr.
Qed.

Lemma aspect_ratio_gate_witness :
  Overlay.check_aspect_ratio
    {| Overlay.width := 1920; Overlay.height := 1080 |}
    {| Overlay.width := 1280; Overlay.height := 720 |}
    Overlay.tolerance_default = Some true.
Proof.
  refine (eq_trans
    (proj1 (aspect_ratio_gate
              {| Overlay.width := 1920; Overlay.height := 1080 |}
              {| Overlay.width := 1280; Overlay.height := 720 |}
              Overlay.tolerance_default _ _ _)) _).
  - cbn. lia.
  - cbn. lia.
  - vm_compute. reflexivity.
  - vm_compute. reflexivity.
Defined.

(** ** render: the edge mask *)

Section RenderFacts.
Import Render.
Context `{Rasteriser}.

Lemma getpixel_Image_new w h c x y :
  (x < Z.to_nat w)%nat -> (y < Z.to_nat h)%nat ->
  getpixel (Image_new w h c) x y = Some c.
Proof.
  intros Hx Hy. unfold getpixel, Image_new.
  rewrite lookup_replicate_2 by exact Hy. cbn.
  now apply lookup_replicate_2.
Qed.

Lemma getpixel_rounded_rectangle w h r fill m x y :
  getpixel (rounded_rectangle w h r fill m) x y
  = (fun v => if rounded_rectangle_covers w h r x y then fill else v)
      <$> getpixel m x y.
Proof.
  unfold getpixel, rounded_rectangle. rewrite list_lookup_imap.
  destruct (m !! y) as [row|]; cbn; [|reflexivity].
  now rewrite list_lookup_imap.
Qed.

Lemma clean_mask_binary w h r :
  Forall (Forall binary) (rounded_rectangle w h r 255 (Image_new w h 0)).
Proof.
  apply Forall_lookup. intros y row Hrow. apply Forall_lookup. intros x v Hv.
  assert (Hpx : getpixel (rounded_rectangle w h r 255 (Image_new w h 0)) x y
                = Some v) by (unfold getpixel; rewrite Hrow; exact Hv).
  rewrite getpixel_rounded_rectangle in Hpx.
  unfold getpixel, Image_new in Hpx.
  destruct (replicate (Z.to_nat h) (replicate (Z.to_nat w) 0%Z) !! y)
    as [row0|] eqn:Hrow0; cbn in Hpx; [|discriminate].
  apply lookup_replicate in Hrow0 as [-> _].
  destruct (replicate (Z.to_nat w) 0%Z !! x) as [v0|] eqn:Hv0;
    cbn in Hpx; [|discriminate].
  apply lookup_replicate in Hv0 as [-> _].
  injection Hpx as <-.
  destruct (rounded_rectangle_covers w h r x y); [now right|now left].
Qed.

Lemma eroded_refl (m : image) : Forall2 (Forall2 eroded) m m.
Proof.
  apply Forall_Forall2_diag, Forall_forall. intros row _.
  apply Forall_Forall2_diag, Forall_forall. intros v _. now left.
Qed.

Lemma eroded_insert row row0 x :
  Forall2 eroded row row0 -> Forall2 eroded (<[x := 0%Z]> row) row0.
Proof.
  intros Hrow. revert x.
  induction Hrow as [|v c row row0 Hv Hrow IH]; intros [|x]; cbn.
  - constructor.
  - constructor.
  - constructor; [now right|exact Hrow].
  - constructor; [exact Hv|apply IH].
Qed.

Lemma putpixel_eroded m m0 x y :
  Forall2 (Forall2 eroded) m m0 ->
  Forall2 (Forall2 eroded) (putpixel m x y 0) m0.
Proof.
  intros Hm. unfold putpixel. apply Forall2_alter_l; [exact Hm|].
  intros row row0 _ _ Hrow. now apply eroded_insert.
Qed.

Section Pass.
Variables (width height corner_radius max_jitter : Z) (jitter_density : R).
Variable noise : nat -> nat -> Z.
Variable m0 : image.

Lemma jitter_pixel_eroded y m x :
  Forall2 (Forall2 eroded) m m0 ->
  Forall2 (Forall2 eroded)
    (jitter_pixel width height corner_radius max_jitter jitter_density noise y m x)
    m0.
Proof.
  intros Hm. unfold jitter_pixel.
  destruct (getpixel m x y) as [v|]; [|exact Hm].
  destruct (v =? 0)%Z; [exact Hm|].
  destruct (erodes _ _ _ _); [now apply putpixel_eroded|exact Hm].
Qed.

Lemma jitter_row_eroded m y :
  Forall2 (Forall2 eroded) m m0 ->
  Forall2 (Forall2 eroded)
    (jitter_row width height corner_radius max_jitter jitter_density noise m y)
    m0.
Proof.
  unfold jitter_row. generalize (seq 0 (Z.to_nat width)) as xs.
  intros xs. revert m. induction xs as [|x xs IH]; intros m Hm; cbn.
  - exact Hm.
  - apply IH. now apply jitter_pixel_eroded.
Qed.

Lemma jitter_pass_eroded m :
  Forall2 (Forall2 eroded) m m0 ->
  Forall2 (Forall2 eroded)
    (jitter_pass width height corner_radius max_jitter jitter_density noise m)
    m0.
Proof.
  unfold jitter_pass. generalize (seq 0 (Z.to_nat height)) as ys.
  intros ys. revert m. induction ys as [|y ys IH]; intros m Hm; cbn.
  - exact Hm.
  - apply IH. now apply jitter_row_eroded.
Qed.

End Pass.

Lemma Forall2_with_right {A B} (P : A -> B -> Prop) (Q : B -> Prop)
    (R' : A -> B -> Prop) l k :
  (forall x y, P x y -> Q y -> R' x y) ->
  Forall2 P l k -> Forall Q k -> Forall2 R' l k.
Proof.
  intros HR HP. induction HP as [|x y l k Hxy HP IH]; intros HQ.
  - constructor.
  - inversion HQ; subst. constructor; auto.
Qed.

Lemma eroded_binary_below (m clean : image) :
  Forall2 (Forall2 eroded) m clean ->
  Forall (Forall binary) clean ->
  Forall2 (Forall2 below_clean) m clean.
Proof.
  apply Forall2_with_right. intros row row0 Hrow Hbin.
  revert Hrow Hbin. apply Forall2_with_right.
  intros v c [-> | ->] [-> | ->]; unfold below_clean, binary, eroded; lia.
Qed.

Lemma opaque_binary w h : Forall (Forall binary) (Image_new w h 255).
Proof.
  unfold Image_new. apply Forall_replicate, Forall_replicate. now right.
Qed.

End RenderFacts.

(** C10. Whatever the size, radius, jitter depth, density and noise, the
    mask of [create_edge_mask] has the shape of the clean mask (same size,
    same radius, jitter 0), and each of its pixels is at most the clean
    pixel, is 0 or 255, and is the clean pixel or 0.  (Both calls are
    refused together when the size is negative.) *)
Theorem jitter_never_adds_opacity `{Render.Rasteriser} (size : Z * Z)
    (radius jitter : Z) (jitter_density : R) (noise noise' : nat -> nat -> Z) :
  match Render.create_edge_mask size radius jitter jitter_density noise,
        Render.create_edge_mask size radius 0 jitter_density noise' with
  | Some m, Some clean => Forall2 (Forall2 Render.below_clean) m clean
  | None, None => True
  | _, _ => False
  end.
Proof.
  destruct size as [w h]. unfold Render.create_edge_mask.
  destruct ((w <? 0) || (h <? 0))%Z; [exact I|].
  destruct (Render.clamp_radius w h radius =? 0)%Z.
  { apply eroded_binary_below; [apply eroded_refl|apply opaque_binary]. }
  change (Z.max 0 0 =? 0)%Z with true. cbv iota.
  set (mask := Render.rounded_rectangle w h (Render.clamp_radius w h radius) 255
                 (Render.Image_new w h 0)).
  assert (Hsame : Forall2 (Forall2 Render.below_clean) mask mask)
    by (apply eroded_binary_below; [apply eroded_refl|apply clean_mask_binary]).
  destruct (Z.max 0 jitter =? 0)%Z; [exact Hsame|].
  destruct (PyReal.Reqb _ _); [exact Hsame|].
  destruct (_ <=? 0)%Z; [exact Hsame|].
  apply eroded_binary_below; [|apply clean_mask_binary].
  apply jitter_pass_eroded, eroded_refl.
Qed.

(** The two cases of [create_edge_mask] without jitter. *)
Lemma edge_mask_cases `{Render.Rasteriser} (w h radius jitter : Z)
    (jitter_density : R) (noise : nat -> nat -> Z) :
  (0 <= w)%Z -> (0 <= h)%Z ->
  let r := Render.clamp_radius w h radius in
  (r = 0%Z <-> (radius <= 0 \/ w < 2 \/ h < 2)%Z)
  /\ (r = 0%Z ->
      Render.create_edge_mask (w, h) radius jitter jitter_density noise
      = Some (Render.Image_new w h 255)
      /\ forall x y, (x < Z.to_nat w)%nat -> (y < Z.to_nat h)%nat ->
           Render.getpixel (Render.Image_new w h 255) x y = Some 255%Z)
  /\ ((0 < r)%Z -> (jitter <= 0)%Z \/ (jitter_density <= 0)%R ->
      Render.create_edge_mask (w, h) radius jitter jitter_density noise
      = Some (Render.rounded_rectangle w h r 255 (Render.Image_new w h 0))
      /\ forall x y, (x < Z.to_nat w)%nat -> (y < Z.to_nat h)%nat ->
           Render.getpixel
             (Render.rounded_rectangle w h r 255 (Render.Image_new w h 0)) x y
           = Some (if Render.rounded_rectangle_covers w h r x y
                   then 255%Z else 0%Z)).
Proof.
  intros Hw Hh r.
  assert (Hsize : ((w <? 0) || (h <? 0))%Z = false).
  { apply orb_false_intro; apply Z.ltb_ge; assumption. }
  split; [|split].
  - subst r. unfold Render.clamp_radius.
    assert (Hdiv : (Z.min w h / 2 <= 0 <-> Z.min w h < 2)%Z).
    { split; intros Hm.
      - destruct (Z.lt_ge_cases (Z.min w h) 2) as [Hlt|Hge]; [exact Hlt|].
        assert (1 <= Z.min w h / 2)%Z by (apply Z.div_le_lower_bound; lia). lia.
      - rewrite Z.div_small by lia. lia. }
    lia.
  - intros Hr. split.
    + unfold Render.create_edge_mask. rewrite Hsize. fold r. now rewrite Hr.
    + intros x y Hx Hy. now apply getpixel_Image_new.
  - intros Hr Hflat. split.
    + unfold Render.create_edge_mask. rewrite Hsize. fold r.
      replace (r =? 0)%Z with false by (symmetry; apply Z.eqb_neq; lia).
      destruct Hflat as [Hj|Hd].
      * now replace (Z.max 0 jitter =? 0)%Z with true
          by (symmetry; apply Z.eqb_eq; lia).
      * destruct (Z.max 0 jitter =? 0)%Z; [reflexivity|].
        replace (Rmax 0 (Rmin 1 jitter_density)) with 0%R.
        { unfold PyReal.Reqb. now destruct (Req_dec_T 0 0). }
        rewrite Rmin_right by lra. now rewrite Rmax_left by lra.
    + intros x y Hx Hy. rewrite getpixel_rounded_rectangle.
      now rewrite getpixel_Image_new.
Qed.


(** The demonstration rasteriser rounds the corners. *)
Lemma disc_rounds_corners : @Render.rounds_corners Render.disc_rasteriser.
Proof.
  intros w h r Hw Hh Hr Hfit. cbv zeta.
  unfold Render.rounded_rectangle_covers, Render.disc_rasteriser.
  rewrite !Z2Nat.id by (try apply Z.div_pos; lia).
  change (Z.of_nat 0) with 0%Z.
  assert (Hq : (2 * (w / 2) <= w < 2 * (w / 2) + 2)%Z)
    by (pose proof (Z.div_mod w 2 ltac:(lia));
        pose proof (Z.mod_pos_bound w 2 ltac:(lia)); lia).
  assert (Hp : (2 * (h / 2) <= h < 2 * (h / 2) + 2)%Z)
    by (pose proof (Z.div_mod h 2 ltac:(lia));
        pose proof (Z.mod_pos_bound h 2 ltac:(lia)); lia).
  assert (Hcorner : forall xs ys, xs = 0%Z -> ys = 0%Z ->
            (if ((xs <? r) && (ys <? r))%Z
             then ((r - xs) * (r - xs) + (r - ys) * (r - ys) <=? r * r)%Z
             else true) = false).
  { intros xs ys -> ->. replace (0 <? r)%Z with true
      by (symmetry; apply Z.ltb_lt; lia).
    cbn [andb]. apply Z.leb_gt. nia. }
  repeat split; try (apply Hcorner; lia).
  remember (w / 2)%Z as qw. remember (h / 2)%Z as qh.
  destruct (Z.ltb_spec (Z.min qw (w - 1 - qw)) r) as [Hx|Hx]; [|reflexivity].
  destruct (Z.ltb_spec (Z.min qh (h - 1 - qh)) r) as [Hy|Hy]; [|reflexivity].
  cbn [andb]. apply Z.leb_le.
  assert (Z.min qw (w - 1 - qw) = r - 1)%Z by lia.
  assert (Z.min qh (h - 1 - qh) = r - 1)%Z by lia.
  assert (2 <= r)%Z by lia. nia.
Qed.

(** C7, as the code has it.  The radius is first cut to half the shorter
    side; it is cut to 0 exactly when it is not positive or a side is
    shorter than 2, and then the mask is all 255.  When the cut radius is
    positive and the jitter or its density is not positive, the mask is the
    drawing of the rounded rectangle with the cut radius on a canvas of
    zeros, untouched by the jitter pass: a pixel is 255 where the shape
    covers it and 0 elsewhere.  So for a positive radius on a canvas at
    least 3 wide and 3 high, where Pillow's rounded rectangle leaves the
    corner pixels out and covers the centre, the four corner pixels of the
    mask are 0 and its centre pixel is 255.  (On a canvas 2 wide and 2
    high the centre pixel is a corner pixel: it cannot be both.) *)
Theorem edge_mask_rounding `{Render.Rasteriser} (w h radius jitter : Z)
    (jitter_density : R) (noise : nat -> nat -> Z) :
  (0 <= w)%Z -> (0 <= h)%Z ->
  let r := Render.clamp_radius w h radius in
  (r = 0%Z <-> (radius <= 0 \/ w < 2 \/ h < 2)%Z)
  /\ (r = 0%Z ->
      Render.create_edge_mask (w, h) radius jitter jitter_density noise
      = Some (Render.Image_new w h 255)
      /\ forall x y, (x < Z.to_nat w)%nat -> (y < Z.to_nat h)%nat ->
           Render.getpixel (Render.Image_new w h 255) x y = Some 255%Z)
  /\ ((0 < r)%Z -> (jitter <= 0)%Z \/ (jitter_density <= 0)%R ->
      Render.create_edge_mask (w, h) radius jitter jitter_density noise
      = Some (Render.rounded_rectangle w h r 255 (Render.Image_new w h 0))
      /\ forall x y, (x < Z.to_nat w)%nat -> (y < Z.to_nat h)%nat ->
           Render.getpixel
             (Render.rounded_rectangle w h r 255 (Render.Image_new w h 0)) x y
           = Some (if Render.rounded_rectangle_covers w h r x y
                   then 255%Z else 0%Z))
  /\ (Render.rounds_corners ->
      (3 <= w)%Z -> (3 <= h)%Z -> (0 < radius)%Z ->
      (jitter <= 0)%Z \/ (jitter_density <= 0)%R ->
      exists mask,
        Render.create_edge_mask (w, h) radius jitter jitter_density noise
        = Some mask
        /\ Render.getpixel mask 0 0 = Some 0%Z
        /\ Render.getpixel mask (Z.to_nat (w - 1)) 0 = Some 0%Z
        /\ Render.getpixel mask (Z.to_nat (w - 1)) (Z.to_nat (h - 1))
           = Some 0%Z
        /\ Render.getpixel mask 0 (Z.to_nat (h - 1)) = Some 0%Z
        /\ Render.getpixel mask (Z.to_nat (w / 2)) (Z.to_nat (h / 2))
           = Some 255%Z)
  /\ (w = 2%Z -> h = 2%Z ->
      (Z.to_nat (w / 2), Z.to_nat (h / 2))
      = (Z.to_nat (w - 1), Z.to_nat (h - 1))
      /\ forall mask,
           ~ (Render.getpixel mask (Z.to_nat (w - 1)) (Z.to_nat (h - 1))
              = Some 0%Z
              /\ Render.getpixel mask (Z.to_nat (w / 2)) (Z.to_nat (h / 2))
                 = Some 255%Z)).
Proof.
  intros Hw Hh r.
  destruct (edge_mask_cases w h radius jitter jitter_density noise Hw Hh)
    as (Hcut & Hzero & Hclean).
  fold r in Hcut, Hzero, Hclean.
  split; [exact Hcut|]. split; [exact Hzero|]. split; [exact Hclean|].
  split.
  - intros Hround Hw3 Hh3 Hradius Hflat.
    assert (Hr : (1 <= r)%Z /\ (2 * r <= Z.min w h)%Z).
    { subst r. unfold Render.clamp_radius.
      assert (1 <= Z.min w h / 2)%Z by (apply Z.div_le_lower_bound; lia).
      pose proof (Z.mul_div_le (Z.min w h) 2 ltac:(lia)). lia. }
    destruct Hr as [Hr1 Hr2].
    destruct (Hclean ltac:(lia) Hflat) as [Hmask Hpix].
    destruct (Hround w h r Hw3 Hh3 Hr1 Hr2) as (C1 & C2 & C3 & C4 & C5).
    eexists. split; [exact Hmask|].
    assert (Hdw : (0 <= w / 2 < w)%Z)
      by (split; [apply Z.div_pos; lia|apply Z.div_lt_upper_bound; lia]).
    assert (Hdh : (0 <= h / 2 < h)%Z)
      by (split; [apply Z.div_pos; lia|apply Z.div_lt_upper_bound; lia]).
    repeat split; (rewrite Hpix by lia);
      [now rewrite C1|now rewrite C2|now rewrite C3|now rewrite C4
      |now rewrite C5].
  - intros -> ->. split; [reflexivity|].
    intros mask [H0 H255]. change (Z.to_nat (2 / 2)) with (Z.to_nat (2 - 1)) in H255.
    rewrite H0 in H255. discriminate.
Qed.

Lemma edge_mask_rounding_witness :
  (@Render.create_edge_mask Render.disc_rasteriser (5, 4)%Z 1 0 (4 / 10)%R
     (fun _ _ => 0%Z)
   = Some (@Render.rounded_rectangle Render.disc_rasteriser 5 4 1 255
             (Render.Image_new 5 4 0))
   /\ (forall x y, (x < 5)%nat -> (y < 4)%nat ->
        Render.getpixel
          (@Render.rounded_rectangle Render.disc_rasteriser 5 4 1 255
             (Render.Image_new 5 4 0)) x y
        = Some (if Render.disc_rasteriser 5%Z 4%Z 1%Z x y then 255%Z else 0%Z)))
  /\ exists mask,
       @Render.create_edge_mask Render.disc_rasteriser (5, 4)%Z 1 0 (4 / 10)%R
         (fun _ _ => 0%Z) = Some mask
       /\ Render.getpixel mask 0 0 = Some 0%Z
       /\ Render.getpixel mask 4 0 = Some 0%Z
       /\ Render.getpixel mask 4 3 = Some 0%Z
       /\ Render.getpixel mask 0 3 = Some 0%Z
       /\ Render.getpixel mask 2 2 = Some 255%Z.
Proof.
  pose proof (@edge_mask_rounding Render.disc_rasteriser 5 4 1 0
                (4 / 10)%R (fun _ _ => 0%Z) ltac:(lia) ltac:(lia))
    as (_ & _ & Hclean & Hcorners & _).
  split.
  - apply Hclean; [vm_compute; reflexivity|left; lia].
  - apply (Hcorners disc_rounds_corners); [lia|lia|lia|left; lia].
Defined.

(** C7 as stated fails where the radius is cut to 0: for a canvas 5 pixels
    wide and 1 high, radius 2 and no jitter, the mask is all 255, corner
    pixels included. *)
Lemma corner_opaque_when_radius_is_cut :
  (0 < 2)%Z
  /\ @Render.create_edge_mask Render.disc_rasteriser (5, 1)%Z 2 0 0%R
       (fun _ _ => 0%Z)
     = Some [[255; 255; 255; 255; 255]%Z]
  /\ Render.getpixel [[255; 255; 255; 255; 255]%Z] 0 0 = Some 255%Z
  /\ Render.getpixel [[255; 255; 255; 255; 255]%Z] 4 0 = Some 255%Z.
Proof. repeat split; vm_compute; reflexivity. Qed.

(** ** composite: visible edges *)

Section VisibleEdges.
Import PyReal Composite.
Local Open Scope R_scope.

Lemma Rltb_true a b : a < b -> Rltb a b = true.
Proof. intros Hlt. unfold Rltb. now destruct (Rlt_dec a b). Qed.

Lemma Rltb_false a b : b <= a -> Rltb a b = false.
Proof. intros Hle. unfold Rltb. destruct (Rlt_dec a b); [lra|reflexivity]. Qed.

Lemma Rleb_true a b : a <= b -> Rleb a b = true.
Proof. intros Hle. unfold Rleb. now destruct (Rle_dec a b). Qed.

Lemma sum_squares_nonneg x y : 0 <= x * x + y * y.
Proof. nra. Qed.

Lemma norm_nonneg a : 0 <= norm a.
Proof. apply sqrt_pos. Qed.

Lemma norm_sqr a : norm a * norm a = fst a * fst a + snd a * snd a.
Proof. unfold norm. apply sqrt_sqrt, sum_squares_nonneg. Qed.

Lemma norm_zero_iff a : norm a = 0 <-> a = (0, 0).
Proof.
  split.
  - intros Hn. pose proof (norm_sqr a) as Hs. rewrite Hn in Hs.
    destruct a as [x y]. cbn [fst snd] in Hs.
    assert (x = 0) by nra. assert (y = 0) by nra. now subst.
  - intros ->. unfold norm. cbn [fst snd].
    replace (0 * 0 + 0 * 0) with 0 by ring. apply sqrt_0.
Qed.

Lemma norm_unit a : 0 < norm a -> norm (vdiv a (norm a)) = 1.
Proof.
  intros Hpos. pose proof (norm_sqr a) as Hs.
  set (k := norm a) in *. unfold norm, vdiv. cbn [fst snd].
  apply sqrt_lem_1; [apply sum_squares_nonneg|lra|].
  replace (fst a / k * (fst a / k) + snd a / k * (snd a / k))
    with ((fst a * fst a + snd a * snd a) / (k * k)) by (field; lra).
  rewrite <- Hs. field. lra.
Qed.

Lemma norm_perp v : norm (snd v, - fst v) = norm v.
Proof. unfold norm. cbn [fst snd]. f_equal. ring. Qed.

Lemma norm_perp' v : norm (- snd v, fst v) = norm v.
Proof. unfold norm. cbn [fst snd]. f_equal. ring. Qed.

(** What [describe_edge] gives for an edge: endpoints that differ, a unit
    outward normal perpendicular to the edge and not pointing to the
    centroid, and the visibility read off its second component. *)
Lemma describe_edge_spec c nm s e d :
  describe_edge c nm s e = Some d ->
  name d = nm /\ start d = s /\ end_ d = e /\ s <> e
  /\ visibility d = Rmax 0 (snd (outward d))
  /\ norm (outward d) = 1
  /\ dot (outward d) (vsub e s) = 0
  /\ dot (outward d) (vsub c (vdiv (vadd s e) 2)) <= 0.
Proof.
  unfold describe_edge. remember (vsub e s) as v eqn:Hv.
  remember (vsub c (vdiv (vadd s e) 2)) as tc eqn:Htc.
  destruct (Rleb (norm v) 0) eqn:Hlen; [discriminate|].
  assert (Hpos : 0 < norm v).
  { unfold Rleb in Hlen. destruct (Rle_dec (norm v) 0); [discriminate|lra]. }
  intros Hd. injection Hd as <-. cbn [name start end_ outward visibility].
  split; [reflexivity|]. split; [reflexivity|]. split; [reflexivity|].
  split.
  { intros ->. subst v. unfold vsub in Hpos.
    replace (fst e - fst e, snd e - snd e) with (0, 0) in Hpos
      by (f_equal; ring).
    rewrite (proj2 (norm_zero_iff (0, 0)) eq_refl) in Hpos. lra. }
  split; [reflexivity|].
  destruct (Rltb (dot (snd v, - fst v) tc) 0) eqn:Hside.
  - split; [|split].
    + rewrite <- (norm_perp v) in Hpos. now apply norm_unit.
    + rewrite norm_perp. unfold dot, vdiv. cbn [fst snd]. field. lra.
    + rewrite norm_perp.
      assert (Hneg : dot (snd v, - fst v) tc < 0).
      { unfold Rltb in Hside. now destruct (Rlt_dec _ _). }
      unfold dot, vdiv in *. cbn [fst snd] in *.
      replace (snd v / norm v * fst tc + - fst v / norm v * snd tc)
        with ((snd v * fst tc + - fst v * snd tc) * / norm v)
        by (field; lra).
      pose proof (Rinv_0_lt_compat _ Hpos). nra.
  - split; [|split].
    + rewrite <- (norm_perp' v) in Hpos. now apply norm_unit.
    + rewrite norm_perp'. unfold dot, vdiv. cbn [fst snd]. field. lra.
    + rewrite norm_perp'.
      assert (Hge : 0 <= dot (snd v, - fst v) tc).
      { unfold Rltb in Hside. destruct (Rlt_dec _ _); [discriminate|lra]. }
      unfold dot, vdiv in *. cbn [fst snd] in *.
      replace (- snd v / norm v * fst tc + fst v / norm v * snd tc)
        with (- (snd v * fst tc + - fst v * snd tc) * / norm v)
        by (field; lra).
      pose proof (Rinv_0_lt_compat _ Hpos). nra.
Qed.

(** Zero-length edges, and only they, are skipped. *)
Lemma describe_edge_none c nm s e :
  describe_edge c nm s e = None <-> s = e.
Proof.
  unfold describe_edge. split.
  - destruct (Rleb _ _) eqn:Hlen; [|discriminate]. intros _.
    unfold Rleb in Hlen. destruct (Rle_dec _ _) as [Hle|]; [|discriminate].
    assert (Hz : norm (vsub e s) = 0)
      by (pose proof (norm_nonneg (vsub e s)); lra).
    apply norm_zero_iff in Hz. unfold vsub in Hz.
    destruct s, e. cbn [fst snd] in Hz. injection Hz as Hx Hy.
    f_equal; lra.
  - intros ->. replace (vsub e e) with (0, 0)
      by (unfold vsub; f_equal; ring).
    rewrite (proj2 (norm_zero_iff (0, 0)) eq_refl).
    now rewrite Rleb_true by lra.
Qed.

(** A horizontal edge: the outward normal is vertical and points to the
    side where the centroid is not. *)
Lemma describe_horizontal c nm a b y :
  a <> b -> snd c <> y ->
  describe_edge c nm (a, y) (b, y)
  = Some {| name := nm; start := (a, y); end_ := (b, y);
            outward := (0, if Rltb y (snd c) then -1 else 1);
            visibility := if Rltb y (snd c) then 0 else 1 |}.
Proof.
  intros Hab Hc.
  destruct (describe_edge c nm (a, y) (b, y)) as [d|] eqn:Hd.
  2:{ apply describe_edge_none in Hd. injection Hd as Hd. contradiction. }
  apply describe_edge_spec in Hd
    as (Hn & Hs & He & _ & Hvis & Hunit & Hperp & Haway).
  destruct d as [n s e [ox oy] vis]. cbn [name start end_ outward visibility] in *.
  subst n s e vis.
  pose proof (norm_sqr (ox, oy)) as Hsq. rewrite Hunit in Hsq.
  unfold dot, vsub, vadd, vdiv in *. cbn [fst snd] in *.
  assert (Hox : ox = 0).
  { assert (Hz : ox * (b - a) = 0) by lra.
    apply Rmult_integral in Hz as [Hz|Hz]; [exact Hz|lra]. }
  subst ox.
  assert (Hoy : oy = 1 \/ oy = -1).
  { assert (Hz : (oy - 1) * (oy + 1) = 0) by lra.
    apply Rmult_integral in Hz as [Hz|Hz]; [left|right]; lra. }
  assert (Hside : oy * (snd c - y) <= 0) by lra.
  unfold Rltb. destruct (Rlt_dec y (snd c)) as [Hlt|Hge].
  - assert (oy = -1) by (destruct Hoy; [nra|assumption]). subst oy.
    do 2 f_equal. apply Rmax_left. lra.
  - assert (oy = 1) by (destruct Hoy; [assumption|nra]). subst oy.
    do 2 f_equal. apply Rmax_right. lra.
Qed.

(** A vertical edge: the outward normal is horizontal, so the edge scores
    no visibility. *)
Lemma describe_vertical c nm x a b :
  a <> b -> fst c <> x ->
  describe_edge c nm (x, a) (x, b)
  = Some {| name := nm; start := (x, a); end_ := (x, b);
            outward := (if Rltb x (fst c) then -1 else 1, 0);
            visibility := 0 |}.
Proof.
  intros Hab Hc.
  destruct (describe_edge c nm (x, a) (x, b)) as [d|] eqn:Hd.
  2:{ apply describe_edge_none in Hd. injection Hd as Hd. contradiction. }
  apply describe_edge_spec in Hd
    as (Hn & Hs & He & _ & Hvis & Hunit & Hperp & Haway).
  destruct d as [n s e [ox oy] vis]. cbn [name start end_ outward visibility] in *.
  subst n s e vis.
  pose proof (norm_sqr (ox, oy)) as Hsq. rewrite Hunit in Hsq.
  unfold dot, vsub, vadd, vdiv in *. cbn [fst snd] in *.
  assert (Hoy : oy = 0).
  { assert (Hz : oy * (b - a) = 0) by lra.
    apply Rmult_integral in Hz as [Hz|Hz]; [exact Hz|lra]. }
  subst oy.
  assert (Hox : ox = 1 \/ ox = -1).
  { assert (Hz : (ox - 1) * (ox + 1) = 0) by lra.
    apply Rmult_integral in Hz as [Hz|Hz]; [left|right]; lra. }
  assert (Hside : ox * (fst c - x) <= 0) by lra.
  unfold Rltb. destruct (Rlt_dec x (fst c)) as [Hlt|Hge].
  - assert (ox = -1) by (destruct Hox; [nra|assumption]). subst ox.
    do 2 f_equal. apply Rmax_left. lra.
  - assert (ox = 1) by (destruct Hox; [assumption|nra]). subst ox.
    do 2 f_equal. apply Rmax_left. lra.
Qed.

Lemma mean_rectangle X0 X1 Y0 Y1 :
  mean [(X0, Y0); (X1, Y0); (X1, Y1); (X0, Y1)]
  = ((X0 + X1) / 2, (Y0 + Y1) / 2).
Proof.
  unfold mean, vdiv, vadd. cbn [fold_right fst snd List.length].
  replace (INR 4) with 4 by (simpl; ring). f_equal; field.
Qed.

(** The axis-aligned rectangle with corners top-left [(x0, y0)] and
    bottom-right [(x1, y1)]: the sides as [describe_edge] sees them, and the
    one edge that is kept. *)
Lemma rectangle_edges (x0 x1 y0 y1 : Z) :
  (x0 < x1)%Z -> (y0 < y1)%Z ->
  let X0 := IZR x0 in let X1 := IZR x1 in
  let Y0 := IZR y0 in let Y1 := IZR y1 in
  let c := mean (to_array [(x0, y0); (x1, y0); (x1, y1); (x0, y1)]) in
  describe_edge c top (X0, Y0) (X1, Y0)
  = Some {| name := top; start := (X0, Y0); end_ := (X1, Y0);
            outward := (0, -1); visibility := 0 |}
  /\ describe_edge c right (X1, Y0) (X1, Y1)
     = Some {| name := right; start := (X1, Y0); end_ := (X1, Y1);
               outward := (1, 0); visibility := 0 |}
  /\ describe_edge c bottom (X1, Y1) (X0, Y1)
     = Some {| name := bottom; start := (X1, Y1); end_ := (X0, Y1);
               outward := (0, 1); visibility := 1 |}
  /\ describe_edge c left (X0, Y1) (X0, Y0)
     = Some {| name := left; start := (X0, Y1); end_ := (X0, Y0);
               outward := (-1, 0); visibility := 0 |}
  /\ get_visible_edges [(x0, y0); (x1, y0); (x1, y1); (x0, y1)]
     = Some [{| name := bottom; start := (X1, Y1); end_ := (X0, Y1);
                outward := (0, 1); visibility := 1 |}].
Proof.
  intros Hx Hy X0 X1 Y0 Y1 c.
  apply IZR_lt in Hx, Hy. fold X0 X1 in Hx. fold Y0 Y1 in Hy.
  assert (Hc : c = ((X0 + X1) / 2, (Y0 + Y1) / 2)) by apply mean_rectangle.
  assert (Htop : describe_edge c top (X0, Y0) (X1, Y0)
    = Some {| name := top; start := (X0, Y0); end_ := (X1, Y0);
              outward := (0, -1); visibility := 0 |}).
  { rewrite describe_horizontal; [|lra|rewrite Hc; cbn; lra].
    rewrite Rltb_true; [reflexivity|rewrite Hc; cbn; lra]. }
  assert (Hright : describe_edge c right (X1, Y0) (X1, Y1)
    = Some {| name := right; start := (X1, Y0); end_ := (X1, Y1);
              outward := (1, 0); visibility := 0 |}).
  { rewrite describe_vertical; [|lra|rewrite Hc; cbn; lra].
    rewrite Rltb_false; [reflexivity|rewrite Hc; cbn; lra]. }
  assert (Hbottom : describe_edge c bottom (X1, Y1) (X0, Y1)
    = Some {| name := bottom; start := (X1, Y1); end_ := (X0, Y1);
              outward := (0, 1); visibility := 1 |}).
  { rewrite describe_horizontal; [|lra|rewrite Hc; cbn; lra].
    rewrite Rltb_false; [reflexivity|rewrite Hc; cbn; lra]. }
  assert (Hleft : describe_edge c left (X0, Y1) (X0, Y0)
    = Some {| name := left; start := (X0, Y1); end_ := (X0, Y0);
              outward := (-1, 0); visibility := 0 |}).
  { rewrite describe_vertical; [|lra|rewrite Hc; cbn; lra].
    rewrite Rltb_true; [reflexivity|rewrite Hc; cbn; lra]. }
  repeat (split; [assumption|]).
  unfold get_visible_edges. fold c.
  cbn [to_array map fst snd sides lookup list_lookup mbind option_bind omap
       list_omap visible_of].
  fold X0 X1 Y0 Y1. rewrite Htop, Hright, Hbottom, Hleft.
  cbn [mbind option_bind]. unfold keep_visible. cbn [visibility].
  rewrite (Rltb_false 0 0) by lra. rewrite (Rltb_true 0 1) by lra.
  reflexivity.
Qed.

End VisibleEdges.

Section VisibleEdgesGeneral.
Import PyReal Composite.
Local Open Scope R_scope.

Lemma visible_of_Some c nm s e d :
  visible_of c (nm, s, e) = Some d
  <-> describe_edge c nm s e = Some d /\ 0 < visibility d.
Proof.
  unfold visible_of, keep_visible, Rltb.
  destruct (describe_edge c nm s e) as [d'|]; cbn [mbind option_bind].
  - destruct (Rlt_dec 0 (visibility d')) as [Hlt|Hge]; split.
    + intros Heq. injection Heq as <-. now split.
    + intros [Heq _]. exact Heq.
    + discriminate.
    + intros [Heq Hpos]. injection Heq as <-. contradiction.
  - split; [discriminate|]. now intros [Heq _].
Qed.

(** The edges returned are the sides that have a description and a
    positive visibility. *)
Lemma get_visible_edges_In points es d :
  get_visible_edges points = Some es ->
  (In d es <->
   exists nm s e edges,
     sides (to_array points) = Some edges /\ In (nm, s, e) edges
     /\ describe_edge (mean (to_array points)) nm s e = Some d
     /\ 0 < visibility d).
Proof.
  unfold get_visible_edges.
  destruct (sides (to_array points)) as [edges|]; [|discriminate].
  intros Heq. injection Heq as <-.
  rewrite <- list_elem_of_In, list_elem_of_omap. split.
  - intros ([[nm s] e] & Hin & Hvis). apply list_elem_of_In in Hin.
    apply visible_of_Some in Hvis. now exists nm, s, e, edges.
  - intros (nm & s & e & edges' & Heq & Hin & Hd & Hpos).
    injection Heq as <-. exists (nm, s, e). split.
    + now apply list_elem_of_In.
    + apply visible_of_Some. now split.
Qed.

End VisibleEdgesGeneral.

(** C1. For the axis-aligned rectangle with corners top-left, top-right,
    bottom-right, bottom-left, [get_visible_edges] returns the bottom edge
    (from bottom-right to bottom-left) alone, with outward normal (0, 1)
    and visibility 1; the top edge has outward normal (0, -1) and
    visibility 0 and is not returned.  In general an edge of zero length,
    and no other, is skipped; an edge that is described has a unit outward
    normal, perpendicular to the edge and not pointing towards the
    centroid, and visibility [max(0, outward.y)]; the edges returned are
    the described sides whose visibility is positive. *)
Theorem visible_edges_rectangle (x0 x1 y0 y1 : Z) :
  (x0 < x1)%Z -> (y0 < y1)%Z ->
  let points := [(x0, y0); (x1, y0); (x1, y1); (x0, y1)] in
  let centroid := Composite.mean (Composite.to_array points) in
  let top_left := (IZR x0, IZR y0) in
  let top_right := (IZR x1, IZR y0) in
  let bottom_right := (IZR x1, IZR y1) in
  let bottom_left := (IZR x0, IZR y1) in
  let bottom_edge :=
    {| Composite.name := Composite.bottom;
       Composite.start := bottom_right; Composite.end_ := bottom_left;
       Composite.outward := (0%R, 1%R); Composite.visibility := 1%R |} in
  let top_edge :=
    {| Composite.name := Composite.top;
       Composite.start := top_left; Composite.end_ := top_right;
       Composite.outward := (0%R, (-1)%R); Composite.visibility := 0%R |} in
  Composite.get_visible_edges points = Some [bottom_edge]
  /\ Composite.describe_edge centroid Composite.bottom bottom_right bottom_left
     = Some bottom_edge
  /\ Composite.describe_edge centroid Composite.top top_left top_right
     = Some top_edge
  /\ Composite.keep_visible top_edge = false
  /\ (forall pts es d,
       Composite.get_visible_edges pts = Some es ->
       (In d es <->
        exists nm s e edges,
          Composite.sides (Composite.to_array pts) = Some edges
          /\ In (nm, s, e) edges
          /\ Composite.describe_edge
               (Composite.mean (Composite.to_array pts)) nm s e = Some d
          /\ (0 < Composite.visibility d)%R))
  /\ (forall c nm s e d,
       Composite.describe_edge c nm s e = Some d ->
       Composite.visibility d = Rmax 0 (snd (Composite.outward d))
       /\ Composite.norm (Composite.outward d) = 1%R
       /\ Composite.dot (Composite.outward d) (Composite.vsub e s) = 0%R
       /\ (Composite.dot (Composite.outward d)
             (Composite.vsub c (Composite.vdiv (Composite.vadd s e) 2))
           <= 0)%R)
  /\ (forall c nm s e, Composite.describe_edge c nm s e = None <-> s = e).
Proof.
  intros Hx Hy points centroid tl tr br bl bottom_edge top_edge.
  destruct (rectangle_edges x0 x1 y0 y1 Hx Hy)
    as (Htop & _ & Hbottom & _ & Hall).
  split; [exact Hall|]. split; [exact Hbottom|]. split; [exact Htop|].
  split; [apply Rltb_false; cbn; lra|].
  split; [intros pts es d; apply get_visible_edges_In|].
  split; [|apply describe_edge_none].
  intros c nm s e d Hd.
  apply describe_edge_spec in Hd as (_ & _ & _ & _ & Hv & Hu & Hp & Ha).
  now repeat split.
Qed.

Lemma visible_edges_rectangle_witness :
  Composite.get_visible_edges [(0, 0); (640, 0); (640, 480); (0, 480)]%Z
  = Some [{| Composite.name := Composite.bottom;
             Composite.start := (640%R, 480%R);
             Composite.end_ := (0%R, 480%R);
             Composite.outward := (0%R, 1%R);
             Composite.visibility := 1%R |}].
Proof.
  apply (proj1 (visible_edges_rectangle 0 640 0 480 ltac:(lia) ltac:(lia))).
Defined.

(** ** composite: edge thickness *)

Section Thickness.
Import PyReal Composite.
Local Open Scope R_scope.

Lemma Int_part_nonneg r : 0 <= r -> (0 <= Int_part r)%Z.
Proof.
  intros Hr. unfold Int_part. destruct (archimed r) as [Hup _].
  assert (Hlt : IZR 0 < IZR (up r)) by (cbn; lra).
  apply lt_IZR in Hlt. lia.
Qed.

Lemma py_int_nonneg r : 0 <= r -> (0 <= py_int r)%Z.
Proof.
  intros Hr. unfold py_int. rewrite Rltb_false by exact Hr.
  now apply Int_part_nonneg.
Qed.

Lemma local_thickness_bounds (T : Z) (d : R) :
  (4 <= T)%Z -> 0 <= d <= 1 ->
  4 <= local_thickness T d <= IZR T.
Proof.
  intros HT Hd. apply IZR_le in HT. unfold local_thickness, min_thickness.
  split; nra.
Qed.

Lemma local_thickness_full (T : Z) (d : R) :
  (4 < T)%Z -> local_thickness T d = IZR T -> d = 1.
Proof.
  intros HT. apply IZR_lt in HT. unfold local_thickness, min_thickness.
  intros Heq. assert (Hz : (IZR T - 4) * (d - 1) = 0) by lra.
  apply Rmult_integral in Hz as [Hz|Hz]; lra.
Qed.

Lemma sample_at_fields h T e n i :
  depth_ratio (sample_at h T e n i) = snd (point (sample_at h T e n i)) / IZR h
  /\ thickness_here (sample_at h T e n i)
     = local_thickness T (depth_ratio (sample_at h T e n i)).
Proof. split; reflexivity. Qed.

Lemma edge_samples_In h T e s :
  In s (edge_samples h T e) -> exists n i, s = sample_at h T e n i.
Proof.
  unfold edge_samples. rewrite in_map_iff. intros (i & <- & _).
  now eexists _, i.
Qed.

(** Every edge has a first sample, taken at its start point. *)
Lemma first_sample h T e :
  exists s, In s (edge_samples h T e)
            /\ point s = start e
            /\ depth_ratio s = snd (start e) / IZR h
            /\ thickness_here s = local_thickness T (snd (start e) / IZR h).
Proof.
  unfold edge_samples.
  set (n := (py_int (norm (vsub (end_ e) (start e))) + 1)%Z).
  assert (Hn : (1 <= n)%Z)
    by (pose proof (py_int_nonneg _ (norm_nonneg (vsub (end_ e) (start e)))); lia).
  destruct (Z.to_nat n) as [|k] eqn:Hk; [lia|].
  exists (sample_at h T e n 0%nat). cbn [seq map]. split; [now left|].
  assert (Hpt : along e (INR 0 / IZR (Z.max 1 (n - 1))) = start e).
  { unfold along, vadd, vscale, vsub. cbn [INR fst snd].
    destruct (start e) as [sx sy]. cbn [fst snd]. f_equal; unfold Rdiv; ring. }
  unfold sample_at. cbn [point depth_ratio thickness_here].
  now rewrite Hpt.
Qed.

End Thickness.

(** C2, as the code has it.  The code takes [thickness] as the upper end of
    the interpolation and does not clamp it.  For [thickness >= 4], at every
    sample of an edge (so of every visible edge) whose depth ratio,
    [sample.y / image height], lies in [0, 1], the local thickness
    [4 + (thickness - 4) * depth_ratio] lies in [4, thickness]; it is 4 at
    depth ratio 0 and [thickness] at depth ratio 1, and for [thickness > 4]
    it is [thickness] only at depth ratio 1. *)
Theorem thickness_bevel_bounds (img_bottom thickness : Z)
    (e : Composite.edge) (s : Composite.sample) :
  (4 <= thickness)%Z ->
  In s (Composite.edge_samples img_bottom thickness e) ->
  (0 <= Composite.depth_ratio s <= 1)%R ->
  Composite.depth_ratio s = (snd (Composite.point s) / IZR img_bottom)%R
  /\ Composite.thickness_here s
     = (4 + (IZR thickness - 4) * Composite.depth_ratio s)%R
  /\ (4 <= Composite.thickness_here s <= IZR thickness)%R
  /\ (Composite.depth_ratio s = 0%R -> Composite.thickness_here s = 4%R)
  /\ (Composite.depth_ratio s = 1%R -> Composite.thickness_here s = IZR thickness)
  /\ ((4 < thickness)%Z -> Composite.thickness_here s = IZR thickness ->
      Composite.depth_ratio s = 1%R).
Proof.
  intros HT Hin Hd. apply edge_samples_In in Hin as (n & i & ->).
  destruct (sample_at_fields img_bottom thickness e n i) as [Hratio Hhere].
  split; [exact Hratio|]. rewrite Hhere. split; [reflexivity|].
  split; [now apply local_thickness_bounds|].
  unfold Composite.local_thickness, Composite.min_thickness.
  split; [intros ->; lra|]. split; [intros ->; lra|].
  intros HT' Heq. now apply (local_thickness_full thickness).
Qed.

Lemma thickness_bevel_bounds_witness :
  exists s,
    In s (Composite.edge_samples 480 7
            {| Composite.name := Composite.bottom;
               Composite.start := (640%R, 480%R);
               Composite.end_ := (0%R, 480%R);
               Composite.outward := (0%R, 1%R);
               Composite.visibility := 1%R |})
    /\ (4 <= Composite.thickness_here s <= 7)%R.
Proof.
  destruct (first_sample 480 7
              {| Composite.name := Composite.bottom;
                 Composite.start := (640%R, 480%R);
                 Composite.end_ := (0%R, 480%R);
                 Composite.outward := (0%R, 1%R);
                 Composite.visibility := 1%R |})
    as (s & Hin & _ & Hratio & _).
  exists s. split; [exact Hin|].
  cbn [Composite.start snd] in Hratio.
  apply (thickness_bevel_bounds 480 7 _ s ltac:(lia) Hin).
  rewrite Hratio. lra.
Defined.

(** C2 as stated fails.  On the rectangle (0,0), (4,0), (4,2), (0,2) in an
    image of height 4, the first sample of the visible bottom edge has
    depth ratio 1/2.  With [thickness = 2] its local thickness is 3, below
    4 and outside [4, 2]: the parameter is not clamped.  With
    [thickness = 4] its local thickness is 4, the value of [thickness],
    although the depth ratio is not 1. *)
Lemma thickness_not_clamped :
  exists e,
    Composite.get_visible_edges [(0, 0); (4, 0); (4, 2); (0, 2)]%Z = Some [e]
    /\ (exists s, In s (Composite.edge_samples 4 2 e)
                  /\ Composite.depth_ratio s = (1 / 2)%R
                  /\ Composite.thickness_here s = 3%R
                  /\ ~ (4 <= Composite.thickness_here s <= 2)%R)
    /\ (exists s, In s (Composite.edge_samples 4 4 e)
                  /\ Composite.depth_ratio s = (1 / 2)%R
                  /\ Composite.thickness_here s = 4%R
                  /\ Composite.depth_ratio s <> 1%R).
Proof.
  eexists. split.
  - apply (rectangle_edges 0 4 0 2); lia.
  - split.
    + destruct (first_sample 4 2
                  {| Composite.name := Composite.bottom;
                     Composite.start := (4%R, 2%R);
                     Composite.end_ := (0%R, 2%R);
                     Composite.outward := (0%R, 1%R);
                     Composite.visibility := 1%R |})
        as (s & Hin & _ & Hratio & Hhere).
      cbn [Composite.start snd] in Hratio, Hhere.
      unfold Composite.local_thickness, Composite.min_thickness in Hhere.
      exists s. split; [exact Hin|]. split; [rewrite Hratio; lra|].
      split; [rewrite Hhere; lra|]. rewrite Hhere. lra.
    + destruct (first_sample 4 4
                  {| Composite.name := Composite.bottom;
                     Composite.start := (4%R, 2%R);
                     Composite.end_ := (0%R, 2%R);
                     Composite.outward := (0%R, 1%R);
                     Composite.visibility := 1%R |})
        as (s & Hin & _ & Hratio & Hhere).
      cbn [Composite.start snd] in Hratio, Hhere.
      unfold Composite.local_thickness, Composite.min_thickness in Hhere.
      exists s. split; [exact Hin|]. split; [rewrite Hratio; lra|].
      split; [rewrite Hhere; lra|]. rewrite Hratio. lra.
Qed.

(** ** composite: defaults and determinism of the pipeline *)

Section Pipeline.
Import Composite.
Context `{Imaging}.

(** With [skip_render] the rug is the design as loaded (or the red
    placeholder); the renderer is not called and the generator is left as
    it was. *)
Lemma prepare_rug_skip d config design_path texture_strength g :
  prepare_rug d config design_path true texture_strength g
  = (match truthy design_path with
     | Some p => open_rgba <$> files d p
     | None => Some red_placeholder
     end, g).
Proof.
  unfold prepare_rug.
  destruct (match truthy design_path with
            | Some p => open_rgba <$> files d p
            | None => Some red_placeholder
            end); reflexivity.
Qed.

End Pipeline.

Section RoomRun.
Import Composite.
Local Open Scope R_scope.

Lemma foldl_recording (l : list sample) (acc : list R) :
  foldl (@paint_strip recording) acc l = rev (map thickness_here l) ++ acc.
Proof.
  revert acc. induction l as [|s l IH]; intros acc; cbn [foldl map rev].
  - reflexivity.
  - rewrite IH. cbn [paint_strip recording]. now rewrite <- app_assoc.
Qed.

(** The run on [room] with the renderer skipped: the file written lists the
    local thicknesses along the bottom edge, for the thickness passed or
    else the default of the signature. *)
Lemma room_run (rug_thickness : option Z) :
  @composite_scene recording room "room" None None None rug_thickness None
    (Some true) None tt
  = (Some ("output.png"%string,
           rev (map thickness_here
                  (edge_samples 480 (default rug_thickness_default rug_thickness)
                     room_bottom_edge))), tt).
Proof.
  unfold composite_scene. cbn [default].
  change (@load_scene_config recording room "room")
    with (Some {| image_path := "room.png"; wf_path := "room.png";
                  fg_path := None;
                  corners := [(0, 0); (640, 0); (640, 480); (0, 480)]%Z;
                  suitable_rug_size := None |}).
  cbn [image_path wf_path fg_path corners].
  change (@files recording room "room.png") with (Some (@nil R)).
  cbn [fmap option_fmap option_map open_rgb recording shape].
  rewrite prepare_rug_skip. cbn [truthy red_placeholder recording].
  unfold add_thickness_to_visible_edges.
  cbn [default warp_perspective recording shape].
  assert (Hedges :
    get_visible_edges [(0, 0); (640, 0); (640, 480); (0, 480)]%Z
    = Some [room_bottom_edge])
    by (apply (rectangle_edges 0 640 0 480); lia).
  rewrite Hedges. cbn [foldl]. rewrite foldl_recording, app_nil_r.
  reflexivity.
Qed.

(** On the bottom edge of [room] every sample sits on the last row, so its
    local thickness is the thickness passed. *)
Lemma room_samples (T : Z) :
  Forall (fun t => t = IZR T)
    (rev (map thickness_here (edge_samples 480 T room_bottom_edge)))
  /\ rev (map thickness_here (edge_samples 480 T room_bottom_edge)) <> [].
Proof.
  split.
  - apply Forall_rev, List.Forall_forall. intros t Ht.
    apply in_map_iff in Ht as (s & <- & Hs).
    apply edge_samples_In in Hs as (n & i & ->).
    unfold sample_at, local_thickness, min_thickness, along, vadd, vscale, vsub.
    cbn [thickness_here room_bottom_edge start end_ fst snd]. field.
    apply not_0_IZR. lia.
  - destruct (first_sample 480 T room_bottom_edge) as (s & Hin & _).
    intros Hnil. apply (in_map thickness_here) in Hin.
    apply in_rev in Hin. rewrite Hnil in Hin. exact Hin.
Qed.

End RoomRun.

Section OnArrays.
Import Composite.
Context `{Arrays.Library}.

Lemma fit_numpy (a : Arrays.pixels) (h w : Z) :
  @fit Arrays.numpy (Arrays.U8 a) h w
  = Arrays.U8
      (let '(a_h, a_w) := Arrays.shape_of a in
       if (negb (a_h =? h) || negb (a_w =? w))%Z
       then Arrays.cv_resize a w h else a).
Proof.
  unfold fit. cbn [shape Arrays.numpy Arrays.shape resize].
  destruct (Arrays.shape_of a) as [a_h a_w].
  now destruct (negb (a_h =? h) || negb (a_w =? w))%Z.
Qed.

Lemma paint_strips_numpy (l : list sample) (a : Arrays.pixels) :
  foldl (@paint_strip Arrays.numpy) (Arrays.U8 a) l
  = Arrays.U8 (foldl Arrays.paint_strip a l).
Proof.
  revert a. induction l as [|s l IH]; intros a; cbn [foldl]; [reflexivity|].
  cbn [paint_strip Arrays.numpy Arrays.astype_uint8]. apply IH.
Qed.

Lemma paint_edges_numpy (edges : list edge) (img_bottom T : Z)
    (a : Arrays.pixels) :
  foldl (fun img e =>
           foldl (@paint_strip Arrays.numpy) img (edge_samples img_bottom T e))
    (Arrays.U8 a) edges
  = Arrays.U8
      (foldl (fun img e =>
                foldl Arrays.paint_strip img (edge_samples img_bottom T e))
         a edges).
Proof.
  revert a. induction edges as [|e edges IH]; intros a; cbn [foldl];
    [reflexivity|].
  rewrite paint_strips_numpy. apply IH.
Qed.

Lemma add_thickness_numpy (a : Arrays.pixels) (dst_points : list (Z * Z))
    (T : Z) :
  @add_thickness_to_visible_edges Arrays.numpy (Arrays.U8 a) dst_points (Some T)
  = match get_visible_edges dst_points with
    | None => None
    | Some visible_edges =>
        Some (Arrays.U8
                (foldl (fun img e =>
                          foldl Arrays.paint_strip img
                            (edge_samples (fst (Arrays.shape_of a)) T e))
                   a visible_edges))
    end.
Proof.
  unfold add_thickness_to_visible_edges. cbn [default shape Arrays.numpy
    Arrays.shape].
  destruct (Arrays.shape_of a) as [h w]. cbn [fst].
  destruct (get_visible_edges dst_points) as [[|e edges]|]; [reflexivity| |reflexivity].
  now rewrite paint_edges_numpy.
Qed.

(** A run with [skip_render] on arrays: the inputs are read, they go
    through [Arrays.skip_render_pipeline], the result is cut to bytes and
    saved; the generator comes back as it went in. *)
Lemma skip_render_run (d : @store Arrays.numpy) (scene_name : string)
    (design_path output_path : option string) (shadow_intensity : option R)
    (rug_thickness : option Z) (debug : option bool) (ts : option R)
    (g : Arrays.rng) :
  @composite_scene Arrays.numpy d scene_name design_path output_path
    shadow_intensity rug_thickness debug (Some true) ts g
  = (match load_scene_config d scene_name with
     | None => None
     | Some config =>
         match files d (image_path config), files d (wf_path config),
               match truthy design_path with
               | Some p => Arrays.read_rgba <$> files d p
               | None =>
                   Some (replicate 1000 (replicate 1000 [255; 0; 0; 255]%Z))
               end,
               match fg_path config with
               | Some p => Some <$> (Arrays.read_rgba <$> files d p)
               | None => Some None
               end with
         | Some scene_file, Some ref_file, Some rug, Some fg =>
             match Arrays.skip_render_pipeline (Arrays.read_rgb scene_file)
                     (Arrays.read_rgb ref_file) rug fg (corners config)
                     (default shadow_intensity_default shadow_intensity)
                     (default rug_thickness_default rug_thickness) with
             | Some result =>
                 match Arrays.write (map (map (map PyReal.py_int)) result)
                         (default output_path_default output_path) with
                 | Some written =>
                     Some (default output_path_default output_path, written)
                 | None => None
                 end
             | None => None
             end
         | _, _, _, _ => None
         end
     end, g).
Proof.
  unfold composite_scene. cbn [default].
  destruct (load_scene_config d scene_name) as [config|]; [|reflexivity].
  destruct (files d (image_path config)) as [scene_file|];
    cbn [fmap option_fmap option_map]; [|reflexivity].
  destruct (files d (wf_path config)) as [ref_file|];
    cbn [fmap option_fmap option_map]; [|reflexivity].
  cbn [open_rgb Arrays.numpy shape Arrays.shape].
  unfold Arrays.skip_render_pipeline.
  destruct (Arrays.shape_of (Arrays.read_rgb scene_file)) as [h w].
  rewrite prepare_rug_skip. cbn [open_rgba red_placeholder Arrays.numpy].
  destruct (truthy design_path) as [p|].
  - destruct (files d p) as [design_file|];
      cbn [fmap option_fmap option_map]; [|reflexivity].
    cbn [warp_perspective Arrays.numpy Arrays.astype_uint8].
    rewrite add_thickness_numpy.
    destruct (get_visible_edges (corners config)) as [edges|].
    2: { now destruct (fg_path config) as [q|]; [destruct (files d q)|]. }
    unfold apply_lighting, gaussian_blur_edges.
    cbn [Z.leb Z.compare relight blur_alpha blend_over save_image
         Arrays.numpy Arrays.astype_uint8 Arrays.astype_float32].
    rewrite fit_numpy. cbn [Arrays.astype_uint8].
    destruct (fg_path config) as [q|];
      [|now destruct (Arrays.write _ _)].
    destruct (files d q) as [fg_file|];
      cbn [fmap option_fmap option_map mbind option_bind]; [|reflexivity].
    rewrite fit_numpy. cbn [Arrays.astype_uint8 Arrays.astype_float32].
    now destruct (Arrays.write _ _).
  - cbn [warp_perspective Arrays.numpy Arrays.astype_uint8].
    rewrite add_thickness_numpy.
    destruct (get_visible_edges (corners config)) as [edges|].
    2: { now destruct (fg_path config) as [q|]; [destruct (files d q)|]. }
    unfold apply_lighting, gaussian_blur_edges.
    cbn [Z.leb Z.compare relight blur_alpha blend_over save_image
         Arrays.numpy Arrays.astype_uint8 Arrays.astype_float32].
    rewrite fit_numpy. cbn [Arrays.astype_uint8].
    destruct (fg_path config) as [q|];
      [|now destruct (Arrays.write _ _)].
    destruct (files d q) as [fg_file|];
      cbn [fmap option_fmap option_map mbind option_bind]; [|reflexivity].
    rewrite fit_numpy. cbn [Arrays.astype_uint8 Arrays.astype_float32].
    now destruct (Arrays.write _ _).
Qed.

End OnArrays.

(** C6. With [skip_render] set, [composite_scene] on arrays reads its
    inputs, takes them through the perspective warp, the edge-thickness
    synthesis, the relighting, the edge blur and the alpha compositing as
    [composite.py] has them, and saves the bytes: the file written is this
    function of the store, the scene, the design, the shadow intensity and
    the thickness, in which no generator occurs.  So two runs on the same
    inputs write the same file, whatever the state of the random generator
    (and whatever the texture strength), and the generator is left as it
    was.  The routines of OpenCV and Pillow are taken to be functions of
    their arguments. *)
Theorem skip_render_deterministic `{Arrays.Library}
    (d : @Composite.store Arrays.numpy) (scene_name : string)
    (design_path output_path : option string) (shadow_intensity : option R)
    (rug_thickness : option Z) (debug : option bool) (ts ts' : option R)
    (g g' : Arrays.rng) :
  let run := fun texture_strength generator =>
    @Composite.composite_scene Arrays.numpy d scene_name design_path
      output_path shadow_intensity rug_thickness debug (Some true)
      texture_strength generator in
  let out := default Composite.output_path_default output_path in
  fst (run ts g) = fst (run ts' g')
  /\ snd (run ts g) = g
  /\ fst (run ts g)
     = match Composite.load_scene_config d scene_name with
       | None => None
       | Some config =>
           match Composite.files d (Composite.image_path config),
                 Composite.files d (Composite.wf_path config),
                 match Composite.truthy design_path with
                 | Some p => Arrays.read_rgba <$> Composite.files d p
                 | None =>
                     Some (replicate 1000 (replicate 1000 [255; 0; 0; 255]%Z))
                 end,
                 match Composite.fg_path config with
                 | Some p =>
                     Some <$> (Arrays.read_rgba <$> Composite.files d p)
                 | None => Some None
                 end with
           | Some scene_file, Some ref_file, Some rug, Some fg =>
               match Arrays.skip_render_pipeline (Arrays.read_rgb scene_file)
                       (Arrays.read_rgb ref_file) rug fg
                       (Composite.corners config)
                       (default 1%R shadow_intensity)
                       (default 6%Z rug_thickness) with
               | Some result =>
                   match Arrays.write (map (map (map PyReal.py_int)) result)
                           out with
                   | Some written => Some (out, written)
                   | None => None
                   end
               | None => None
               end
           | _, _, _, _ => None
           end
       end.
Proof.
  cbv zeta. rewrite !skip_render_run. cbn [fst snd].
  split; [reflexivity|]. split; reflexivity.
Qed.

(** C3, as the code has it.  The signature defaults are 6 for
    [rug_thickness] (and for [thickness] of
    [add_thickness_to_visible_edges]) and 0.55 for [texture_strength]: a
    call that leaves them out is the call that passes 6 and 0.55.  The
    values 7 and 0.7 are the defaults of the command-line options, which
    [main] always passes on explicitly. *)
Theorem signature_defaults `{Composite.Imaging} :
  Composite.rug_thickness_default = 6%Z
  /\ Composite.thickness_default = 6%Z
  /\ Composite.texture_strength_default = (55 / 100)%R
  /\ (forall d scene_name design_path output_path shadow_intensity debug
             skip_render texture_strength g,
        Composite.composite_scene d scene_name design_path output_path
          shadow_intensity None debug skip_render texture_strength g
        = Composite.composite_scene d scene_name design_path output_path
            shadow_intensity (Some 6%Z) debug skip_render texture_strength g)
  /\ (forall d scene_name design_path output_path shadow_intensity
             rug_thickness debug skip_render g,
        Composite.composite_scene d scene_name design_path output_path
          shadow_intensity rug_thickness debug skip_render None g
        = Composite.composite_scene d scene_name design_path output_path
            shadow_intensity rug_thickness debug skip_render
            (Some (55 / 100)%R) g)
  /\ (forall rug_rgba dst_points,
        Composite.add_thickness_to_visible_edges rug_rgba dst_points None
        = Composite.add_thickness_to_visible_edges rug_rgba dst_points
            (Some 6%Z))
  /\ (forall d args g,
        Composite.arg_thickness args = None ->
        Composite.arg_texture_strength args = None ->
        Composite.main d args g
        = Composite.composite_scene d (Composite.scene args)
            (Composite.design args)
            (Some (default "output.png"%string (Composite.output args)))
            (Some (default 1%R (Composite.arg_shadow_intensity args)))
            (Some 7%Z) (Some (Composite.arg_debug args))
            (Some (Composite.arg_skip_render args)) (Some (7 / 10)%R) g).
Proof.
  split; [reflexivity|]. split; [reflexivity|].
  assert (Hts : Composite.texture_strength_default = (55 / 100)%R)
    by (unfold Composite.texture_strength_default; lra).
  split; [exact Hts|].
  split; [reflexivity|].
  split.
  { intros. unfold Composite.composite_scene. cbn [default].
    now rewrite Hts. }
  split; [reflexivity|].
  intros d args g Hth Hts'. unfold Composite.main. rewrite Hth, Hts'.
  cbn [default]. unfold Composite.cli_thickness_default,
    Composite.cli_texture_strength_default.
  now replace (0.7)%R with (7 / 10)%R by lra.
Qed.

(** C3 as stated fails: neither thickness default of the signatures is 7,
    and the [texture_strength] default is not 0.7.  On the scene [room],
    a call of [composite_scene] that leaves [rug_thickness] out paints
    strips of local thickness 6 along the last row, where the thickness
    passed is reached, and none of thickness 7. *)
Lemma signature_defaults_are_not_cli_defaults :
  Composite.rug_thickness_default <> 7%Z
  /\ Composite.thickness_default <> 7%Z
  /\ Composite.texture_strength_default <> (7 / 10)%R
  /\ exists painted,
       @Composite.composite_scene Composite.recording Composite.room "room"
         None None None None None (Some true) None tt
       = (Some ("output.png"%string, painted), tt)
       /\ painted <> []
       /\ Forall (fun t => t = 6%R) painted
       /\ ~ In 7%R painted.
Proof.
  split; [discriminate|]. split; [discriminate|].
  split; [unfold Composite.texture_strength_default; lra|].
  eexists. split; [apply room_run|].
  cbn [default]. destruct (room_samples Composite.rug_thickness_default)
    as [Hall Hne].
  split; [exact Hne|]. split; [exact Hall|].
  intros Hin. rewrite List.Forall_forall in Hall. specialize (Hall _ Hin).
  unfold Composite.rug_thickness_default in Hall. lra.
Qed.

(** ** The models at work *)

(** One timeout, then an answer with image bytes: two calls, one sleep. *)
Example white_floor_recovers :
  WhiteFloor.make_white_floor (Some "key"%string)
    (fun n =>
       match n with
       | 0%nat => WhiteFloor.Fails "HTTPSConnectionPool: Read timed out."
       | _ => WhiteFloor.Responds
                [{| WhiteFloor.content :=
                      Some [{| WhiteFloor.inline_data := None |};
                            {| WhiteFloor.inline_data := Some [Byte.x89] |}] |}]
       end)
    WhiteFloor.max_retries_default
  = (WhiteFloor.Returns (WhiteFloor.Success [Byte.x89]),
     {| WhiteFloor.calls := 2; WhiteFloor.sleeps := [1]%Z |}).
Proof. vm_compute. reflexivity. Qed.

(** A missing key raises before any call. *)
Example white_floor_without_key :
  WhiteFloor.make_white_floor None (fun _ => WhiteFloor.Responds []) 3
  = (WhiteFloor.Raised "GOOGLE_API_KEY not found in .env file",
     WhiteFloor.initial).
Proof. reflexivity. Qed.

(** A directory with one output in place, one file the service rejects and
    one it accepts; derived files and other files are no candidates. *)
Example background_batch :
  RemoveBackground.process_directory
    (fun _ name =>
       if String.eqb name "c.webp"
       then inr {| RemoveBackground.exn_class := "ModelError";
                   RemoveBackground.exn_text := "" |}
       else inl [Byte.x89])
    (Some [("a.PNG", true); ("a_fg.png", true); ("c.webp", true);
           ("b.tar.jpg", true); ("notes.txt", true); (".png", true);
           ("old", false)]%string)
    None
  = inl ([{| RemoveBackground.file := "a.PNG";
             RemoveBackground.outcome := RemoveBackground.Skipped |};
          {| RemoveBackground.file := "c.webp";
             RemoveBackground.outcome := RemoveBackground.Errored "ModelError" |};
          {| RemoveBackground.file := "b.tar.jpg";
             RemoveBackground.outcome := RemoveBackground.Succeeded "b.tar_fg.png" |}],
         {| RemoveBackground.disk :=
              [("a.PNG", true); ("a_fg.png", true); ("c.webp", true);
               ("b.tar.jpg", true); ("notes.txt", true); (".png", true);
               ("old", false); ("b.tar_fg.png", true)]%string;
            RemoveBackground.sent := ["c.webp"; "b.tar.jpg"]%string |}).
Proof. vm_compute. reflexivity. Qed.

(** The gate is evaluated in binary64: for 100x100 against 99x100 the
    relative difference rounds to just above the tolerance 0.01. *)
Example aspect_ratio_at_the_boundary :
  Overlay.check_aspect_ratio
    {| Overlay.width := 100; Overlay.height := 100 |}
    {| Overlay.width := 99; Overlay.height := 100 |}
    Overlay.tolerance_default = Some false
  /\ Overlay.check_aspect_ratio
       {| Overlay.width := 100; Overlay.height := 0 |}
       {| Overlay.width := 99; Overlay.height := 100 |}
       Overlay.tolerance_default = None.
Proof. split; vm_compute; reflexivity. Qed.

(** A clean mask of radius 1 on 5x4 pixels, under the disc rasteriser. *)
Example clean_mask_5x4 :
  @Render.create_edge_mask Render.disc_rasteriser (5, 4)%Z 1 0 0%R
    (fun _ _ => 0%Z)
  = Some [[0; 255; 255; 255; 0]; [255; 255; 255; 255; 255];
          [255; 255; 255; 255; 255]; [0; 255; 255; 255; 0]]%Z.
Proof. vm_compute. reflexivity. Qed.

(** * Further properties of the code *)

(** ** make_white_floor: calls and sleeps in general *)

Section RetryAccounting.
Import WhiteFloor.

Variable svc : service.

Lemma backoff_S a k : backoff a (S k) = (2 ^ Z.of_nat a)%Z :: backoff (S a) k.
Proof. reflexivity. Qed.

Lemma backoff_sum k : forall a,
  fold_right Z.add 0%Z (backoff a k)
  = (2 ^ Z.of_nat a * (2 ^ Z.of_nat k - 1))%Z.
Proof.
  induction k as [|k IH]; intros a.
  - cbn. lia.
  - rewrite backoff_S. cbn [fold_right]. rewrite IH.
    rewrite !Nat2Z.inj_succ, !Z.pow_succ_r by lia. lia.
Qed.

(** One run of the loop over [k] attempts from attempt [a]: [j] calls are
    made; the loop either runs out after [k] calls and [k] sleeps, or
    returns at call [j] after [j - 1] sleeps. *)
Lemma retry_loop_accounting max_retries k : forall a st,
  exists j,
    (j <= k)%nat
    /\ calls (snd (retry_loop svc max_retries (map Z.of_nat (seq a k)) st))
       = (calls st + j)%nat
    /\ match fst (retry_loop svc max_retries (map Z.of_nat (seq a k)) st) with
       | None =>
           j = k
           /\ sleeps (snd (retry_loop svc max_retries (map Z.of_nat (seq a k)) st))
              = sleeps st ++ backoff a j
       | Some _ =>
           (1 <= j)%nat
           /\ sleeps (snd (retry_loop svc max_retries (map Z.of_nat (seq a k)) st))
              = sleeps st ++ backoff a (j - 1)
       end.
Proof.
  induction k as [|k IH]; intros a st.
  - exists 0%nat. cbn. rewrite app_nil_r. repeat split; lia.
  - cbn [seq map retry_loop]. unfold try_block.
    destruct (svc (calls st)) as [cs|msg].
    + destruct (read_response cs) as [r|e].
      * exists 1%nat. cbn. rewrite app_nil_r. repeat split; lia.
      * destruct (is_timeout e && (Z.of_nat a <? max_retries - 1)%Z).
        -- destruct (IH (S a) {| calls := S (calls st);
                                 sleeps := sleeps st ++ [(2 ^ Z.of_nat a)%Z] |})
             as (j & Hj & Hcalls & Hres).
           exists (S j). cbn [calls sleeps] in *.
           split; [lia|]. split; [lia|].
           destruct (fst (retry_loop _ _ _ _)).
           ++ destruct Hres as [Hone ->]. split; [lia|].
              rewrite <- app_assoc. cbn [app].
              destruct j as [|j]; [lia|]. cbn [Nat.sub]. rewrite Nat.sub_0_r.
              now rewrite backoff_S.
           ++ destruct Hres as [-> ->]. split; [reflexivity|].
              rewrite <- app_assoc. cbn [app]. now rewrite backoff_S.
        -- exists 1%nat. cbn. rewrite app_nil_r. repeat split; lia.
    + destruct (is_timeout msg && (Z.of_nat a <? max_retries - 1)%Z).
      * destruct (IH (S a) {| calls := S (calls st);
                              sleeps := sleeps st ++ [(2 ^ Z.of_nat a)%Z] |})
          as (j & Hj & Hcalls & Hres).
        exists (S j). cbn [calls sleeps] in *.
        split; [lia|]. split; [lia|].
        destruct (fst (retry_loop _ _ _ _)).
        -- destruct Hres as [Hone ->]. split; [lia|].
           rewrite <- app_assoc. cbn [app].
           destruct j as [|j]; [lia|]. cbn [Nat.sub]. rewrite Nat.sub_0_r.
           now rewrite backoff_S.
        -- destruct Hres as [-> ->]. split; [reflexivity|].
           rewrite <- app_assoc. cbn [app]. now rewrite backoff_S.
      * exists 1%nat. cbn. rewrite app_nil_r. repeat split; lia.
Qed.

End RetryAccounting.

(** X1. Whatever the service does and whatever [max_retries] is,
    [make_white_floor] makes at most [max_retries] remote calls, sleeps
    once between two consecutive calls and not after the last, for 1, 2,
    4, ... seconds in this order; the sleeps add up to
    [2 ^ (calls - 1) - 1] seconds. *)
Theorem retry_budget (api_key : option string) (svc : WhiteFloor.service)
    (max_retries : Z) :
  let st := snd (WhiteFloor.make_white_floor api_key svc max_retries) in
  (Z.of_nat (WhiteFloor.calls st) <= Z.max 0 max_retries)%Z
  /\ WhiteFloor.sleeps st = WhiteFloor.backoff 0 (WhiteFloor.calls st - 1)
  /\ fold_right Z.add 0%Z (WhiteFloor.sleeps st)
     = (2 ^ Z.of_nat (WhiteFloor.calls st - 1) - 1)%Z.
Proof.
  cbv zeta. unfold WhiteFloor.make_white_floor.
  destruct (WhiteFloor.get_client api_key) as [key|exn].
  2:{ cbn. repeat split; lia. }
  rewrite range_seq.
  destruct (retry_loop_accounting svc max_retries (Z.to_nat max_retries) 0%nat
              WhiteFloor.initial) as (j & Hj & Hcalls & Hres).
  destruct (Z.to_nat max_retries) as [|k] eqn:Hk.
  - cbn. repeat split; lia.
  - destruct (retry_loop_returns svc (Z.of_nat (S k)) (S k) 0%nat
                WhiteFloor.initial) as (r & st' & Hrun & _); [lia|lia|].
    assert (Hmax : max_retries = Z.of_nat (S k)) by lia.
    rewrite <- Hmax in Hrun. rewrite Hrun in *. cbn [fst snd] in *.
    destruct Hres as [Hone Hsl]. cbn [WhiteFloor.initial WhiteFloor.calls
      WhiteFloor.sleeps Nat.add app] in *.
    rewrite Hcalls. split; [lia|]. split; [exact Hsl|].
    rewrite Hsl, backoff_sum. cbn [Z.of_nat]. lia.
Qed.

(** X2. A response is never retried.  When the calls before call [k] all
    raise timeouts and call [k] answers, with [k] below [max_retries],
    [make_white_floor] returns after [k + 1] calls and [k] sleeps: the
    image of the response if it has one, else the failure
    ["No image data in response"] (or the text of the attribute error
    when the first candidate has no content). *)
Theorem response_ends_the_retries (api_key : option string) (key : string)
    (svc : WhiteFloor.service) (max_retries : Z) (k : nat)
    (candidates : list WhiteFloor.candidate) :
  WhiteFloor.get_client api_key = inl key ->
  (Z.of_nat k < max_retries)%Z ->
  WhiteFloor.timeouts svc 0 k ->
  svc k = WhiteFloor.Responds candidates ->
  WhiteFloor.make_white_floor api_key svc max_retries
  = (WhiteFloor.Returns
       match candidates with
       | [] => WhiteFloor.Failure "No image data in response"
       | c :: _ =>
           match WhiteFloor.content c with
           | None =>
               WhiteFloor.Failure "'NoneType' object has no attribute 'parts'"
           | Some parts =>
               match WhiteFloor.first_image parts with
               | Some image_bytes => WhiteFloor.Success image_bytes
               | None => WhiteFloor.Failure "No image data in response"
               end
           end
       end,
     {| WhiteFloor.calls := S k; WhiteFloor.sleeps := WhiteFloor.backoff 0 k |}).
Proof.
  intros Hkey Hk Ht Hsvc. unfold WhiteFloor.make_white_floor. rewrite Hkey.
  rewrite range_seq.
  replace (Z.to_nat max_retries) with (k + S (Z.to_nat max_retries - S k))%nat
    by lia.
  rewrite seq_app, map_app.
  rewrite retry_loop_timeouts; [|exact Ht|lia].
  cbn [seq map WhiteFloor.retry_loop WhiteFloor.initial Nat.add app
    WhiteFloor.calls WhiteFloor.sleeps].
  unfold WhiteFloor.try_block. cbn [WhiteFloor.calls WhiteFloor.sleeps].
  rewrite Hsvc. unfold WhiteFloor.read_response.
  destruct candidates as [|c cs]; [reflexivity|].
  destruct (WhiteFloor.content c) as [parts|].
  - destruct (WhiteFloor.first_image parts); reflexivity.
  - reflexivity.
Qed.

Lemma response_ends_the_retries_witness :
  WhiteFloor.make_white_floor (Some "key"%string)
    (fun n =>
       match n with
       | 0%nat => WhiteFloor.Fails "upstream timeout"
       | _ => WhiteFloor.Responds []
       end) 3
  = (WhiteFloor.Returns (WhiteFloor.Failure "No image data in response"),
     {| WhiteFloor.calls := 2; WhiteFloor.sleeps := [1]%Z |}).
Proof.
  apply (response_ends_the_retries (Some "key"%string) "key" _ 3 1 []
           eq_refl ltac:(lia)).
  - intros j Hj. exists "upstream timeout"%string.
    destruct j; [split; reflexivity|lia].
  - reflexivity.
Defined.

(** ** File names: stems, suffixes and derived outputs *)

Section FileNames.
Import PyStr RemoveBackground.
Local Open Scope string_scope.

Lemma length_append a b :
  String.length (a ++ b) = (String.length a + String.length b)%nat.
Proof. induction a as [|c a IH]; cbn; [reflexivity|now rewrite IH]. Qed.

Lemma append_assoc a b c : (a ++ b) ++ c = a ++ (b ++ c).
Proof. induction a as [|x a IH]; cbn; [reflexivity|now rewrite IH]. Qed.

Lemma rfind_dot_append a b :
  rfind_dot (a ++ b)
  = match rfind_dot b with
    | Some j => Some (String.length a + j)%nat
    | None => rfind_dot a
    end.
Proof.
  induction a as [|c a IH]; cbn.
  - now destruct (rfind_dot b).
  - rewrite IH. now destruct (rfind_dot b).
Qed.

Lemma substring_all s : substring 0 (String.length s) s = s.
Proof. induction s as [|c s IH]; cbn; [reflexivity|now rewrite IH]. Qed.

Lemma substring_prefix a b : substring 0 (String.length a) (a ++ b) = a.
Proof.
  induction a as [|c a IH]; cbn.
  - now destruct b.
  - now rewrite IH.
Qed.

Lemma substring_suffix a b :
  substring (String.length a) (String.length b) (a ++ b) = b.
Proof.
  induction a as [|c a IH]; cbn; [apply substring_all|exact IH].
Qed.

Lemma endswith_append a sfx : endswith (a ++ sfx) sfx = true.
Proof.
  unfold endswith. rewrite length_append.
  replace (String.length sfx <=? String.length a + String.length sfx)%nat
    with true by (symmetry; apply Nat.leb_le; lia).
  replace (String.length a + String.length sfx - String.length sfx)%nat
    with (String.length a) by lia.
  rewrite substring_suffix. cbn. apply String.eqb_refl.
Qed.

(** A name is cut at its last dot: before it the stem, from it on the
    suffix, which holds no other dot. *)
Lemma rfind_dot_Some s : forall i,
  rfind_dot s = Some i ->
  exists pre post,
    s = pre ++ String "." post /\ String.length pre = i
    /\ rfind_dot post = None.
Proof.
  induction s as [|c s IH]; intros i Hi; cbn in Hi; [discriminate|].
  destruct (rfind_dot s) as [j|] eqn:Hs.
  - injection Hi as <-. destruct (IH j eq_refl) as (pre & post & -> & <- & Hp).
    now exists (String c pre), post.
  - destruct (Ascii.eqb c ".") eqn:Hc; [|discriminate].
    injection Hi as <-. apply Ascii.eqb_eq in Hc. subst c.
    now exists "", s.
Qed.

Lemma cut_point_Some name i :
  cut_point name = Some i ->
  exists pre post,
    name = pre ++ String "." post
    /\ stem name = pre /\ suffix name = String "." post
    /\ rfind_dot post = None /\ pre <> "" /\ post <> "".
Proof.
  intros Hcut. assert (Hcut' := Hcut). unfold cut_point in Hcut.
  destruct (rfind_dot name) as [j|] eqn:Hj; [|discriminate].
  destruct ((0 <? j) && (j <? String.length name - 1))%nat eqn:Hb;
    [|discriminate].
  injection Hcut as <-. apply andb_prop in Hb as [H0 H1].
  apply Nat.ltb_lt in H0, H1.
  destruct (rfind_dot_Some name j Hj) as (pre & post & Hname & Hlen & Hpost).
  exists pre, post. unfold stem, suffix. rewrite Hcut'.
  assert (Hl : String.length name = (j + S (String.length post))%nat)
    by (rewrite Hname, length_append; cbn; lia).
  split; [exact Hname|]. split; [|split; [|split; [exact Hpost|split]]].
  - rewrite Hname, <- Hlen. apply substring_prefix.
  - replace (String.length name - j)%nat with (String.length (String "." post))
      by (cbn; lia).
    rewrite Hname, <- Hlen. apply substring_suffix.
  - intros ->. cbn in Hlen. lia.
  - intros ->. cbn in Hl. lia.
Qed.

Lemma cut_point_None name :
  cut_point name = None -> stem name = name /\ suffix name = "".
Proof. intros Hcut. unfold stem, suffix. now rewrite Hcut. Qed.

(** The other way round: a stem, a dot and an extension without dots. *)
Lemma stem_of_parts pre post :
  pre <> "" -> post <> "" -> rfind_dot post = None ->
  stem (pre ++ String "." post) = pre
  /\ suffix (pre ++ String "." post) = String "." post.
Proof.
  intros Hpre Hpost Hdot.
  assert (Hr : rfind_dot (pre ++ String "." post) = Some (String.length pre)).
  { rewrite rfind_dot_append. cbn. rewrite Hdot. cbn. f_equal. lia. }
  assert (Hc : cut_point (pre ++ String "." post) = Some (String.length pre)).
  { unfold cut_point. rewrite Hr, length_append. cbn [String.length].
    destruct pre as [|c pre]; [contradiction|].
    destruct post as [|c' post]; [contradiction|]. cbn [String.length].
    replace ((0 <? S (String.length pre))%nat) with true
      by (symmetry; apply Nat.ltb_lt; lia).
    now replace (S (String.length pre) <?
                 S (String.length pre) + S (S (String.length post)) - 1)%nat
      with true by (symmetry; apply Nat.ltb_lt; lia). }
  unfold stem, suffix. rewrite Hc. split.
  - apply substring_prefix.
  - rewrite length_append.
    replace (String.length pre + String.length (String "." post)
             - String.length pre)%nat
      with (String.length (String "." post)) by lia.
    apply substring_suffix.
Qed.

Lemma path_exists_app (d d' : directory) p :
  path_exists (d ++ d')%list p = path_exists d p || path_exists d' p.
Proof. unfold path_exists. now rewrite map_app, existsb_app. Qed.

End FileNames.

(** ** remove_background: running the batch again *)

Section BackgroundRerun.
Import PyStr RemoveBackground.

Variable target_format : string.
Hypothesis format_plain : rfind_dot target_format = None.
Hypothesis format_given : target_format <> EmptyString.

Lemma append_not_empty a b : b <> EmptyString -> (a ++ b)%string <> EmptyString.
Proof. destruct a; [now cbn|discriminate]. Qed.

(** A derived output is no input of the batch. *)
Lemma out_file_not_candidate f flag :
  is_candidate (out_file target_format f, flag) = false.
Proof.
  unfold is_candidate, out_file. cbn [fst snd].
  replace (stem f ++ "_fg." ++ target_format)%string
    with ((stem f ++ "_fg") ++ String "." target_format)%string
    by (now rewrite append_assoc).
  destruct (stem_of_parts (stem f ++ "_fg") target_format) as [-> _];
    [now apply append_not_empty|exact format_given|exact format_plain|].
  rewrite endswith_append. cbn [orb negb]. now rewrite andb_false_r.
Qed.

(** The files a run adds are derived outputs, and the output of every file
    that was not in error is there at the end. *)
Lemma batch_outputs svc files : forall st acc,
  (forall f, In f files -> path_exists (disk st) f = true) ->
  exists new added,
    fst (batch svc target_format files st acc) = acc ++ new
    /\ map file new = files
    /\ disk (snd (batch svc target_format files st acc))
       = disk st ++ map (fun n => (n, true)) added
    /\ (forall n, In n added -> exists f, n = out_file target_format f)
    /\ (forall r, In r new -> (forall msg, outcome r <> Errored msg) ->
          path_exists (disk (snd (batch svc target_format files st acc)))
            (out_file target_format (file r)) = true).
Proof.
  induction files as [|f rest IH]; intros st acc Hex.
  - exists [], []. cbn. rewrite !app_nil_r. repeat split; try contradiction.
  - cbn [batch].
    destruct (path_exists (disk st) (out_file target_format f)) eqn:Hout.
    + destruct (IH st (acc ++ [{| file := f; outcome := Skipped |}]))
        as (new & added & Hres & Hf & Hd & Ha & Hp);
        [intros; apply Hex; now right|].
      exists ({| file := f; outcome := Skipped |} :: new), added.
      rewrite Hres, <- app_assoc. split; [reflexivity|].
      split; [cbn; now rewrite Hf|]. split; [exact Hd|]. split; [exact Ha|].
      intros r [<-|Hr] Hplain; [|now apply Hp].
      cbn [file]. rewrite Hd, path_exists_app, Hout. reflexivity.
    + unfold remove_background. rewrite (Hex f (or_introl eq_refl)).
      cbn [negb].
      destruct (svc (List.length (sent st)) f) as [bytes|e].
      * set (st1 := {| disk := write_bytes (disk st) (out_file target_format f);
                       sent := sent st ++ [f] |}).
        destruct (IH st1 (acc ++ [{| file := f;
                    outcome := Succeeded (out_file target_format f) |}]))
          as (new & added & Hres & Hf & Hd & Ha & Hp).
        { intros g Hg. cbn. apply write_bytes_keeps, Hex. now right. }
        exists ({| file := f; outcome := Succeeded (out_file target_format f) |}
                  :: new), (out_file target_format f :: added).
        cbn [disk sent] in *. fold st1. rewrite Hres, <- app_assoc.
        split; [reflexivity|]. split; [cbn; now rewrite Hf|].
        assert (Hw : write_bytes (disk st) (out_file target_format f)
                     = disk st ++ [(out_file target_format f, true)])
          by (unfold write_bytes; now rewrite Hout).
        split; [rewrite Hd; cbn [disk st1]; rewrite Hw, <- app_assoc;
                reflexivity|].
        split.
        { intros n [<-|Hn]; [now exists f|now apply Ha]. }
        intros r [<-|Hr] Hplain; [|now apply Hp].
        cbn [file]. rewrite Hd, path_exists_app. cbn [disk st1].
        rewrite Hw, path_exists_app. unfold path_exists at 2. cbn.
        now rewrite String.eqb_refl, orb_true_r.
      * set (st1 := {| disk := disk st; sent := sent st ++ [f] |}).
        destruct (IH st1 (acc ++ [{| file := f;
                    outcome := Errored (error_text e) |}]))
          as (new & added & Hres & Hf & Hd & Ha & Hp).
        { intros g Hg. cbn. apply Hex. now right. }
        exists ({| file := f; outcome := Errored (error_text e) |} :: new), added.
        fold st1. rewrite Hres, <- app_assoc. split; [reflexivity|].
        split; [cbn; now rewrite Hf|]. split; [exact Hd|]. split; [exact Ha|].
        intros r [<-|Hr] Hplain; [|now apply Hp].
        exfalso. now apply (Hplain (error_text e)).
Qed.

(** When every output is there, the loop only skips. *)
Lemma batch_all_skipped svc files : forall st acc,
  (forall f, In f files ->
     path_exists (disk st) (out_file target_format f) = true) ->
  batch svc target_format files st acc
  = (acc ++ map (fun f => {| file := f; outcome := Skipped |}) files, st).
Proof.
  induction files as [|f rest IH]; intros st acc Hex; cbn [batch map].
  - now rewrite app_nil_r.
  - rewrite (Hex f (or_introl eq_refl)). rewrite IH.
    + now rewrite <- app_assoc.
    + intros g Hg. apply Hex. now right.
Qed.

Lemma image_files_app d d' :
  image_files (d ++ d') = image_files d ++ image_files d'.
Proof. unfold image_files. now rewrite List.filter_app, map_app. Qed.

Lemma image_files_added added :
  (forall n, In n added -> exists f, n = out_file target_format f) ->
  image_files (map (fun n => (n, true)) added) = [].
Proof.
  induction added as [|n added IH]; intros Hall; [reflexivity|].
  unfold image_files in *. cbn [map List.filter].
  destruct (Hall n (or_introl eq_refl)) as [f ->].
  rewrite out_file_not_candidate. apply IH. intros m Hm. apply Hall. now right.
Qed.

End BackgroundRerun.

(** X3. Running [process_directory] again after a run without errors
    does nothing: for an output format without a dot (png, jpg), the
    outputs of the first run are no candidates of the second (their stems
    end in [_fg]), every candidate's output is in place, so the second run
    makes no remote call, skips every file and leaves the directory as the
    first run left it. *)
Theorem rerun_skips_everything (svc svc' : RemoveBackground.remote)
    (d : RemoveBackground.directory) (format : option string)
    (results : list RemoveBackground.record) (st : RemoveBackground.state) :
  PyStr.rfind_dot (default "png"%string format) = None ->
  default "png"%string format <> EmptyString ->
  RemoveBackground.process_directory svc (Some d) format = inl (results, st) ->
  (forall r msg, In r results ->
     RemoveBackground.outcome r <> RemoveBackground.Errored msg) ->
  RemoveBackground.image_files (RemoveBackground.disk st)
  = RemoveBackground.image_files d
  /\ RemoveBackground.process_directory svc' (Some (RemoveBackground.disk st))
       format
     = inl (map (fun f => {| RemoveBackground.file := f;
                             RemoveBackground.outcome := RemoveBackground.Skipped |})
              (RemoveBackground.image_files d),
            {| RemoveBackground.disk := RemoveBackground.disk st;
               RemoveBackground.sent := [] |}).
Proof.
  intros Hplain Hgiven Hrun Hok.
  unfold RemoveBackground.process_directory in *.
  set (t := default "png"%string format) in *.
  set (st0 := {| RemoveBackground.disk := d; RemoveBackground.sent := [] |}) in *.
  destruct (batch_outputs t svc (RemoveBackground.image_files d) st0 [])
    as (new & added & Hres & Hf & Hd & Ha & Hp).
  { intros f Hf. now apply image_files_exist. }
  injection Hrun as Hrun. rewrite Hrun in *. cbn [fst snd app] in *.
  subst new. cbn [RemoveBackground.disk st0] in Hd.
  assert (Hfiles : RemoveBackground.image_files (RemoveBackground.disk st)
                   = RemoveBackground.image_files d).
  { rewrite Hd, image_files_app, (image_files_added t Hplain Hgiven added Ha).
    apply app_nil_r. }
  split; [exact Hfiles|]. rewrite Hfiles.
  rewrite (batch_all_skipped t); [reflexivity|].
  intros f Hin. cbn [RemoveBackground.disk].
  rewrite <- Hf in Hin. apply in_map_iff in Hin as (r & <- & Hr).
  apply Hp; [exact Hr|]. intros msg. now apply Hok.
Qed.

Lemma rerun_skips_everything_witness :
  RemoveBackground.process_directory (fun _ _ => inr {| RemoveBackground.exn_class := "E"; RemoveBackground.exn_text := "" |})
    (Some [("a.jpg", true); ("a_fg.png", true)]%string) None
  = inl ([{| RemoveBackground.file := "a.jpg"%string;
             RemoveBackground.outcome := RemoveBackground.Skipped |}],
         {| RemoveBackground.disk := [("a.jpg", true); ("a_fg.png", true)]%string;
            RemoveBackground.sent := [] |}).
Proof.
  refine (proj2 (rerun_skips_everything (fun _ _ => inl [])
            (fun _ _ => inr {| RemoveBackground.exn_class := "E";
                               RemoveBackground.exn_text := "" |})
            [("a.jpg", true)]%string None
            [{| RemoveBackground.file := "a.jpg"%string;
                RemoveBackground.outcome := RemoveBackground.Succeeded "a_fg.png" |}]
            {| RemoveBackground.disk := [("a.jpg", true); ("a_fg.png", true)]%string;
               RemoveBackground.sent := ["a.jpg"%string] |}
            eq_refl _ eq_refl _)).
  - discriminate.
  - intros r msg [<-|[]]. discriminate.
Defined.

(** ** make_white_floor: the directory batch *)

Section WhiteFloorDirectory.
Import PyStr WhiteFloorBatch.

Lemma make_white_floor_calls key service max_retries :
  (WhiteFloor.calls (snd (WhiteFloor.make_white_floor key service max_retries))
   <= Z.to_nat max_retries)%nat.
Proof.
  unfold WhiteFloor.make_white_floor.
  destruct (WhiteFloor.get_client key); [|apply Nat.le_0_l].
  rewrite range_seq.
  destruct (retry_loop_accounting service max_retries (Z.to_nat max_retries)
              0%nat WhiteFloor.initial) as (j & Hj & Hcalls & _).
  destruct (WhiteFloor.retry_loop _ _ _ _) as [[r|] st'] eqn:Hrun;
    cbn in *; rewrite Hcalls; exact Hj.
Qed.

Lemma white_floor_state w st :
  disk (snd (white_floor w st)) = disk st
  /\ (calls st <= calls (snd (white_floor w st)) <= calls st + 3)%nat.
Proof.
  unfold white_floor.
  pose proof (make_white_floor_calls (api_key w)
                (fun n => svc w (calls st + n)%nat)
                WhiteFloor.max_retries_default) as Hc.
  change (Z.to_nat WhiteFloor.max_retries_default) with 3%nat in Hc.
  destruct (WhiteFloor.make_white_floor _ _ _) as [c used] eqn:Hrun.
  cbn [snd disk calls] in *. split; [reflexivity|lia].
Qed.

(** A candidate has a suffix, so its output is its stem, [_wf], a dot and
    an extension: no candidate of a later run. *)
Lemma output_path_not_candidate f flag flag' :
  is_candidate (f, flag) = true ->
  is_candidate (output_path f, flag') = false.
Proof.
  unfold is_candidate at 1. cbn [fst snd]. intros Hc.
  apply andb_prop in Hc as [Hc _]. apply andb_prop in Hc as [_ Hext].
  destruct (RemoveBackground.cut_point f) as [i|] eqn:Hcut.
  2:{ apply cut_point_None in Hcut as [_ Hs]. rewrite Hs in Hext. discriminate. }
  apply cut_point_Some in Hcut
    as (pre & post & _ & Hstem & Hsuffix & Hdot & _ & Hpost).
  unfold is_candidate, output_path. cbn [fst snd]. rewrite Hstem, Hsuffix.
  replace (pre ++ "_wf" ++ String "." post)%string
    with ((pre ++ "_wf") ++ String "." post)%string
    by (now rewrite append_assoc).
  destruct (stem_of_parts (pre ++ "_wf") post) as [-> _];
    [now apply append_not_empty|exact Hpost|exact Hdot|].
  rewrite endswith_append, orb_true_r. cbn [negb]. now rewrite andb_false_r.
Qed.

Lemma wf_image_files_In d f :
  In f (image_files d) -> exists flag, is_candidate (f, flag) = true.
Proof.
  unfold image_files. rewrite in_map_iff. intros ([g flag] & <- & Hin).
  apply filter_In in Hin as [_ Hc]. now exists flag.
Qed.

Variable w : world.

(** What the loop does to the state and the counters. *)
Lemma wf_batch_spec files : forall st t,
  exists added,
    let st' := fst (batch w files st t) in
    let t' := snd (batch w files st t) in
    (processed t' + skipped t' + errors t'
     = processed t + skipped t + errors t + List.length files)%nat
    /\ (processed t <= processed t' /\ skipped t <= skipped t'
        /\ errors t <= errors t')%nat
    /\ disk st' = disk st ++ map (fun n => (n, true)) added
    /\ List.length added = (processed t' - processed t)%nat
    /\ (forall n, In n added -> exists f, In f files /\ n = output_path f)
    /\ (calls st <= calls st'
        <= calls st + 3 * ((processed t' - processed t)
                           + (errors t' - errors t)))%nat
    /\ (errors t' = errors t ->
        forall f, In f files ->
          RemoveBackground.path_exists (disk st') (output_path f) = true).
Proof.
  induction files as [|f rest IH]; intros st t.
  - exists []. cbn. rewrite app_nil_r.
    repeat split; try lia; try (intros; contradiction).
  - cbn [batch].
    destruct (RemoveBackground.path_exists (disk st) (output_path f)) eqn:Hout.
    + destruct (IH st {| processed := processed t; skipped := S (skipped t);
                         errors := errors t |})
        as (added & Hsum & Hmono & Hd & Hlen & Ha & Hcalls & Hok).
      exists added. cbn [processed skipped errors] in *.
      split; [cbn [List.length]; lia|]. split; [lia|]. split; [exact Hd|].
      split; [exact Hlen|].
      split; [intros n Hn; destruct (Ha n Hn) as (g & Hg & ->);
              exists g; split; [now right|reflexivity]|].
      split; [exact Hcalls|].
      intros He g [<-|Hg]; [|now apply Hok].
      rewrite Hd, path_exists_app, Hout. reflexivity.
    + destruct (negb (readable w f)).
      * destruct (IH st {| processed := processed t; skipped := skipped t;
                           errors := S (errors t) |})
          as (added & Hsum & Hmono & Hd & Hlen & Ha & Hcalls & Hok).
        exists added. cbn [processed skipped errors] in *.
        split; [cbn [List.length]; lia|]. split; [lia|]. split; [exact Hd|].
        split; [exact Hlen|].
        split; [intros n Hn; destruct (Ha n Hn) as (g & Hg & ->);
                exists g; split; [now right|reflexivity]|].
        split; [lia|]. intros He. lia.
      * destruct (white_floor_state w st) as [Hdisk Hc].
        destruct (white_floor w st) as [[[image_bytes|error]|exn] st1];
          cbn [snd] in Hdisk, Hc.
        -- destruct (IH {| disk := RemoveBackground.write_bytes (disk st1)
                                     (output_path f);
                           calls := calls st1; sleeps := sleeps st1 |}
                        {| processed := S (processed t); skipped := skipped t;
                           errors := errors t |})
             as (added & Hsum & Hmono & Hd & Hlen & Ha & Hcalls & Hok).
           exists (output_path f :: added).
           cbn [processed skipped errors disk calls] in *.
           assert (Hw : RemoveBackground.write_bytes (disk st1) (output_path f)
                        = disk st ++ [(output_path f, true)])
             by (unfold RemoveBackground.write_bytes; rewrite Hdisk, Hout;
                 reflexivity).
           split; [cbn [List.length]; lia|]. split; [lia|].
           split; [rewrite Hd, Hw, <- app_assoc; reflexivity|].
           split; [cbn [List.length]; lia|].
           split.
           { intros n [<-|Hn]; [exists f; split; [now left|reflexivity]|].
             destruct (Ha n Hn) as (g & Hg & ->).
             exists g. split; [now right|reflexivity]. }
           split; [lia|].
           intros He g [<-|Hg]; [|now apply Hok].
           rewrite Hd, Hw, !path_exists_app.
           unfold RemoveBackground.path_exists at 2. cbn.
           now rewrite String.eqb_refl, orb_true_r.
        -- destruct (IH st1 {| processed := processed t; skipped := skipped t;
                               errors := S (errors t) |})
             as (added & Hsum & Hmono & Hd & Hlen & Ha & Hcalls & Hok).
           exists added. cbn [processed skipped errors] in *.
           split; [cbn [List.length]; lia|]. split; [lia|].
           split; [now rewrite Hd, Hdisk|]. split; [exact Hlen|].
           split; [intros n Hn; destruct (Ha n Hn) as (g & Hg & ->);
                   exists g; split; [now right|reflexivity]|].
           split; [lia|]. intros He. lia.
        -- destruct (IH st1 {| processed := processed t; skipped := skipped t;
                               errors := S (errors t) |})
             as (added & Hsum & Hmono & Hd & Hlen & Ha & Hcalls & Hok).
           exists added. cbn [processed skipped errors] in *.
           split; [cbn [List.length]; lia|]. split; [lia|].
           split; [now rewrite Hd, Hdisk|]. split; [exact Hlen|].
           split; [intros n Hn; destruct (Ha n Hn) as (g & Hg & ->);
                   exists g; split; [now right|reflexivity]|].
           split; [lia|]. intros He. lia.
Qed.

(** When every output is there, the loop only counts skips. *)
Lemma wf_batch_all_skipped files : forall st t,
  (forall f, In f files ->
     RemoveBackground.path_exists (disk st) (output_path f) = true) ->
  batch w files st t
  = (st, {| processed := processed t;
            skipped := (skipped t + List.length files)%nat;
            errors := errors t |}).
Proof.
  induction files as [|f rest IH]; intros st t Hex; cbn [batch List.length].
  - rewrite Nat.add_0_r. now destruct t.
  - rewrite (Hex f (or_introl eq_refl)). rewrite IH.
    + cbn [processed skipped errors]. do 2 f_equal. lia.
    + intros g Hg. apply Hex. now right.
Qed.

Lemma wf_image_files_app d d' :
  image_files (d ++ d') = image_files d ++ image_files d'.
Proof. unfold image_files. now rewrite List.filter_app, map_app. Qed.

Lemma wf_image_files_added files added :
  (forall f, In f files -> exists flag, is_candidate (f, flag) = true) ->
  (forall n, In n added -> exists f, In f files /\ n = output_path f) ->
  image_files (map (fun n => (n, true)) added) = [].
Proof.
  intros Hfiles. induction added as [|n added IH]; intros Hall; [reflexivity|].
  unfold image_files in *. cbn [map List.filter].
  destruct (Hall n (or_introl eq_refl)) as (f & Hf & ->).
  destruct (Hfiles f Hf) as [flag Hflag].
  rewrite (output_path_not_candidate f flag true Hflag).
  apply IH. intros m Hm. apply Hall. now right.
Qed.

End WhiteFloorDirectory.

(** X4. [process_directory] of the white-floor client accounts for every
    candidate: the files processed, skipped and in error add up to the
    candidates, the value returned is the number in error, at most three
    remote calls are made for each file processed or in error, and the
    directory only gains one output [<stem>_wf<suffix>] per file
    processed. *)
Theorem white_floor_directory_tally (w : WhiteFloorBatch.world)
    (d : RemoveBackground.directory) :
  let code := fst (fst (WhiteFloorBatch.process_directory w (Some d))) in
  let st := snd (fst (WhiteFloorBatch.process_directory w (Some d))) in
  let t := snd (WhiteFloorBatch.process_directory w (Some d)) in
  code = Z.of_nat (WhiteFloorBatch.errors t)
  /\ (WhiteFloorBatch.processed t + WhiteFloorBatch.skipped t
      + WhiteFloorBatch.errors t
      = List.length (WhiteFloorBatch.image_files d))%nat
  /\ (WhiteFloorBatch.calls st
      <= 3 * (WhiteFloorBatch.processed t + WhiteFloorBatch.errors t))%nat
  /\ exists added,
       WhiteFloorBatch.disk st = d ++ map (fun n => (n, true)) added
       /\ List.length added = WhiteFloorBatch.processed t
       /\ forall n, In n added ->
            exists f, In f (WhiteFloorBatch.image_files d)
                      /\ n = WhiteFloorBatch.output_path f.
Proof.
  cbv zeta. unfold WhiteFloorBatch.process_directory.
  destruct (WhiteFloorBatch.image_files d) as [|f files] eqn:Hfiles.
  - cbn. repeat split; try lia. exists []. cbn. rewrite app_nil_r.
    repeat split. intros n [].
  - destruct (wf_batch_spec w (f :: files)
                {| WhiteFloorBatch.disk := d; WhiteFloorBatch.calls := 0;
                   WhiteFloorBatch.sleeps := [] |} WhiteFloorBatch.no_tally)
      as (added & Hsum & Hmono & Hd & Hlen & Ha & Hcalls & _).
    destruct (WhiteFloorBatch.batch w (f :: files) _ _) as [st t].
    cbn [fst snd WhiteFloorBatch.no_tally WhiteFloorBatch.processed
         WhiteFloorBatch.skipped WhiteFloorBatch.errors WhiteFloorBatch.disk
         WhiteFloorBatch.calls] in *.
    split; [reflexivity|]. split; [lia|]. split; [lia|].
    exists added. split; [exact Hd|]. split; [lia|exact Ha].
Qed.

(** X5. After a run of the white-floor batch that returned 0, a second
    run on the directory as the first left it, whatever the service and
    the key then are, makes no remote call, writes nothing and returns 0:
    the outputs of the first run are no candidates (their stems end in
    [_wf]) and every candidate's output is in place. *)
Theorem white_floor_rerun (w w' : WhiteFloorBatch.world)
    (d : RemoveBackground.directory) :
  fst (fst (WhiteFloorBatch.process_directory w (Some d))) = 0%Z ->
  let left := WhiteFloorBatch.disk
                (snd (fst (WhiteFloorBatch.process_directory w (Some d)))) in
  WhiteFloorBatch.image_files left = WhiteFloorBatch.image_files d
  /\ WhiteFloorBatch.process_directory w' (Some left)
     = (0%Z,
        {| WhiteFloorBatch.disk := left; WhiteFloorBatch.calls := 0;
           WhiteFloorBatch.sleeps := [] |},
        {| WhiteFloorBatch.processed := 0;
           WhiteFloorBatch.skipped :=
             List.length (WhiteFloorBatch.image_files d);
           WhiteFloorBatch.errors := 0 |}).
Proof.
  cbv zeta.
  remember (WhiteFloorBatch.process_directory w (Some d)) as r eqn:Hr.
  unfold WhiteFloorBatch.process_directory in Hr.
  destruct (WhiteFloorBatch.image_files d) as [|f files] eqn:Hfiles.
  - subst r. cbn [fst snd WhiteFloorBatch.disk]. intros _.
    split; [exact Hfiles|].
    unfold WhiteFloorBatch.process_directory. now rewrite Hfiles.
  - destruct (wf_batch_spec w (f :: files)
                {| WhiteFloorBatch.disk := d; WhiteFloorBatch.calls := 0;
                   WhiteFloorBatch.sleeps := [] |} WhiteFloorBatch.no_tally)
      as (added & _ & _ & Hd & _ & Ha & _ & Hok).
    destruct (WhiteFloorBatch.batch w (f :: files) _ _) as [st t].
    subst r.
    cbn [fst snd WhiteFloorBatch.no_tally WhiteFloorBatch.errors
         WhiteFloorBatch.disk] in *.
    intros Hzero.
    assert (He : WhiteFloorBatch.errors t = 0%nat) by lia.
    specialize (Hok He).
    assert (Hsame : WhiteFloorBatch.image_files (WhiteFloorBatch.disk st)
                    = f :: files).
    { rewrite Hd, wf_image_files_app, Hfiles.
      rewrite (wf_image_files_added (f :: files) added); [apply app_nil_r| |exact Ha].
      intros g Hg. apply (wf_image_files_In d). now rewrite Hfiles. }
    split; [exact Hsame|].
    unfold WhiteFloorBatch.process_directory. rewrite Hsame.
    rewrite wf_batch_all_skipped; [reflexivity|].
    intros g Hg. cbn [WhiteFloorBatch.disk]. now apply Hok.
Qed.

Lemma white_floor_rerun_witness :
  WhiteFloorBatch.process_directory
    {| WhiteFloorBatch.api_key := None;
       WhiteFloorBatch.svc := fun _ => WhiteFloor.Fails "down";
       WhiteFloorBatch.readable := fun _ => false |}
    (Some [("room.JPG", true); ("room_wf.JPG", true)]%string)
  = (0%Z,
     {| WhiteFloorBatch.disk := [("room.JPG", true); ("room_wf.JPG", true)]%string;
        WhiteFloorBatch.calls := 0; WhiteFloorBatch.sleeps := [] |},
     {| WhiteFloorBatch.processed := 0; WhiteFloorBatch.skipped := 1;
        WhiteFloorBatch.errors := 0 |}).
Proof.
  exact (proj2 (white_floor_rerun
    {| WhiteFloorBatch.api_key := Some "key"%string;
       WhiteFloorBatch.svc := fun _ =>
         WhiteFloor.Responds
           [{| WhiteFloor.content :=
                 Some [{| WhiteFloor.inline_data := Some [Byte.x89] |}] |}];
       WhiteFloorBatch.readable := fun _ => true |}
    {| WhiteFloorBatch.api_key := None;
       WhiteFloorBatch.svc := fun _ => WhiteFloor.Fails "down";
       WhiteFloorBatch.readable := fun _ => false |}
    [("room.JPG", true)]%string eq_refl)).
Defined.

(** ** make_white_floor: a missing key *)

Section MissingKey.
Import WhiteFloorBatch.

Variable w : world.
Variable exn : string.
Hypothesis no_key : WhiteFloor.get_client (api_key w) = inr exn.

Lemma white_floor_no_key st :
  white_floor w st = (WhiteFloor.Raised exn, st).
Proof.
  unfold white_floor, WhiteFloor.make_white_floor. rewrite no_key.
  cbn. rewrite Nat.add_0_r, app_nil_r. now destruct st.
Qed.

Lemma batch_no_key files : forall st t,
  fst (batch w files st t) = st
  /\ processed (snd (batch w files st t)) = processed t.
Proof.
  induction files as [|f rest IH]; intros st t; cbn [batch]; [now split|].
  destruct (RemoveBackground.path_exists (disk st) (output_path f));
    [exact (IH st _)|].
  destruct (negb (readable w f)); [exact (IH st _)|].
  rewrite white_floor_no_key. exact (IH st _).
Qed.

End MissingKey.

(** X6. Without an API key the directory batch of the white-floor client
    makes no remote call and writes no file: each candidate is skipped or
    counted as an error, the error caught per file.  The single-file mode
    has no handler: for a readable input whose output is not there, the
    error about the key escapes from [main]. *)
Theorem missing_key_is_caught_per_file (w : WhiteFloorBatch.world)
    (exn : string) (d : RemoveBackground.directory) (name : string)
    (output : option string) :
  WhiteFloor.get_client (WhiteFloorBatch.api_key w) = inr exn ->
  (let st := snd (fst (WhiteFloorBatch.process_directory w (Some d))) in
   let t := snd (WhiteFloorBatch.process_directory w (Some d)) in
   st = {| WhiteFloorBatch.disk := d; WhiteFloorBatch.calls := 0;
           WhiteFloorBatch.sleeps := [] |}
   /\ WhiteFloorBatch.processed t = 0%nat
   /\ (WhiteFloorBatch.skipped t + WhiteFloorBatch.errors t
       = List.length (WhiteFloorBatch.image_files d))%nat)
  /\ (WhiteFloorBatch.readable w name = true ->
      RemoveBackground.path_exists d
        match output with
        | Some (String c s) => String c s
        | _ => WhiteFloorBatch.output_path name
        end = false ->
      WhiteFloorBatch.main w (WhiteFloorBatch.Image d name) output
      = (WhiteFloorBatch.Uncaught exn,
         {| WhiteFloorBatch.disk := d; WhiteFloorBatch.calls := 0;
            WhiteFloorBatch.sleeps := [] |})).
Proof.
  intros Hkey. split.
  - cbv zeta.
    unfold WhiteFloorBatch.process_directory.
    destruct (WhiteFloorBatch.image_files d) as [|f files] eqn:Hfiles.
    + cbn. repeat split.
    + destruct (batch_no_key w exn Hkey (f :: files)
                  {| WhiteFloorBatch.disk := d; WhiteFloorBatch.calls := 0;
                     WhiteFloorBatch.sleeps := [] |} WhiteFloorBatch.no_tally)
        as [Hst Hp].
      destruct (wf_batch_spec w (f :: files)
                  {| WhiteFloorBatch.disk := d; WhiteFloorBatch.calls := 0;
                     WhiteFloorBatch.sleeps := [] |} WhiteFloorBatch.no_tally)
        as (added & Hsum & _).
      destruct (WhiteFloorBatch.batch w (f :: files) _ _) as [st t].
      cbn [fst snd WhiteFloorBatch.no_tally WhiteFloorBatch.processed
           WhiteFloorBatch.skipped WhiteFloorBatch.errors] in *.
      split; [exact Hst|]. split; [exact Hp|]. lia.
  - intros Hread Hout. unfold WhiteFloorBatch.main.
    rewrite Hread. cbn [negb]. rewrite Hout.
    now rewrite (white_floor_no_key w exn Hkey).
Qed.

Lemma missing_key_is_caught_per_file_witness :
  WhiteFloorBatch.main
    {| WhiteFloorBatch.api_key := None;
       WhiteFloorBatch.svc := fun _ => WhiteFloor.Fails "down";
       WhiteFloorBatch.readable := fun _ => true |}
    (WhiteFloorBatch.Image [("room.png", true)]%string "room.png") None
  = (WhiteFloorBatch.Uncaught "GOOGLE_API_KEY not found in .env file",
     {| WhiteFloorBatch.disk := [("room.png", true)]%string;
        WhiteFloorBatch.calls := 0; WhiteFloorBatch.sleeps := [] |}).
Proof.
  exact (proj2 (missing_key_is_caught_per_file
    {| WhiteFloorBatch.api_key := None;
       WhiteFloorBatch.svc := fun _ => WhiteFloor.Fails "down";
       WhiteFloorBatch.readable := fun _ => true |}
    "GOOGLE_API_KEY not found in .env file"
    [("room.png", true)]%string "room.png" None eq_refl) eq_refl eq_refl).
Defined.

(** ** render: the seam mask *)

Section SeamMask.
Import PyReal Render Seam.

Lemma getpixel_rectangle x0 y0 x1 y1 fill m m' x y :
  rectangle x0 y0 x1 y1 fill m = Some m' ->
  getpixel m' x y
  = (fun v => if ((x0 <=? Z.of_nat x) && (Z.of_nat x <=? x1)
                  && (y0 <=? Z.of_nat y) && (Z.of_nat y <=? y1))%Z
              then fill else v) <$> getpixel m x y.
Proof.
  unfold rectangle. destruct ((x1 <? x0) || (y1 <? y0))%Z; [discriminate|].
  intros [= <-]. unfold getpixel. rewrite list_lookup_imap.
  destruct (m !! y) as [row|]; cbn; [|reflexivity].
  now rewrite list_lookup_imap.
Qed.

Lemma rectangle_if_spec cond x0 y0 x1 y1 m :
  (cond = true -> (x0 <= x1)%Z /\ (y0 <= y1)%Z) ->
  exists m', rectangle_if cond x0 y0 x1 y1 m = Some m'
    /\ forall x y,
         getpixel m' x y
         = (fun v => if cond && ((x0 <=? Z.of_nat x) && (Z.of_nat x <=? x1)
                                 && (y0 <=? Z.of_nat y) && (Z.of_nat y <=? y1))%Z
                     then 255%Z else v) <$> getpixel m x y.
Proof.
  intros Hbox. unfold rectangle_if. destruct cond.
  - destruct (Hbox eq_refl) as [Hx Hy].
    destruct (rectangle x0 y0 x1 y1 255 m) as [m'|] eqn:Hr.
    + exists m'. split; [reflexivity|]. intros x y. cbn [andb].
      now apply getpixel_rectangle.
    + exfalso. unfold rectangle in Hr.
      destruct (Z.ltb_spec x1 x0); [lia|]. destruct (Z.ltb_spec y1 y0); [lia|].
      discriminate.
  - exists m. split; [reflexivity|]. intros x y. cbn [andb].
    now destruct (getpixel m x y).
Qed.

Lemma seam_mask_band width height inset thickness :
  (0 <= inset)%Z -> (1 <= thickness)%Z ->
  (2 * inset + thickness <= width)%Z -> (2 * inset + thickness <= height)%Z ->
  exists m,
    create_rectangular_seam_mask (width, height) inset thickness = Some m
    /\ forall x y, (x < Z.to_nat width)%nat -> (y < Z.to_nat height)%nat ->
         getpixel m x y
         = Some (if on_seam width height inset thickness x y
                 then 255%Z else 0%Z).
Proof.
  intros Hi Ht Hw Hh. unfold create_rectangular_seam_mask.
  destruct (Z.ltb_spec width 0); [lia|]. destruct (Z.ltb_spec height 0); [lia|].
  cbn [orb]. rewrite (Z.max_r 0 inset), (Z.max_r 1 thickness) by lia.
  destruct (Z.leb_spec width inset); [lia|].
  destruct (Z.leb_spec height inset); [lia|]. cbn [orb].
  rewrite (Z.min_r (height - 1)), (Z.min_r (width - 1)) by lia.
  rewrite (Z.max_r 0 (height - inset - 1 - thickness + 1)),
          (Z.max_r 0 (width - inset - 1 - thickness + 1)) by lia.
  edestruct (rectangle_if_spec (inset <=? inset + thickness - 1)%Z)
    as (m1 & -> & Hp1); [intros _; lia|]. cbn [mbind option_bind].
  edestruct (rectangle_if_spec
               (height - inset - 1 - thickness + 1 <=? height - inset - 1)%Z)
    as (m2 & -> & Hp2); [intros _; lia|]. cbn [mbind option_bind].
  edestruct (rectangle_if_spec
               ((inset <=? inset + thickness - 1)
                && (inset + thickness - 1 + 1
                    <=? height - inset - 1 - thickness + 1 - 1))%Z)
    as (m3 & -> & Hp3).
  { intros Hc. apply andb_true_iff in Hc as [_ Hc]. apply Z.leb_le in Hc. lia. }
  cbn [mbind option_bind].
  edestruct (rectangle_if_spec
               ((width - inset - 1 - thickness + 1 <=? width - inset - 1)
                && (inset + thickness - 1 + 1
                    <=? height - inset - 1 - thickness + 1 - 1))%Z)
    as (m4 & -> & Hp4).
  { intros Hc. apply andb_true_iff in Hc as [_ Hc]. apply Z.leb_le in Hc. lia. }
  exists m4. split; [reflexivity|]. intros x y Hx Hy.
  rewrite Hp4, Hp3, Hp2, Hp1, getpixel_Image_new by assumption. cbn [fmap option_fmap option_map].
  f_equal. unfold on_seam. cbv zeta.
  assert (Hxw : (0 <= Z.of_nat x < width)%Z) by lia.
  assert (Hyh : (0 <= Z.of_nat y < height)%Z) by lia.
  remember (Z.of_nat x) as xi eqn:Hxi. remember (Z.of_nat y) as yi eqn:Hyi.
  clear Hxi Hyi Hx Hy Hp1 Hp2 Hp3 Hp4.
  match goal with
  | |- (if ?p4 then _ else if ?p3 then _ else if ?p2 then _
        else if ?p1 then _ else _) = (if ?s then _ else _) =>
      assert (Hband : p4 || p3 || p2 || p1 = s);
      [|now rewrite <- Hband; destruct p4, p3, p2, p1]
  end.
  apply eq_true_iff_eq.
  rewrite ?orb_true_iff, ?andb_true_iff, ?Z.leb_le, ?Z.ltb_lt. lia.
Qed.

End SeamMask.

(** X7. The seam geometry that [prepare_design_layers] passes on is
    always one [create_rectangular_seam_mask] can draw: the inset lies in
    0..min(w, h) // 2, the strength in 0..255, and when a mask is asked
    for, inset and thickness fit the shorter side, every box drawn is well
    formed, and the mask is 255 exactly on the band of that thickness
    along the rectangle [inset] inside the image - never in the margin -
    and 0 elsewhere. *)
Theorem seam_stays_inside_the_rug (target_w target_h : Z) (asked : Seam.seam) :
  let used := Seam.seam_geometry target_w target_h asked in
  (0 <= Seam.seam_inset used <= Z.max 0 (Z.min target_w target_h / 2))%Z
  /\ (0 <= Seam.seam_strength used <= 255)%Z
  /\ (0 <= Seam.seam_blur used)%Z
  /\ match Seam.seam_mask_of target_w target_h asked with
     | None =>
         Seam.seam_thickness used = 0%Z \/ (Seam.seam_strength asked <= 0)%Z
     | Some None => False
     | Some (Some m) =>
         (1 <= Seam.seam_thickness used)%Z
         /\ (2 * Seam.seam_inset used + Seam.seam_thickness used
             <= Z.min target_w target_h)%Z
         /\ forall x y,
              (x < Z.to_nat target_w)%nat -> (y < Z.to_nat target_h)%nat ->
              Render.getpixel m x y
              = Some (if Seam.on_seam target_w target_h (Seam.seam_inset used)
                           (Seam.seam_thickness used) x y
                      then 255%Z else 0%Z)
     end.
Proof.
  cbv zeta. unfold Seam.seam_mask_of.
  remember (Seam.seam_geometry target_w target_h asked) as used eqn:Hused.
  assert (Hi : (0 <= Seam.seam_inset used
                <= Z.max 0 (Z.min target_w target_h / 2))%Z).
  { subst used. cbn. lia. }
  assert (Hs : (0 <= Seam.seam_strength used <= 255)%Z).
  { subst used. cbn. lia. }
  assert (Hb : (0 <= Seam.seam_blur used)%Z).
  { subst used. cbn. lia. }
  assert (Ht : Seam.seam_thickness used = 0%Z
               \/ (1 <= Seam.seam_thickness used)%Z
                  /\ (2 * Seam.seam_inset used + Seam.seam_thickness used
                      <= Z.min target_w target_h)%Z).
  { subst used. cbn.
    destruct (Z.leb_spec
                (Z.min target_w target_h
                 - Z.min (Z.max 0 (Seam.seam_inset asked))
                     (Z.max 0 (Z.min target_w target_h / 2)) * 2) 0);
      [now left|right; lia]. }
  assert (Hstr : (Seam.seam_strength used <= 0 ->
                  Seam.seam_strength asked <= 0)%Z).
  { subst used. cbn. lia. }
  split; [exact Hi|]. split; [exact Hs|]. split; [exact Hb|].
  destruct (Z.ltb_spec 0 (Seam.seam_thickness used)) as [Hpos|Hzero]; cbn [andb].
  - destruct (Z.ltb_spec 0 (Seam.seam_strength used)) as [Hspos|Hszero].
    + destruct Ht as [Ht|[Ht1 Ht2]]; [lia|].
      destruct (seam_mask_band target_w target_h (Seam.seam_inset used)
                  (Seam.seam_thickness used)) as (m & -> & Hm); try lia.
      split; [exact Ht1|]. split; [exact Ht2|exact Hm].
    + right. apply Hstr. lia.
  - left. destruct Ht as [Ht|[Ht1 _]]; [exact Ht|lia].
Qed.

(** ** render: distortion of the seam mask *)

Section Distort.
Import PyReal Render Seam.

Variable frequency : R.
Variable random : nat -> R.
Variable mask : image.

Lemma putpixel_mask_eroded m x y v :
  getpixel mask x y = Some v ->
  Forall2 (Forall2 eroded) m mask ->
  Forall2 (Forall2 eroded) (putpixel m x y v) mask.
Proof.
  intros Hv Hm. unfold putpixel. apply Forall2_alter_l; [exact Hm|].
  intros row row0 _ Hrow0 Hrow.
  unfold getpixel in Hv. rewrite Hrow0 in Hv. cbn in Hv.
  rewrite <- (list_insert_id row0 x v Hv).
  apply Forall2_insert; [exact Hrow|now left].
Qed.

Lemma distort_pixel_eroded y acc x :
  Forall2 (Forall2 eroded) (fst acc) mask ->
  Forall2 (Forall2 eroded)
    (fst (distort_pixel frequency random mask y acc x)) mask.
Proof.
  destruct acc as [distorted drawn]. cbn [fst]. intros Hm.
  unfold distort_pixel.
  destruct (getpixel mask x y) as [v|] eqn:Hv; [|exact Hm].
  destruct (0 <? v)%Z; [|exact Hm].
  destruct (Rltb (random drawn) frequency); cbn [fst]; [exact Hm|].
  now apply putpixel_mask_eroded.
Qed.

Lemma distort_pixel_erased y acc x :
  (forall k, (random k < frequency)%R) ->
  fst (distort_pixel frequency random mask y acc x) = fst acc.
Proof.
  intros Hall. destruct acc as [distorted drawn]. unfold distort_pixel.
  destruct (getpixel mask x y) as [v|]; [|reflexivity].
  destruct (0 <? v)%Z; [|reflexivity].
  now rewrite (Rltb_true _ _ (Hall drawn)).
Qed.

Lemma distort_pixel_drawn y acc x :
  snd (distort_pixel frequency random mask y acc x)
  = (snd acc
     + List.length (List.filter (fun v => (0 <? v)%Z)
                      (option_list (getpixel mask x y))))%nat.
Proof.
  destruct acc as [distorted drawn]. unfold distort_pixel.
  destruct (getpixel mask x y) as [v|]; cbn; [|lia].
  destruct (0 <? v)%Z; cbn; [|lia].
  destruct (Rltb (random drawn) frequency); cbn; lia.
Qed.

Lemma distort_pixels_eroded y xs : forall acc,
  Forall2 (Forall2 eroded) (fst acc) mask ->
  Forall2 (Forall2 eroded)
    (fst (foldl (distort_pixel frequency random mask y) acc xs)) mask.
Proof.
  induction xs as [|x xs IH]; intros acc Hm; cbn [foldl]; [exact Hm|].
  apply IH. now apply distort_pixel_eroded.
Qed.

Lemma distort_pixels_erased y xs : forall acc,
  (forall k, (random k < frequency)%R) ->
  fst (foldl (distort_pixel frequency random mask y) acc xs) = fst acc.
Proof.
  induction xs as [|x xs IH]; intros acc Hall; cbn [foldl]; [reflexivity|].
  rewrite IH by exact Hall. now apply distort_pixel_erased.
Qed.

Lemma distort_pixels_drawn y row n : forall acc,
  mask !! y = Some row ->
  snd (foldl (distort_pixel frequency random mask y) acc (seq 0 n))
  = (snd acc
     + List.length (List.filter (fun v => (0 <? v)%Z) (take n row)))%nat.
Proof.
  intros acc Hrow. induction n as [|n IH].
  - cbn. rewrite take_0. cbn. lia.
  - rewrite seq_S, foldl_app. cbn [foldl Nat.add].
    rewrite distort_pixel_drawn, IH. unfold getpixel. rewrite Hrow.
    cbn [mbind option_bind].
    destruct (row !! n) as [v|] eqn:Hv.
    + rewrite (take_S_r row n v Hv), List.filter_app, length_app.
      change (option_list (Some v)) with [v]. lia.
    + apply lookup_ge_None in Hv.
      rewrite !take_ge by lia. change (option_list None) with (@nil Z).
      cbn [List.filter List.length]. lia.
Qed.

Lemma distort_pixels_outside y xs : forall acc,
  mask !! y = None ->
  snd (foldl (distort_pixel frequency random mask y) acc xs) = snd acc.
Proof.
  induction xs as [|x xs IH]; intros acc Hrow; cbn [foldl]; [reflexivity|].
  rewrite IH by exact Hrow. rewrite distort_pixel_drawn.
  unfold getpixel. rewrite Hrow. cbn. lia.
Qed.

Lemma distort_rows_eroded width ys : forall acc,
  Forall2 (Forall2 eroded) (fst acc) mask ->
  Forall2 (Forall2 eroded)
    (fst (foldl (distort_row frequency random mask width) acc ys)) mask.
Proof.
  induction ys as [|y ys IH]; intros acc Hm; cbn [foldl]; [exact Hm|].
  apply IH. now apply distort_pixels_eroded.
Qed.

Lemma distort_rows_erased width ys : forall acc,
  (forall k, (random k < frequency)%R) ->
  fst (foldl (distort_row frequency random mask width) acc ys) = fst acc.
Proof.
  induction ys as [|y ys IH]; intros acc Hall; cbn [foldl]; [reflexivity|].
  rewrite IH by exact Hall. now apply distort_pixels_erased.
Qed.

Lemma distort_rows_drawn width n : forall acc,
  Forall (fun row => (List.length row <= Z.to_nat width)%nat) mask ->
  snd (foldl (distort_row frequency random mask width) acc (seq 0 n))
  = (snd acc
     + List.length (List.filter (fun v => (0 <? v)%Z)
                      (concat (take n mask))))%nat.
Proof.
  intros acc Hrows. induction n as [|n IH].
  - cbn. rewrite take_0. cbn. lia.
  - rewrite seq_S, foldl_app. cbn [foldl Nat.add]. unfold distort_row at 1.
    destruct (mask !! n) as [row|] eqn:Hrow.
    + rewrite (distort_pixels_drawn n row _ _ Hrow), IH.
      rewrite (take_S_r mask n row Hrow), concat_app, List.filter_app, length_app.
      cbn [concat]. rewrite app_nil_r.
      assert (Hlen : (List.length row <= Z.to_nat width)%nat).
      { rewrite List.Forall_forall in Hrows. apply Hrows.
        apply list_elem_of_In. now apply list_elem_of_lookup_2 in Hrow. }
      rewrite (take_ge row (Z.to_nat width) Hlen). lia.
    + rewrite (distort_pixels_outside n _ _ Hrow), IH.
      apply lookup_ge_None in Hrow. rewrite !take_ge by lia. reflexivity.
Qed.

End Distort.

Lemma blank_eroded (m : Render.image) :
  Forall (fun row => List.length row
                     = List.length (default [] (head m))) m ->
  Forall2 (Forall2 Render.eroded)
    (Render.Image_new (fst (Seam.image_size m)) (snd (Seam.image_size m)) 0) m.
Proof.
  intros Hrect. unfold Seam.image_size, Render.Image_new. cbn [fst snd].
  rewrite !Nat2Z.id. remember (List.length (default [] (head m))) as w eqn:Hw.
  clear Hw. induction m as [|row m IH]; cbn; [constructor|].
  inversion Hrect as [|? ? Hrow Hrest]; subst. constructor; [|now apply IH].
  clear. induction row as [|v row IH]; cbn; constructor; [now right|exact IH].
Qed.

(** X8. [distort_seam_mask] only erases: on a rectangular mask, each pixel
    of the result is the pixel of the mask or 0, one random number is
    drawn for every pixel above 0 and none for the others, and when every
    number drawn is below [frequency] (as with a frequency of 1 or more)
    the seam is erased altogether.  With [amount <= 0] or
    [frequency <= 0] the mask comes back as it is and nothing is drawn;
    [amount] has no other use. *)
Theorem distortion_only_erases (mask : Render.image) (amount : Z)
    (frequency : R) (random : nat -> R) (drawn : nat) :
  Forall (fun row => List.length row
                     = List.length (default [] (head mask))) mask ->
  let out := Seam.distort_seam_mask mask amount frequency random drawn in
  Forall2 (Forall2 Render.eroded) (fst out) mask
  /\ ((amount <= 0)%Z \/ (frequency <= 0)%R -> out = (mask, drawn))
  /\ ((0 < amount)%Z -> (0 < frequency)%R ->
      snd out = (drawn + Seam.opaque_count mask)%nat
      /\ ((forall k, (random k < frequency)%R) ->
          fst out
          = Render.Image_new (fst (Seam.image_size mask))
              (snd (Seam.image_size mask)) 0)).
Proof.
  intros Hrect out. subst out. unfold Seam.distort_seam_mask.
  destruct (Z.leb_spec amount 0) as [Ha|Ha]; cbn [orb].
  { split; [apply eroded_refl|]. split; [reflexivity|]. intros; lia. }
  destruct (Rle_dec frequency 0) as [Hf|Hf].
  { rewrite (Rleb_true _ _ Hf).
    split; [apply eroded_refl|]. split; [reflexivity|]. intros; lra. }
  assert (Hfalse : PyReal.Rleb frequency 0 = false).
  { unfold PyReal.Rleb. destruct (Rle_dec frequency 0); [contradiction|reflexivity]. }
  rewrite Hfalse.
  pose proof (blank_eroded mask Hrect) as Hblank.
  destruct (Seam.image_size mask) as [width height] eqn:Hsize.
  cbn [fst snd] in *.
  split; [now apply distort_rows_eroded|].
  split; [intros [H|H]; [lia|lra]|].
  intros _ _. split.
  - rewrite distort_rows_drawn.
    + cbn [snd]. unfold Seam.opaque_count, Seam.image_size in *.
      injection Hsize as _ Hh. subst height. rewrite Nat2Z.id.
      now rewrite take_ge by lia.
    + unfold Seam.image_size in Hsize. injection Hsize as Hw _. subst width.
      rewrite Nat2Z.id. eapply Forall_impl; [exact Hrect|].
      cbn. intros row ->. lia.
  - intros Hall. now rewrite distort_rows_erased.
Qed.

Lemma distortion_only_erases_witness :
  Forall2 (Forall2 Render.eroded)
    (fst (Seam.distort_seam_mask [[0; 255]; [255; 255]]%Z 2 0.5
            (fun k => if Nat.even k then 0 else 1)%R 0))
    [[0; 255]; [255; 255]]%Z.
Proof.
  refine (proj1 (distortion_only_erases [[0; 255]; [255; 255]]%Z 2 0.5%R
                   (fun k => if Nat.even k then 0 else 1)%R 0 _)).
  repeat constructor.
Defined.

(** X9. The two point maps of the seam layer split the gray scale at 128:
    for a gray value in 0..255 both stay in 0..255, the highlight is above
    0 exactly below 128 and the shadow exactly above it, so no pixel gets
    both; the scaling by the strength never raises an alpha, keeps it at a
    strength of 255 or more and removes it at a strength of 0 or less. *)
Theorem seam_maps_split_at_midpoint (px strength : Z) :
  (0 <= px <= 255)%Z ->
  (0 <= Seam.highlight_map px <= 255)%Z
  /\ (0 <= Seam.shadow_map px <= 255)%Z
  /\ ((0 < Seam.highlight_map px)%Z <-> (px < 128)%Z)
  /\ ((0 < Seam.shadow_map px)%Z <-> (128 < px)%Z)
  /\ (Seam.highlight_map 0 = 255%Z /\ Seam.shadow_map 255 = 255%Z)
  /\ (0 <= Seam.scale_alpha strength px <= px)%Z
  /\ ((255 <= strength)%Z -> Seam.scale_alpha strength px = px)
  /\ ((strength <= 0)%Z -> Seam.scale_alpha strength px = 0%Z).
Proof.
  intros Hpx. unfold Seam.highlight_map, Seam.shadow_map, Seam.scale_alpha,
    Seam.effective_strength, Seam.midpoint.
  assert (Hh : (px < 128 -> 1 <= 255 * Z.max 0 (128 - px) / 128 <= 255)%Z).
  { intros Hlt. rewrite Z.max_r by lia. split.
    - apply Z.div_le_lower_bound; lia.
    - apply Z.div_le_upper_bound; lia. }
  assert (Hs : (128 < px ->
                1 <= 255 * Z.max 0 (px - 128) / (255 - 128) <= 255)%Z).
  { intros Hlt. rewrite Z.max_r by lia. split.
    - apply Z.div_le_lower_bound; lia.
    - apply Z.div_le_upper_bound; lia. }
  assert (He : (0 <= Z.max 0 (Z.min 255 (strength * 1)) <= 255)%Z) by lia.
  destruct (Z.ltb_spec px 128) as [Hlo|Hlo];
    destruct (Z.ltb_spec 128 px) as [Hhi|Hhi]; try lia.
  all: repeat match goal with |- _ /\ _ => split end; try reflexivity;
    try (specialize (Hh ltac:(lia)));
    try (specialize (Hs ltac:(lia))); try lia.
  all: try (apply Z.div_le_upper_bound; nia).
  all: try (apply Z.div_pos; nia).
  all: try (intros Hst; rewrite ?Z.mul_1_r;
            first [ rewrite (Z.min_l 255 strength), Z.max_r by lia;
                    apply Z.div_mul; lia
                  | rewrite (Z.min_r 255 strength), Z.max_l by lia;
                    rewrite Z.mul_0_r; reflexivity ]).
Qed.

Lemma seam_maps_split_at_midpoint_witness :
  ((0 < Seam.highlight_map 100)%Z <-> (100 < 128)%Z)
  /\ ((0 < Seam.shadow_map 100)%Z <-> (128 < 100)%Z).
Proof.
  pose proof (seam_maps_split_at_midpoint 100 200 ltac:(lia)) as H.
  split; [exact (proj1 (proj2 (proj2 H)))
         |exact (proj1 (proj2 (proj2 (proj2 H))))].
Defined.

(** ** render: the masks of the texture *)

Section Truncation.
Import PyReal.
Local Open Scope R_scope.

Lemma Int_part_le r (k : Z) : r <= IZR k -> (Int_part r <= k)%Z.
Proof.
  intros Hr. destruct (base_Int_part r) as [Hle _].
  apply le_IZR. lra.
Qed.

Lemma Int_part_of_IZR (k : Z) : Int_part (IZR k) = k.
Proof.
  destruct (base_Int_part (IZR k)) as [Hle Hgt].
  assert (H1 : (Int_part (IZR k) <= k)%Z) by (apply le_IZR; lra).
  assert (H2 : (k < Int_part (IZR k) + 1)%Z).
  { apply lt_IZR. rewrite plus_IZR. cbn. lra. }
  lia.
Qed.

Lemma py_int_IZR (k : Z) : (0 <= k)%Z -> py_int (IZR k) = k.
Proof.
  intros Hk. unfold py_int. rewrite Rltb_false by (apply (IZR_le 0); exact Hk).
  apply Int_part_of_IZR.
Qed.

Lemma py_int_range r (k : Z) : 0 <= r <= IZR k -> (0 <= py_int r <= k)%Z.
Proof.
  intros [H0 Hk]. split; [now apply py_int_nonneg|].
  unfold py_int. rewrite Rltb_false by exact H0. now apply Int_part_le.
Qed.

Lemma clamp_255 x : 0 <= Rmax 0 (Rmin 255 x) <= 255.
Proof.
  split; [apply Rmax_l|]. apply Rmax_lub; [lra|apply Rmin_l].
Qed.

Lemma clamp_nonpos x : x <= 0 -> Rmax 0 (Rmin 255 x) = 0.
Proof.
  intros Hx. apply Rmax_left. etransitivity; [apply Rmin_r|exact Hx].
Qed.

Lemma clamp_strength_range s : 0 <= Seam.clamp_strength s <= 1.
Proof.
  unfold Seam.clamp_strength. split; [apply Rmax_l|].
  apply Rmax_lub; [lra|apply Rmin_r].
Qed.

End Truncation.

(** X10. The two masks of [apply_texture] split the texture at 128,
    whatever the strength passed: both stay in 0..255, the shadow mask is
    0 on texture values of 128 or more and the highlight mask on values of
    128 or less, so no pixel is both darkened and lightened, and a
    strength of 0 or less leaves both masks empty. *)
Theorem texture_masks_split_at_midpoint (strength : R) (p : Z) :
  (0 <= Seam.shadow_mask strength p <= 255)%Z
  /\ (0 <= Seam.highlight_mask strength p <= 255)%Z
  /\ ((128 <= p)%Z -> Seam.shadow_mask strength p = 0%Z)
  /\ ((p <= 128)%Z -> Seam.highlight_mask strength p = 0%Z)
  /\ ((strength <= 0)%R ->
      Seam.shadow_mask strength p = 0%Z
      /\ Seam.highlight_mask strength p = 0%Z).
Proof.
  unfold Seam.shadow_mask, Seam.highlight_mask, Seam.midpoint,
    Seam.amplification.
  pose proof (clamp_strength_range strength) as Hs.
  assert (Hzero : PyReal.py_int 0 = 0%Z) by (apply (py_int_IZR 0); lia).
  split; [apply py_int_range, clamp_255|].
  split; [apply py_int_range, clamp_255|].
  split; [|split].
  - intros Hp. rewrite clamp_nonpos; [exact Hzero|].
    assert (IZR (128 - p) <= 0)%R by (apply (IZR_le _ 0); lia). nra.
  - intros Hp. rewrite clamp_nonpos; [exact Hzero|].
    assert (IZR (p - 128) <= 0)%R by (apply (IZR_le _ 0); lia). nra.
  - intros Hle.
    assert (Hc : Seam.clamp_strength strength = 0%R).
    { unfold Seam.clamp_strength. apply Rmax_left.
      etransitivity; [apply Rmin_l|exact Hle]. }
    rewrite Hc, !Rmult_0_r, clamp_nonpos by lra. now split.
Qed.

(** ** composite: one pixel of the result *)

Section PixelFacts.
Import PyReal Pixel.
Local Open Scope R_scope.

Lemma clip_id x : 0 <= x <= 255 -> clip x = x.
Proof.
  intros [H0 H1]. unfold clip. rewrite Rmax_left by exact H0.
  now apply Rmin_left.
Qed.

Lemma blend_range below (layer alpha : Z) :
  0 <= below <= 255 -> (0 <= layer <= 255)%Z -> (0 <= alpha <= 255)%Z ->
  0 <= blend below layer alpha <= 255.
Proof.
  intros Hb [Hl0 Hl1] [Ha0 Ha1]. unfold blend. cbv zeta.
  apply (IZR_le 0) in Hl0. apply (IZR_le _ 255) in Hl1.
  apply (IZR_le 0) in Ha0. apply (IZR_le _ 255) in Ha1.
  assert (Ha : 0 <= IZR alpha / 255 <= 1) by (split; lra).
  remember (IZR alpha / 255) as a. clear Heqa. nra.
Qed.

Lemma blend_opaque below (layer : Z) : blend below layer 255 = IZR layer.
Proof. unfold blend. cbv zeta. field. Qed.

Lemma blend_transparent below (layer : Z) : blend below layer 0 = below.
Proof. unfold blend. cbv zeta. field. Qed.

End PixelFacts.

(** X11. With an intensity between 0 and 1 the lighting never brightens a
    pixel of the rug: a colour value in 0..255 comes back between 0 and
    itself.  It comes back unchanged where the rug is transparent, at an
    intensity of 0, and at full intensity under a white reference; at
    full intensity under a black reference it is 0. *)
Theorem lighting_never_brightens (v alpha gray : Z) (intensity : R) :
  (0 <= v <= 255)%Z -> (0 <= gray <= 255)%Z -> (0 <= intensity <= 1)%R ->
  (0 <= Pixel.apply_lighting v alpha gray intensity <= v)%Z
  /\ ((alpha <= 0)%Z -> Pixel.apply_lighting v alpha gray intensity = v)
  /\ (intensity = 0%R -> Pixel.apply_lighting v alpha gray intensity = v)
  /\ (intensity = 1%R -> gray = 255%Z ->
      Pixel.apply_lighting v alpha gray intensity = v)
  /\ (intensity = 1%R -> gray = 0%Z -> (0 < alpha)%Z ->
      Pixel.apply_lighting v alpha gray intensity = 0%Z).
Proof.
  intros Hv Hg Hi. unfold Pixel.apply_lighting.
  destruct (Z.ltb_spec 0 alpha) as [Ha|Ha].
  2: { repeat split; try lia. }
  cbv zeta.
  assert (Hv0 : (0 <= IZR v)%R) by (apply (IZR_le 0); lia).
  assert (Hv1 : (IZR v <= 255)%R) by (apply (IZR_le _ 255); lia).
  assert (Hg0 : (0 <= IZR gray)%R) by (apply (IZR_le 0); lia).
  assert (Hg1 : (IZR gray <= 255)%R) by (apply (IZR_le _ 255); lia).
  assert (Hf : (0 <= IZR gray / 255 * intensity + (1 - intensity) <= 1)%R).
  { assert (0 <= IZR gray / 255 <= 1)%R by (split; lra).
    remember (IZR gray / 255)%R as q. clear Heqq. nra. }
  remember (IZR gray / 255 * intensity + (1 - intensity))%R as f eqn:Hfe.
  assert (Hp : (0 <= IZR v * f <= IZR v)%R) by nra.
  rewrite clip_id by lra.
  split; [now apply py_int_range|].
  split; [intros; lia|].
  split; [|split].
  - intros ->. replace f with 1%R by lra.
    rewrite Rmult_1_r. apply py_int_IZR. lia.
  - intros -> ->. replace f with 1%R by lra.
    rewrite Rmult_1_r. apply py_int_IZR. lia.
  - intros -> -> _. replace f with 0%R by lra.
    rewrite Rmult_0_r. apply (py_int_IZR 0). lia.
Qed.

Lemma lighting_never_brightens_witness :
  (0 <= Pixel.apply_lighting 200 255 128 1 <= 200)%Z.
Proof.
  refine (proj1 (lighting_never_brightens 200 255 128 1 _ _ _)); try lia.
  split; lra.
Defined.

(** X12. One colour value of the file written, for values and alphas in
    0..255: it lies in 0..255; where the foreground is opaque it is the
    foreground's value, whatever the rug and the scene are; where there is
    no foreground or it is transparent, it is the rug's value under an
    opaque rug and the scene's value under a transparent one. *)
Theorem foreground_hides_the_rug (scene rug rug_alpha : Z)
    (fg : option (Z * Z)) :
  (0 <= scene <= 255)%Z -> (0 <= rug <= 255)%Z -> (0 <= rug_alpha <= 255)%Z ->
  (forall fv fa, fg = Some (fv, fa) ->
                 (0 <= fv <= 255)%Z /\ (0 <= fa <= 255)%Z) ->
  (0 <= Pixel.composite scene rug rug_alpha fg <= 255)%Z
  /\ (forall fv, fg = Some (fv, 255%Z) ->
                 Pixel.composite scene rug rug_alpha fg = fv)
  /\ ((fg = None \/ exists fv, fg = Some (fv, 0%Z)) ->
      (rug_alpha = 255%Z -> Pixel.composite scene rug rug_alpha fg = rug)
      /\ (rug_alpha = 0%Z -> Pixel.composite scene rug rug_alpha fg = scene)).
Proof.
  intros Hs Hr Ha Hfg. unfold Pixel.composite. cbv zeta.
  assert (Hs' : (0 <= IZR scene <= 255)%R).
  { split; [apply (IZR_le 0)|apply (IZR_le _ 255)]; lia. }
  pose proof (blend_range (IZR scene) rug rug_alpha Hs' Hr Ha) as Hb.
  split; [|split].
  - apply py_int_range. destruct fg as [[fv fa]|]; [|exact Hb].
    destruct (Hfg fv fa eq_refl) as [Hfv Hfa]. now apply blend_range.
  - intros fv ->. rewrite blend_opaque. apply py_int_IZR.
    destruct (Hfg fv 255%Z eq_refl) as [Hfv _]. lia.
  - intros Hnone.
    assert (Hsame : match fg with
                    | Some (fg_value, fg_alpha) =>
                        Pixel.blend (Pixel.blend (IZR scene) rug rug_alpha)
                          fg_value fg_alpha
                    | None => Pixel.blend (IZR scene) rug rug_alpha
                    end = Pixel.blend (IZR scene) rug rug_alpha).
    { destruct Hnone as [->|[fv ->]]; [reflexivity|apply blend_transparent]. }
    rewrite Hsame. split; intros ->.
    + rewrite blend_opaque. apply py_int_IZR. lia.
    + rewrite blend_transparent. apply py_int_IZR. lia.
Qed.

Lemma foreground_hides_the_rug_witness :
  Pixel.composite 10 20 30 (Some (40, 255)%Z) = 40%Z.
Proof.
  refine (proj1 (proj2 (foreground_hides_the_rug 10 20 30 (Some (40, 255)%Z)
                          _ _ _ _)) 40%Z eq_refl); try lia.
  intros fv fa [= <- <-]. lia.
Defined.

(** ** overlay_images: the sizes of an overlay *)

Section OverlayFacts.
Import OverlayFlow.
Context `{Pixels}.

Lemma same_size_true (a b : Overlay.image) : same_size a b = true -> a = b.
Proof.
  unfold same_size. intros Hs. apply andb_true_iff in Hs as [Hw Hh].
  apply Z.eqb_eq in Hw, Hh. destruct a, b. cbn in *. now subst.
Qed.

Lemma same_size_refl (a : Overlay.image) : same_size a a = true.
Proof. unfold same_size. now rewrite !Z.eqb_refl. Qed.

End OverlayFacts.

Section Paths.
Import PyPath.
Local Open Scope string_scope.

Lemma split_slash_cons s : exists part rest, split_slash s = part :: rest.
Proof.
  induction s as [|c s IH]; cbn; [now eexists _, _|].
  destruct (Ascii.eqb c "/"); [now eexists _, _|].
  destruct IH as (part & rest & ->). now eexists _, _.
Qed.

Lemma split_slash_app dir file :
  split_slash file = [file] ->
  split_slash (dir ++ String "/" file) = (split_slash dir ++ [file])%list.
Proof.
  intros Hfile. induction dir as [|c dir IH]; cbn [String.append split_slash].
  - cbn. now rewrite Hfile.
  - rewrite IH. destruct (Ascii.eqb c "/"); [reflexivity|].
    now destruct (split_slash_cons dir) as (part & rest & ->).
Qed.

Lemma no_slash_prefix file :
  split_slash file = [file] -> String.prefix "/" file = false.
Proof.
  destruct file as [|c file]; [reflexivity|]. cbn [split_slash String.prefix].
  destruct (Ascii.eqb_spec c "/") as [->|Hc].
  - intros [= Hf _].
  - intros _. destruct (Ascii.ascii_dec "/" c) as [Heq|_]; [now subst|reflexivity].
Qed.

(** The default output lies beside the first image: in [dir] for a path
    [dir/file], and it is the bare name for a path that is a file name. *)
Lemma default_output_beside dir file :
  split_slash file = [file] -> kept file = true ->
  OverlayFlow.default_output (dir ++ "/" ++ file)
  = str {| root := root (Path (dir ++ "/" ++ file));
           parts := parts (Path dir)
                    ++ [RemoveBackground.stem file ++ "_overlay.png"] |}.
Proof.
  intros Hfile Hkept. change (dir ++ "/" ++ file) with (dir ++ String "/" file).
  unfold OverlayFlow.default_output, stem, name, parent, joinpath.
  cbv zeta. cbn [root parts Path].
  rewrite (split_slash_app dir file Hfile), List.filter_app.
  cbn [List.filter]. rewrite Hkept.
  now rewrite List.last_last, List.removelast_last.
Qed.

Lemma default_output_of_name file :
  split_slash file = [file] -> kept file = true ->
  OverlayFlow.default_output file
  = RemoveBackground.stem file ++ "_overlay.png".
Proof.
  intros Hfile Hkept. unfold OverlayFlow.default_output, stem, name, parent,
    joinpath, str. cbv zeta. cbn [root parts Path].
  rewrite Hfile. cbn [List.filter]. rewrite Hkept.
  cbn [List.last List.removelast app join].
  replace (String.prefix "//" file) with false.
  - now rewrite (no_slash_prefix file Hfile).
  - symmetry. destruct file as [|c file]; [reflexivity|].
    pose proof (no_slash_prefix (String c file) Hfile) as Hp.
    cbn [String.prefix] in Hp |- *.
    destruct (Ascii.ascii_dec "/" c); [|reflexivity].
    now destruct file.
Qed.

End Paths.

Lemma overlay_success `{OverlayFlow.Pixels}
    (files : string -> option OverlayFlow.picture)
    (image1_path image2_path : string) (output_path : option string)
    (tolerance : float) (name : string) (result : OverlayFlow.picture) :
  OverlayFlow.overlay_images files image1_path image2_path output_path tolerance
  = inr (name, result) ->
  exists img1 img2,
    files image1_path = Some img1 /\ files image2_path = Some img2
    /\ Overlay.check_aspect_ratio (OverlayFlow.dims img1) (OverlayFlow.dims img2)
         tolerance = Some true
    /\ OverlayFlow.dims result
       = (if (OverlayFlow.area (OverlayFlow.dims img2)
              <? OverlayFlow.area (OverlayFlow.dims img1))%Z
          then OverlayFlow.dims img2 else OverlayFlow.dims img1)
    /\ OverlayFlow.area (OverlayFlow.dims result)
       = Z.min (OverlayFlow.area (OverlayFlow.dims img1))
           (OverlayFlow.area (OverlayFlow.dims img2))
    /\ OverlayFlow.data result
       = OverlayFlow.over
           (if (OverlayFlow.area (OverlayFlow.dims img2)
                <? OverlayFlow.area (OverlayFlow.dims img1))%Z
            then OverlayFlow.resample (OverlayFlow.data img1)
                   (OverlayFlow.dims img1) (OverlayFlow.dims img2)
            else OverlayFlow.data img1)
           (if (OverlayFlow.area (OverlayFlow.dims img1)
                <? OverlayFlow.area (OverlayFlow.dims img2))%Z
            then OverlayFlow.resample (OverlayFlow.data img2)
                   (OverlayFlow.dims img2) (OverlayFlow.dims img1)
            else OverlayFlow.data img2)
    /\ name = match output_path with
              | Some (String c s) => PyPath.str (PyPath.Path (String c s))
              | _ => OverlayFlow.default_output image1_path
              end.
Proof.
  unfold OverlayFlow.overlay_images.
  destruct (files image1_path) as [img1|]; [|discriminate].
  destruct (files image2_path) as [img2|]; [|discriminate].
  destruct (Overlay.check_aspect_ratio _ _ tolerance) as [[|]|] eqn:Hgate;
    try discriminate.
  unfold OverlayFlow.resize_to_match. cbv zeta.
  intros Hrun. exists img1, img2.
  split; [reflexivity|]. split; [reflexivity|]. split; [exact Hgate|].
  destruct (Z.eqb_spec (OverlayFlow.area (OverlayFlow.dims img1))
              (OverlayFlow.area (OverlayFlow.dims img2))) as [Heq|Hne].
  - unfold OverlayFlow.alpha_composite in Hrun.
    destruct (OverlayFlow.same_size _ _) eqn:Hsame; [|discriminate].
    injection Hrun as <- <-. cbn [OverlayFlow.dims OverlayFlow.data].
    rewrite Heq, Z.ltb_irrefl, Z.min_id. now repeat split.
  - destruct (Z.ltb_spec (OverlayFlow.area (OverlayFlow.dims img2))
                (OverlayFlow.area (OverlayFlow.dims img1))) as [Hlt|Hge].
    + unfold OverlayFlow.alpha_composite, OverlayFlow.resize in Hrun.
      cbn [OverlayFlow.dims OverlayFlow.data] in Hrun.
      rewrite same_size_refl in Hrun. injection Hrun as <- <-.
      cbn [OverlayFlow.dims OverlayFlow.data].
      destruct (Z.ltb_spec (OverlayFlow.area (OverlayFlow.dims img1))
                  (OverlayFlow.area (OverlayFlow.dims img2))); [lia|].
      repeat split; try reflexivity. lia.
    + unfold OverlayFlow.alpha_composite, OverlayFlow.resize in Hrun.
      cbn [OverlayFlow.dims OverlayFlow.data] in Hrun.
      rewrite same_size_refl in Hrun. injection Hrun as <- <-.
      cbn [OverlayFlow.dims OverlayFlow.data].
      destruct (Z.ltb_spec (OverlayFlow.area (OverlayFlow.dims img1))
                  (OverlayFlow.area (OverlayFlow.dims img2))); [|lia].
      repeat split; try reflexivity. lia.
Qed.

(** X13. An overlay that succeeds has found both files and passed the
    ratio gate, and the image it returns has the dimensions of the input
    of smaller area (of both, when the areas are equal): only the larger
    input is resampled, never the smaller one.  The file written is the
    [output_path] given, as [pathlib] reads it; when none or an empty one
    is given it is [<stem>_overlay.png] beside the first image, where
    [<stem>] is the stem of the last component of its path: in [dir] for a
    path [dir/file], the bare name for a path that is a file name. *)
Theorem overlay_takes_the_smaller_size `{OverlayFlow.Pixels}
    (files : string -> option OverlayFlow.picture)
    (image1_path image2_path : string) (output_path : option string)
    (tolerance : float) (name : string) (result : OverlayFlow.picture) :
  OverlayFlow.overlay_images files image1_path image2_path output_path tolerance
  = inr (name, result) ->
  (exists img1 img2,
    files image1_path = Some img1 /\ files image2_path = Some img2
    /\ Overlay.check_aspect_ratio (OverlayFlow.dims img1) (OverlayFlow.dims img2)
         tolerance = Some true
    /\ OverlayFlow.dims result
       = (if (OverlayFlow.area (OverlayFlow.dims img2)
              <? OverlayFlow.area (OverlayFlow.dims img1))%Z
          then OverlayFlow.dims img2 else OverlayFlow.dims img1)
    /\ OverlayFlow.area (OverlayFlow.dims result)
       = Z.min (OverlayFlow.area (OverlayFlow.dims img1))
           (OverlayFlow.area (OverlayFlow.dims img2))
    /\ OverlayFlow.data result
       = OverlayFlow.over
           (if (OverlayFlow.area (OverlayFlow.dims img2)
                <? OverlayFlow.area (OverlayFlow.dims img1))%Z
            then OverlayFlow.resample (OverlayFlow.data img1)
                   (OverlayFlow.dims img1) (OverlayFlow.dims img2)
            else OverlayFlow.data img1)
           (if (OverlayFlow.area (OverlayFlow.dims img1)
                <? OverlayFlow.area (OverlayFlow.dims img2))%Z
            then OverlayFlow.resample (OverlayFlow.data img2)
                   (OverlayFlow.dims img2) (OverlayFlow.dims img1)
            else OverlayFlow.data img2))
  /\ name = match output_path with
            | Some (String c s) => PyPath.str (PyPath.Path (String c s))
            | _ => PyPath.str
                     (PyPath.joinpath (PyPath.parent (PyPath.Path image1_path))
                        (RemoveBackground.stem
                           (PyPath.name (PyPath.Path image1_path))
                         ++ "_overlay.png"))
            end
  /\ (output_path = None \/ output_path = Some EmptyString ->
      forall file,
        PyPath.split_slash file = [file] -> PyPath.kept file = true ->
        (image1_path = file ->
         name = (RemoveBackground.stem file ++ "_overlay.png")%string)
        /\ (forall dir,
              image1_path = (dir ++ "/" ++ file)%string ->
              name = PyPath.str
                       {| PyPath.root := PyPath.root (PyPath.Path image1_path);
                          PyPath.parts :=
                            PyPath.parts (PyPath.Path dir)
                            ++ [(RemoveBackground.stem file ++ "_overlay.png")%string]
                       |})).
Proof.
  intros Hrun.
  destruct (overlay_success files image1_path image2_path output_path tolerance
              name result Hrun)
    as (img1 & img2 & H1 & H2 & Hgate & Hdims & Harea & Hdata & Hname).
  split; [now exists img1, img2|]. split; [exact Hname|].
  intros Hnone file Hfile Hkept.
  assert (Hdefault : name = OverlayFlow.default_output image1_path)
    by (destruct Hnone as [-> | ->]; exact Hname).
  split.
  - intros ->. rewrite Hdefault. now apply default_output_of_name.
  - intros dir ->. rewrite Hdefault. now apply default_output_beside.
Qed.

Lemma overlay_takes_the_smaller_size_witness :
  @OverlayFlow.overlay_images OverlayFlow.sizes_only
    (fun path : string =>
       if String.eqb path "shots.d/a.png"
       then Some (OverlayFlow.sized 200 100)
       else if String.eqb path "b.png"
       then Some (OverlayFlow.sized 100 50)
       else None)
    "shots.d/a.png" "b.png" None Overlay.tolerance_default
  = inr ("shots.d/a_overlay.png"%string, OverlayFlow.sized 100 50)
  /\ exists img1 img2 : @OverlayFlow.picture OverlayFlow.sizes_only,
       img1 = OverlayFlow.sized 200 100
       /\ OverlayFlow.dims img2
          = {| Overlay.width := 100; Overlay.height := 50 |}.
Proof.
  split; [reflexivity|].
  destruct (proj1 (@overlay_takes_the_smaller_size OverlayFlow.sizes_only
              (fun path : string =>
                 if String.eqb path "shots.d/a.png"
                 then Some (OverlayFlow.sized 200 100)
                 else if String.eqb path "b.png"
                 then Some (OverlayFlow.sized 100 50)
                 else None)
              "shots.d/a.png" "b.png" None Overlay.tolerance_default
              "shots.d/a_overlay.png" (OverlayFlow.sized 100 50) eq_refl))
    as (img1 & img2 & H1 & H2 & _).
  exists img1, img2. cbn in H1, H2.
  injection H1 as <-. injection H2 as <-. now split.
Defined.

(** X14. Two images of equal area and different dimensions that pass the
    ratio gate are not resized: [resize_to_match] compares the areas, and
    [alpha_composite] then refuses the pair.  The overlay fails after the
    gate, and no file is written. *)
Theorem equal_area_overlay_fails `{OverlayFlow.Pixels}
    (files : string -> option OverlayFlow.picture)
    (image1_path image2_path : string) (output_path : option string)
    (tolerance : float) (img1 img2 : OverlayFlow.picture) :
  files image1_path = Some img1 ->
  files image2_path = Some img2 ->
  Overlay.check_aspect_ratio (OverlayFlow.dims img1) (OverlayFlow.dims img2)
    tolerance = Some true ->
  OverlayFlow.area (OverlayFlow.dims img1)
  = OverlayFlow.area (OverlayFlow.dims img2) ->
  OverlayFlow.dims img1 <> OverlayFlow.dims img2 ->
  OverlayFlow.overlay_images files image1_path image2_path output_path tolerance
  = inl OverlayFlow.SizeMismatch.
Proof.
  intros H1 H2 Hgate Harea Hdims. unfold OverlayFlow.overlay_images.
  rewrite H1, H2, Hgate. unfold OverlayFlow.resize_to_match. cbv zeta.
  rewrite Harea, Z.eqb_refl. unfold OverlayFlow.alpha_composite.
  destruct (OverlayFlow.same_size _ _) eqn:Hsame; [|reflexivity].
  now apply same_size_true in Hsame.
Qed.

Lemma equal_area_overlay_fails_witness :
  @OverlayFlow.overlay_images OverlayFlow.sizes_only
    (fun path : string =>
       if String.eqb path "a.png"
       then Some (OverlayFlow.sized 1000 1001)
       else Some (OverlayFlow.sized 1001 1000))
    "a.png" "b.png" None Overlay.tolerance_default
  = inl OverlayFlow.SizeMismatch.
Proof.
  apply (@equal_area_overlay_fails OverlayFlow.sizes_only _ "a.png" "b.png" None
           Overlay.tolerance_default
           (OverlayFlow.sized 1000 1001) (OverlayFlow.sized 1001 1000));
    [reflexivity|reflexivity|vm_compute; reflexivity|reflexivity|discriminate].
Defined.

(** ** composite: where the samples of an edge lie *)

Section EdgeSamples.
Import PyReal Composite.
Local Open Scope R_scope.

Lemma edge_samples_at h T e s :
  In s (edge_samples h T e) ->
  exists (n : Z) (i : nat),
    (Z.of_nat i < n)%Z /\ s = sample_at h T e n i.
Proof.
  unfold edge_samples. rewrite in_map_iff. intros (i & <- & Hi).
  apply in_seq in Hi. eexists _, i. split; [|reflexivity]. lia.
Qed.

Lemma sample_parameter (n : Z) (i : nat) :
  (Z.of_nat i < n)%Z -> 0 <= INR i / IZR (Z.max 1 (n - 1)) <= 1.
Proof.
  intros Hi. rewrite INR_IZR_INZ.
  assert (Hd : 1 <= IZR (Z.max 1 (n - 1))) by (apply (IZR_le 1); lia).
  assert (H0 : 0 <= IZR (Z.of_nat i)) by (apply (IZR_le 0); lia).
  assert (H1 : IZR (Z.of_nat i) <= IZR (Z.max 1 (n - 1))) by (apply IZR_le; lia).
  split.
  - apply Rmult_le_pos; [exact H0|]. left. apply Rinv_0_lt_compat. lra.
  - apply (Rmult_le_reg_r (IZR (Z.max 1 (n - 1)))); [lra|].
    unfold Rdiv. rewrite Rmult_assoc, Rinv_l by lra. lra.
Qed.

Lemma along_height e t lo hi :
  0 <= t <= 1 -> lo <= snd (start e) <= hi -> lo <= snd (end_ e) <= hi ->
  lo <= snd (along e t) <= hi.
Proof.
  intros Ht Hs He. unfold along, vadd, vscale, vsub. cbn [fst snd]. split; nra.
Qed.

End EdgeSamples.

(** X15. Every sample of an edge lies on the edge, between its two ends,
    and its strip hangs straight down by the local thickness.  So for an
    edge whose two ends lie inside the image height, every depth ratio is
    in [0, 1] and, for a thickness of 4 or more, every local thickness is
    between 4 and the thickness passed. *)
Theorem samples_stay_on_the_edge (img_bottom thickness : Z)
    (e : Composite.edge) (s : Composite.sample) :
  In s (Composite.edge_samples img_bottom thickness e) ->
  (exists t, (0 <= t <= 1)%R /\ Composite.point s = Composite.along e t)
  /\ Composite.offset s = (0%R, Composite.thickness_here s)
  /\ ((0 < img_bottom)%Z ->
      (0 <= snd (Composite.start e) <= IZR img_bottom)%R ->
      (0 <= snd (Composite.end_ e) <= IZR img_bottom)%R ->
      (0 <= Composite.depth_ratio s <= 1)%R
      /\ ((4 <= thickness)%Z ->
          (4 <= Composite.thickness_here s <= IZR thickness)%R)).
Proof.
  intros Hin. apply edge_samples_at in Hin as (n & i & Hi & ->).
  pose proof (sample_parameter n i Hi) as Ht.
  unfold Composite.sample_at. cbv zeta.
  cbn [Composite.point Composite.offset Composite.thickness_here
       Composite.depth_ratio].
  split; [now eexists|].
  split; [unfold Composite.vscale; cbn [fst snd]; f_equal; ring|].
  intros Hh Hs He.
  assert (Hpos : (0 < IZR img_bottom)%R) by (apply (IZR_lt 0); exact Hh).
  pose proof (along_height e _ 0%R (IZR img_bottom) Ht Hs He) as Hy.
  assert (Hr : (0 <= snd (Composite.along e
                             (INR i / IZR (Z.max 1 (n - 1))))
                     / IZR img_bottom <= 1)%R).
  { split.
    - apply Rmult_le_pos; [tauto|]. left. now apply Rinv_0_lt_compat.
    - apply (Rmult_le_reg_r (IZR img_bottom)); [exact Hpos|].
      unfold Rdiv. rewrite Rmult_assoc, Rinv_l by lra. lra. }
  split; [exact Hr|]. intros HT. now apply local_thickness_bounds.
Qed.

Lemma samples_stay_on_the_edge_witness :
  exists s,
    In s (Composite.edge_samples 480 7 Composite.room_bottom_edge)
    /\ Composite.offset s = (0%R, Composite.thickness_here s).
Proof.
  destruct (first_sample 480 7 Composite.room_bottom_edge) as (s & Hin & _).
  exists s. split; [exact Hin|].
  exact (proj1 (proj2 (samples_stay_on_the_edge 480 7
                         Composite.room_bottom_edge s Hin))).
Defined.

(** ** composite: the files a scene needs *)

Section SceneFiles.
Import Composite.
Context `{Imaging}.

Lemma four_corners_have_edges (a b c e : Z * Z) :
  exists es, get_visible_edges [a; b; c; e] = Some es.
Proof. unfold get_visible_edges. cbn. eauto. Qed.

Lemma add_thickness_defined (img : ndarray) (a b c e : Z * Z) (t : option Z) :
  exists out, add_thickness_to_visible_edges img [a; b; c; e] t = Some out.
Proof.
  unfold add_thickness_to_visible_edges. cbv zeta.
  destruct (shape img) as [h w].
  destruct (four_corners_have_edges a b c e) as [es ->].
  destruct es; eauto.
Qed.

Lemma prepare_rug_None (d : store) config design skip ts g :
  fst (prepare_rug d config design skip ts g) = None
  <-> exists p, truthy design = Some p /\ files d p = None.
Proof.
  unfold prepare_rug.
  assert (Hsome : forall rug,
            fst (if negb skip
                 then
                   let '(rug_h, rug_w) := shape rug in
                   let '(target_w, target_h) :=
                     match truthy (suitable_rug_size config) ≫= SIZE_CONFIGS with
                     | Some size_config => size_config
                     | None => (rug_w, rug_h)
                     end in
                   let '(rendered, g') :=
                     render_rug_image rug target_w target_h ts g in
                   (Some rendered, g')
                 else (Some rug, g)) <> None).
  { intros rug. destruct (negb skip); [|discriminate].
    destruct (shape rug) as [rug_h rug_w].
    destruct (match truthy (suitable_rug_size config) ≫= SIZE_CONFIGS with
              | Some size_config => size_config
              | None => (rug_w, rug_h)
              end) as [tw th].
    destruct (render_rug_image rug tw th ts g). discriminate. }
  destruct (truthy design) as [p|].
  - destruct (files d p) as [f|] eqn:Hf; cbn [fmap option_fmap option_map].
    + split; [intros Hn; now apply Hsome in Hn|].
      intros (q & [= <-] & Hq). congruence.
    + split; [intros _; now exists p|reflexivity].
  - split; [intros Hn; now apply Hsome in Hn|]. intros (q & Hq & _). discriminate.
Qed.

Lemma composite_scene_outcome (d : store) (scene_name : string)
    (design_path output_path : option string) (shadow_intensity : option R)
    (rug_thickness : option Z) (debug skip_render : option bool)
    (texture_strength : option R) (g : rng) :
  let run := composite_scene d scene_name design_path output_path
               shadow_intensity rug_thickness debug skip_render
               texture_strength g in
  let out := default output_path_default output_path in
  let missing :=
    templates d scene_name = None
    \/ (exists config, templates d scene_name = Some config
                       /\ files d (original config) = None)
    \/ (exists p, truthy design_path = Some p /\ files d p = None) in
  (missing /\ fst run = None)
  \/ (~ missing
      /\ exists result,
           fst run = match save_image result out with
                     | Some written => Some (out, written)
                     | None => None
                     end).
Proof.
  cbv zeta. unfold composite_scene. cbv zeta.
  unfold load_scene_config.
  destruct (templates d scene_name) as [config|] eqn:Htpl;
    cbn [mbind option_bind].
  2: { left. split; [now left|reflexivity]. }
  cbn [image_path wf_path fg_path corners].
  destruct (files d (original config)) as [orig|] eqn:Horig;
    cbn [fmap option_fmap option_map].
  2: { left. split; [right; left; now exists config|reflexivity]. }
  assert (Href : exists ref,
             files d
               (if file_exists d (scene_name ++ "_wf.png")
                then (scene_name ++ "_wf.png")%string
                else original config) = Some ref).
  { unfold file_exists.
    destruct (files d (scene_name ++ "_wf.png")) as [wf|] eqn:Hwf; eauto. }
  destruct Href as [ref ->].
  destruct (shape (open_rgb orig)) as [h w].
  pose proof (prepare_rug_None d
                {| image_path := original config;
                   wf_path :=
                     if file_exists d (scene_name ++ "_wf.png")
                     then (scene_name ++ "_wf.png")%string
                     else original config;
                   fg_path :=
                     if file_exists d (scene_name ++ "_fg.png")
                     then Some (scene_name ++ "_fg.png")%string else None;
                   corners :=
                     [top_left config; top_right config;
                      bottom_right config; bottom_left config];
                   suitable_rug_size := yaml_rug_size config |}
                design_path (default false skip_render)
                (default texture_strength_default texture_strength) g)
    as Hrug.
  destruct (prepare_rug d _ design_path _ _ g) as [[rug|] g'];
    cbn [fst] in Hrug.
  2: { left. split; [right; right; now apply Hrug|reflexivity]. }
  assert (Hnot : ~ (Some config = None
                    \/ (exists c, Some config = Some c
                                  /\ files d (original c) = None)
                    \/ (exists p, truthy design_path = Some p
                                  /\ files d p = None))).
  { intros [Ht|[(c & Hc & Hn)|Hd]]; [discriminate| |].
    - injection Hc as <-. congruence.
    - apply Hrug in Hd. discriminate. }
  right. split; [exact Hnot|].
  destruct (add_thickness_defined
              (warp_perspective rug
                 [top_left config; top_right config;
                  bottom_right config; bottom_left config] w h)
              (top_left config) (top_right config)
              (bottom_right config) (bottom_left config)
              (Some (default rug_thickness_default rug_thickness)))
    as [thick ->].
  assert (Hfg : match
                  (if file_exists d (scene_name ++ "_fg.png")
                   then Some (scene_name ++ "_fg.png")%string else None)
                with
                | Some p => files d p <> None
                | None => True
                end).
  { unfold file_exists.
    destruct (files d (scene_name ++ "_fg.png")) eqn:Hf; [|exact I].
    rewrite Hf. discriminate. }
  destruct (if file_exists d (scene_name ++ "_fg.png")
            then Some (scene_name ++ "_fg.png")%string else None) as [p|].
  - destruct (files d p) as [fg|]; [|contradiction].
    cbn [fmap option_fmap option_map mbind option_bind].
    match goal with
    | |- context [save_image ?r ?o] =>
        exists r; destruct (save_image r o); reflexivity
    end.
  - cbn [fmap option_fmap option_map].
    match goal with
    | |- context [save_image ?r ?o] =>
        exists r; destruct (save_image r o); reflexivity
    end.
Qed.

End SceneFiles.

(** X16. What [composite_scene] needs is the template, the original image
    and, when a design path is given, the design file: with a template
    that has its required keys and files that open as images, every run
    in which one of the three is missing fails, and a run that fails has
    one of them missing or fails in the final save, where Pillow raises
    for an [output_path] whose extension names no format or whose
    directory is not there (nothing creates it).  A missing
    [<scene>_wf.png] (the original then serves as shadow reference) or
    [<scene>_fg.png] never makes it fail.  The file written is the one
    saved at [output_path], or at [output.png] when none is given. *)
Theorem composite_scene_needs_three_files `{Composite.Imaging}
    (d : Composite.store) (scene_name : string)
    (design_path output_path : option string) (shadow_intensity : option R)
    (rug_thickness : option Z) (debug skip_render : option bool)
    (texture_strength : option R) (g : Composite.rng) :
  let run := Composite.composite_scene d scene_name design_path output_path
               shadow_intensity rug_thickness debug skip_render
               texture_strength g in
  let out := default Composite.output_path_default output_path in
  let missing :=
    Composite.templates d scene_name = None
    \/ (exists config, Composite.templates d scene_name = Some config
                       /\ Composite.files d (Composite.original config) = None)
    \/ (exists p, Composite.truthy design_path = Some p
                  /\ Composite.files d p = None) in
  (missing -> fst run = None)
  /\ (fst run = None ->
      missing \/ exists result, Composite.save_image result out = None)
  /\ ((forall result, Composite.save_image result out <> None) ->
      (fst run = None <-> missing))
  /\ ((forall result, Composite.save_image result out = None) ->
      fst run = None)
  /\ (forall written_at written, fst run = Some (written_at, written) ->
        written_at = out
        /\ exists result, Composite.save_image result out = Some written).
Proof.
  cbv zeta.
  destruct (composite_scene_outcome d scene_name design_path output_path
              shadow_intensity rug_thickness debug skip_render
              texture_strength g)
    as [[Hmiss Hnone]|[Hall (result & Hrun)]].
  - rewrite Hnone. split; [reflexivity|]. split; [now left|].
    split; [now split|]. split; [reflexivity|]. discriminate.
  - rewrite Hrun.
    destruct (Composite.save_image result
                (default Composite.output_path_default output_path))
      as [written|] eqn:Hsave.
    + split; [contradiction|]. split; [discriminate|].
      split; [intros _; split; [discriminate|contradiction]|].
      split; [intros Hfails; now rewrite Hfails in Hsave|].
      intros o f [= <- <-]. split; [reflexivity|now exists result].
    + split; [reflexivity|]. split; [intros _; right; now exists result|].
      split; [|split; [reflexivity|discriminate]].
      intros Hsaves. now contradiction (Hsaves result).
Qed.

(** ** remove_background: inputs that share an output *)

Section SharedOutputs.
Import RemoveBackground.

Variable svc : remote.
Variable target_format : string.

Lemma write_bytes_has d name : path_exists (write_bytes d name) name = true.
Proof.
  unfold write_bytes. destruct (path_exists d name) eqn:Hp; [exact Hp|].
  rewrite path_exists_app. cbn. rewrite String.eqb_refl. apply orb_true_r.
Qed.

(** One turn of the loop: the record it appends and the state it leaves. *)
Lemma batch_step f rest st acc :
  path_exists (disk st) f = true ->
  exists r st1,
    batch svc target_format (f :: rest) st acc
    = batch svc target_format rest st1 (acc ++ [r])
    /\ file r = f
    /\ (forall p, path_exists (disk st) p = true ->
                  path_exists (disk st1) p = true)
    /\ (path_exists (disk st) (out_file target_format f) = true ->
        outcome r = Skipped)
    /\ ((forall msg, outcome r <> Errored msg) ->
        path_exists (disk st1) (out_file target_format f) = true).
Proof.
  intros Hf. cbn [batch].
  destruct (path_exists (disk st) (out_file target_format f)) eqn:Hout.
  - exists {| file := f; outcome := Skipped |}, st. now repeat split.
  - unfold remove_background. rewrite Hf. cbn [negb].
    destruct (svc (List.length (sent st)) f) as [bytes|e].
    + eexists {| file := f; outcome := Succeeded _ |}, _.
      split; [reflexivity|]. split; [reflexivity|]. cbn [disk]. split; [|split].
      * intros p Hp. now apply write_bytes_keeps.
      * discriminate.
      * intros _. apply write_bytes_has.
    + eexists {| file := f; outcome := Errored _ |}, _.
      split; [reflexivity|]. split; [reflexivity|].
      cbn [disk outcome]. split; [|split].
      * now intros p Hp.
      * discriminate.
      * intros Hplain. now contradiction (Hplain (error_text e)).
Qed.

Lemma batch_shared_outputs files : forall st acc,
  (forall f, In f files -> path_exists (disk st) f = true) ->
  exists new,
    fst (batch svc target_format files st acc) = acc ++ new
    /\ (forall r, In r new ->
          path_exists (disk st) (out_file target_format (file r)) = true ->
          outcome r = Skipped)
    /\ (forall i j ri rj, (i < j)%nat ->
          new !! i = Some ri -> new !! j = Some rj ->
          out_file target_format (file ri) = out_file target_format (file rj) ->
          (forall msg, outcome ri <> Errored msg) ->
          outcome rj = Skipped).
Proof.
  induction files as [|f rest IH]; intros st acc Hex.
  - exists []. cbn. rewrite app_nil_r. split; [reflexivity|].
    split; [intros r []|]. intros i j ri rj _ Hi. now destruct i.
  - destruct (batch_step f rest st acc (Hex f (or_introl eq_refl)))
      as (r & st1 & -> & Hfile & Hkeep & Hhead & Hdone).
    assert (Hex1 : forall g, In g rest -> path_exists (disk st1) g = true).
    { intros g Hg. apply Hkeep, Hex. now right. }
    destruct (IH st1 (acc ++ [r]) Hex1) as (new & Hres & Hskip & Hlater).
    exists (r :: new). rewrite Hres, <- app_assoc. split; [reflexivity|].
    split.
    + intros q [<-|Hq] Hp; [apply Hhead; now rewrite <- Hfile|].
      apply Hskip; [exact Hq|]. now apply Hkeep.
    + intros i j ri rj Hij Hi Hj Hsame Hplain.
      destruct j as [|j]; [lia|]. cbn in Hj.
      destruct i as [|i]; cbn in Hi.
      * injection Hi as <-. apply Hskip.
        -- apply list_elem_of_In. now apply list_elem_of_lookup_2 in Hj.
        -- rewrite <- Hsame, Hfile. now apply Hdone.
      * apply (Hlater i j ri rj); [lia|assumption..].
Qed.

End SharedOutputs.

(** X17. In the background batch two inputs with the same stem share one
    output, [<stem>_fg.<format>]: once the earlier one is skipped or
    succeeds, every later one is reported as skipped and is never sent to
    the service. *)
Theorem same_stem_is_processed_once (svc : RemoveBackground.remote)
    (d : RemoveBackground.directory) (format : option string)
    (rs : list RemoveBackground.record) (st : RemoveBackground.state)
    (i j : nat) (ri rj : RemoveBackground.record) :
  RemoveBackground.process_directory svc (Some d) format = inl (rs, st) ->
  (i < j)%nat -> rs !! i = Some ri -> rs !! j = Some rj ->
  RemoveBackground.stem (RemoveBackground.file ri)
  = RemoveBackground.stem (RemoveBackground.file rj) ->
  (forall msg, RemoveBackground.outcome ri <> RemoveBackground.Errored msg) ->
  RemoveBackground.outcome rj = RemoveBackground.Skipped.
Proof.
  unfold RemoveBackground.process_directory. intros Hrun Hij Hi Hj Hstem Hplain.
  destruct (batch_shared_outputs svc (default "png"%string format)
              (RemoveBackground.image_files d)
              {| RemoveBackground.disk := d; RemoveBackground.sent := [] |} [])
    as (new & Hres & _ & Hlater).
  { intros f Hf. cbn. now apply image_files_exist. }
  injection Hrun as Hrun. rewrite Hrun in Hres. cbn [fst app] in Hres.
  subst new. apply (Hlater i j ri rj Hij Hi Hj); [|exact Hplain].
  unfold RemoveBackground.out_file. now rewrite Hstem.
Qed.

Lemma same_stem_is_processed_once_witness :
  RemoveBackground.outcome
    {| RemoveBackground.file := "rug.jpg";
       RemoveBackground.outcome := RemoveBackground.Skipped |}
  = RemoveBackground.Skipped.
Proof.
  exact (same_stem_is_processed_once
           (fun _ _ => inl [Byte.x89])
           [("rug.png", true); ("rug.jpg", true)]%string None
           [{| RemoveBackground.file := "rug.png";
               RemoveBackground.outcome := RemoveBackground.Succeeded "rug_fg.png" |};
            {| RemoveBackground.file := "rug.jpg";
               RemoveBackground.outcome := RemoveBackground.Skipped |}]
           {| RemoveBackground.disk :=
                [("rug.png", true); ("rug.jpg", true); ("rug_fg.png", true)]%string;
              RemoveBackground.sent := ["rug.png"%string] |}
           0 1 _ _ eq_refl ltac:(lia) eq_refl eq_refl eq_refl
           ltac:(discriminate)).
Defined.

(** ** make_white_floor: outputs of different inputs *)

Section DistinctOutputs.
Import PyStr WhiteFloorBatch.
Local Open Scope string_scope.

Lemma append_inj_length a a' b b' :
  String.length a = String.length a' -> a ++ b = a' ++ b' -> a = a' /\ b = b'.
Proof.
  revert a'. induction a as [|c a IH]; intros [|c' a'] Hlen Heq;
    cbn in *; try discriminate.
  - now split.
  - injection Heq as -> Heq. destruct (IH a' ltac:(lia) Heq) as [-> ->].
    now split.
Qed.

Lemma append_inv_tail a a' b : a ++ b = a' ++ b -> a = a'.
Proof.
  intros Heq. assert (Hlen : String.length a = String.length a').
  { apply (f_equal String.length) in Heq. rewrite !length_append in Heq. lia. }
  now destruct (append_inj_length a a' b b Hlen Heq).
Qed.

Lemma candidate_parts f flag :
  is_candidate (f, flag) = true ->
  exists pre post,
    f = pre ++ String "." post
    /\ output_path f = (pre ++ "_wf") ++ String "." post
    /\ rfind_dot post = None.
Proof.
  unfold is_candidate. cbn [fst snd]. intros Hc.
  apply andb_prop in Hc as [Hc _]. apply andb_prop in Hc as [_ Hext].
  destruct (RemoveBackground.cut_point f) as [i|] eqn:Hcut.
  2:{ apply cut_point_None in Hcut as [_ Hs]. rewrite Hs in Hext. discriminate. }
  apply cut_point_Some in Hcut
    as (pre & post & Hname & Hstem & Hsuffix & Hdot & _).
  exists pre, post. split; [exact Hname|]. split; [|exact Hdot].
  unfold output_path. now rewrite Hstem, Hsuffix, append_assoc.
Qed.

Lemma output_path_inj f g flag flag' :
  is_candidate (f, flag) = true -> is_candidate (g, flag') = true ->
  output_path f = output_path g -> f = g.
Proof.
  intros Hf Hg Heq.
  destruct (candidate_parts f flag Hf) as (pre & post & -> & Hof & Hdot).
  destruct (candidate_parts g flag' Hg) as (pre' & post' & -> & Hog & Hdot').
  rewrite Hof, Hog in Heq.
  assert (Hlen : String.length (pre ++ "_wf") = String.length (pre' ++ "_wf")).
  { pose proof (f_equal rfind_dot Heq) as Hr.
    rewrite !rfind_dot_append in Hr. cbn in Hr. rewrite Hdot, Hdot' in Hr.
    cbn in Hr. injection Hr as Hr. lia. }
  destruct (append_inj_length _ _ _ _ Hlen Heq) as [Hpre Hpost].
  apply append_inv_tail in Hpre. now rewrite Hpre, Hpost.
Qed.

Lemma candidates_NoDup (d : RemoveBackground.directory) :
  NoDup (map fst d) -> NoDup (image_files d).
Proof.
  unfold image_files. induction d as [|[n flag] d IH]; cbn; intros Hnd.
  - constructor.
  - inversion Hnd as [|? ? Hnot Hrest]; subst.
    destruct (is_candidate (n, flag)); [|now apply IH].
    cbn. constructor; [|now apply IH].
    intros Hin. apply Hnot. apply list_elem_of_In.
    apply list_elem_of_In, in_map_iff in Hin as (e & He & Hin).
    apply filter_In in Hin as [Hin _]. apply in_map_iff. now exists e.
Qed.

Variable w : world.

Lemma wf_batch_no_skip files : forall st t,
  NoDup files ->
  (forall f, In f files -> exists flag, is_candidate (f, flag) = true) ->
  (forall f, In f files ->
     RemoveBackground.path_exists (disk st) (output_path f) = false) ->
  skipped (snd (batch w files st t)) = skipped t.
Proof.
  induction files as [|f rest IH]; intros st t Hnd Hcand Hfree;
    cbn [batch]; [reflexivity|].
  inversion Hnd as [|? ? Hnot Hrest]; subst.
  rewrite (Hfree f (or_introl eq_refl)).
  assert (Hc : forall g, In g rest -> exists flag, is_candidate (g, flag) = true)
    by (intros g Hg; apply Hcand; now right).
  assert (Hr : forall g, In g rest ->
                 RemoveBackground.path_exists (disk st) (output_path g) = false)
    by (intros g Hg; apply Hfree; now right).
  destruct (negb (readable w f)); [now rewrite IH|].
  destruct (white_floor_state w st) as [Hdisk _].
  destruct (white_floor w st) as [c st1]. cbn [snd] in Hdisk.
  assert (Hwritten : forall g, In g rest ->
            RemoveBackground.path_exists
              (RemoveBackground.write_bytes (disk st1) (output_path f))
              (output_path g) = false).
  { intros g Hg. unfold RemoveBackground.write_bytes. rewrite Hdisk.
    rewrite (Hfree f (or_introl eq_refl)), path_exists_app, (Hr g Hg).
    cbn. rewrite orb_false_r. apply String.eqb_neq. intros Heq.
    destruct (Hcand f (or_introl eq_refl)) as [flag Hflag].
    destruct (Hc g Hg) as [flag' Hflag'].
    apply Hnot, list_elem_of_In.
    rewrite (output_path_inj f g flag flag' Hflag Hflag');
      [exact Hg|now symmetry]. }
  assert (Hkept : forall g, In g rest ->
            RemoveBackground.path_exists (disk st1) (output_path g) = false)
    by (intros g Hg; rewrite Hdisk; now apply Hr).
  destruct c as [[bytes|err]|exn]; rewrite IH; auto.
Qed.

End DistinctOutputs.

(** X18. The white-floor batch keeps the extension in the output name, so
    two different inputs never share an output: in a directory that holds
    none of the outputs yet (and lists each name once), no input is
    skipped - each one is sent to the service or counted as an error. *)
Theorem white_floor_outputs_are_distinct (w : WhiteFloorBatch.world)
    (d : RemoveBackground.directory) :
  NoDup (map fst d) ->
  (forall f, In f (WhiteFloorBatch.image_files d) ->
     RemoveBackground.path_exists d (WhiteFloorBatch.output_path f) = false) ->
  let t := snd (WhiteFloorBatch.process_directory w (Some d)) in
  WhiteFloorBatch.skipped t = 0%nat
  /\ (WhiteFloorBatch.processed t + WhiteFloorBatch.errors t
      = List.length (WhiteFloorBatch.image_files d))%nat.
Proof.
  intros Hnd Hfree. cbv zeta.
  assert (Hskip : WhiteFloorBatch.skipped
                    (snd (WhiteFloorBatch.process_directory w (Some d))) = 0%nat).
  { unfold WhiteFloorBatch.process_directory.
    destruct (WhiteFloorBatch.image_files d) as [|f files] eqn:Hfiles;
      [reflexivity|].
    pose proof (wf_batch_no_skip w (f :: files)
                  {| WhiteFloorBatch.disk := d; WhiteFloorBatch.calls := 0;
                     WhiteFloorBatch.sleeps := [] |} WhiteFloorBatch.no_tally)
      as Hno.
    destruct (WhiteFloorBatch.batch w (f :: files) _ _) as [st t].
    cbn [snd] in *. apply Hno.
    - rewrite <- Hfiles. now apply candidates_NoDup.
    - intros g Hg. apply (wf_image_files_In d). now rewrite Hfiles.
    - intros g Hg. cbn. apply Hfree. exact Hg. }
  split; [exact Hskip|].
  assert (Hsum : (WhiteFloorBatch.processed
                    (snd (WhiteFloorBatch.process_directory w (Some d)))
                  + WhiteFloorBatch.skipped
                      (snd (WhiteFloorBatch.process_directory w (Some d)))
                  + WhiteFloorBatch.errors
                      (snd (WhiteFloorBatch.process_directory w (Some d)))
                  = List.length (WhiteFloorBatch.image_files d))%nat).
  { unfold WhiteFloorBatch.process_directory.
    destruct (WhiteFloorBatch.image_files d) as [|f files] eqn:Hfiles;
      [reflexivity|].
    destruct (wf_batch_spec w (f :: files)
                {| WhiteFloorBatch.disk := d; WhiteFloorBatch.calls := 0;
                   WhiteFloorBatch.sleeps := [] |} WhiteFloorBatch.no_tally)
      as (added & Hsum & _).
    destruct (WhiteFloorBatch.batch w (f :: files) _ _) as [st t].
    cbn [fst snd WhiteFloorBatch.no_tally WhiteFloorBatch.processed
         WhiteFloorBatch.skipped WhiteFloorBatch.errors] in *. lia. }
  lia.
Qed.

Lemma white_floor_outputs_are_distinct_witness :
  WhiteFloorBatch.skipped
    (snd (WhiteFloorBatch.process_directory
            {| WhiteFloorBatch.api_key := Some "key"%string;
               WhiteFloorBatch.svc := fun _ => WhiteFloor.Fails "down";
               WhiteFloorBatch.readable := fun _ => true |}
            (Some [("rug.png", true); ("rug.jpg", true)]%string)))
  = 0%nat.
Proof.
  refine (proj1 (white_floor_outputs_are_distinct
                   {| WhiteFloorBatch.api_key := Some "key"%string;
                      WhiteFloorBatch.svc := fun _ => WhiteFloor.Fails "down";
                      WhiteFloorBatch.readable := fun _ => true |}
                   [("rug.png", true); ("rug.jpg", true)]%string _ _)).
  - repeat constructor; rewrite list_elem_of_In; cbn; intuition discriminate.
  - cbn. intros f [<-|[<-|[]]]; reflexivity.
Defined.

(** ** render: the default texture *)

Section DefaultTexture.
Import Seam.
Context {T : Type}.
Variable probe : string -> option (option T).

Lemma first_texture_Some sizes img :
  first_texture probe sizes = Some img
  <-> exists before size after,
        sizes = before ++ size :: after
        /\ probe (size ++ ".jpg")%string = Some (Some img)
        /\ forall s, In s before ->
             forall other, probe (s ++ ".jpg")%string <> Some (Some other).
Proof.
  induction sizes as [|size rest IH]; cbn [first_texture].
  - split; [discriminate|]. intros (before & s & after & Heq & _).
    now destruct before.
  - destruct (probe (size ++ ".jpg")%string) as [[found|]|] eqn:Hp.
    + split.
      * intros [= <-]. exists [], size, rest. cbn. repeat split; [exact Hp|].
        intros s [].
      * intros ([|b before] & s & after & Heq & Hs & Hnone);
          cbn in Heq; injection Heq as <- Heq.
        -- congruence.
        -- now contradiction (Hnone size (or_introl eq_refl) found).
    + rewrite IH. split.
      * intros (before & s & after & -> & Hs & Hnone).
        exists (size :: before), s, after. cbn. repeat split; [exact Hs|].
        intros s' [<-|Hin] other; [congruence|now apply Hnone].
      * intros ([|b before] & s & after & Heq & Hs & Hnone);
          cbn in Heq; injection Heq as <- Heq; [congruence|].
        exists before, s, after. repeat split; [exact Heq|exact Hs|].
        intros s' Hin. apply Hnone. now right.
    + rewrite IH. split.
      * intros (before & s & after & -> & Hs & Hnone).
        exists (size :: before), s, after. cbn. repeat split; [exact Hs|].
        intros s' [<-|Hin] other; [congruence|now apply Hnone].
      * intros ([|b before] & s & after & Heq & Hs & Hnone);
          cbn in Heq; injection Heq as <- Heq; [congruence|].
        exists before, s, after. repeat split; [exact Heq|exact Hs|].
        intros s' Hin. apply Hnone. now right.
Qed.

Lemma first_texture_None sizes :
  first_texture probe sizes = None
  <-> forall s, In s sizes ->
        forall img, probe (s ++ ".jpg")%string <> Some (Some img).
Proof.
  induction sizes as [|size rest IH]; cbn [first_texture].
  - split; [intros _ s []|reflexivity].
  - destruct (probe (size ++ ".jpg")%string) as [[found|]|] eqn:Hp.
    + split; [discriminate|]. intros Hnone.
      now contradiction (Hnone size (or_introl eq_refl) found).
    + rewrite IH. split.
      * intros Hnone s [<-|Hin] img; [congruence|now apply Hnone].
      * intros Hnone s Hin. apply Hnone. now right.
    + rewrite IH. split.
      * intros Hnone s [<-|Hin] img; [congruence|now apply Hnone].
      * intros Hnone s Hin. apply Hnone. now right.
Qed.

End DefaultTexture.

(** X19. The default texture of the renderer is the texture of the first
    size class, in the order 8x10, 6x9, 5x7, 4x6, 3x5, 2x3, whose file is
    there and opens: a file that is missing or does not open is passed
    over without an error, an 8x10 texture that opens wins over all
    others, and there is no default texture exactly when none of the six
    opens. *)
Theorem default_texture_is_the_first_that_opens {T : Type}
    (probe : string -> option (option T)) :
  (forall img,
     Seam.DEFAULT_TEXTURE probe = Some img
     <-> exists before size after,
           Seam.texture_order = before ++ size :: after
           /\ probe (size ++ ".jpg")%string = Some (Some img)
           /\ forall s, In s before ->
                forall other, probe (s ++ ".jpg")%string <> Some (Some other))
  /\ (forall img, probe "8x10.jpg"%string = Some (Some img) ->
                  Seam.DEFAULT_TEXTURE probe = Some img)
  /\ (Seam.DEFAULT_TEXTURE probe = None
      <-> forall s, In s Seam.texture_order ->
            forall img, probe (s ++ ".jpg")%string <> Some (Some img)).
Proof.
  split; [|split].
  - intros img. apply first_texture_Some.
  - intros img Hp. unfold Seam.DEFAULT_TEXTURE, Seam.texture_order.
    cbn [Seam.first_texture]. cbn [String.append]. now rewrite Hp.
  - apply first_texture_None.
Qed.
